(** * TLDW-bilibili: video identifiers, transcript conversion, analysis cache
      and the analyze-page orchestration

    A shallow embedding of the parts of the application that its
    specification makes claims about:

    - [Regex], [Urls]: the regular expressions of [src/lib/utils.ts] and
      [src/lib/bilibili-client.ts] and the functions [extractVideoId],
      [extractBilibiliVideoId], [detectPlatform] built on them;
      [Shapes] describes the URLs the patterns are meant for.
    - [Cache]: the table [bilibili_video_analyses] with its constraints
      and the function [upsert_bilibili_video_analysis] of the migration.
    - [Transcript], [CheckCache], [VideoInfoRoute]: the handlers of
      [/api/transcript], [/api/check-video-cache] and [/api/video-info].
    - [Page]: [processVideo] and [handleThemeSelect] of the analyze page,
      as computations over the state of the page that record the requests
      they send.

    and of the code around them:

    - [Lang]: the language of a regular expression, against which the
      matcher is sound; [Player]: the embed URL of the Bilibili player.
    - [Format], [Colors]: the durations and the topic colours of
      [src/lib/utils.ts].
    - [Lookup]: the function [get_video_analysis_by_platform] of the
      migration; [Tracks]: the test for a Chinese subtitle track.
    - [PageLogic]: what a computation of the page records and what it
      leaves alone.

    Strings are Rocq [string]s, one [ascii] per byte; the URLs and identifiers
    the claims speak about are ASCII, and the messages of the page are
    only compared, trimmed of ASCII white space and searched for ASCII
    words. *)

From Stdlib Require Import Bool Arith Lia List Ascii String DecimalString ZArith QArith
  Qround Lqa.
From stdpp Require Import gmap strings.

Import ListNotations.
Local Open Scope string_scope.
Local Open Scope nat_scope.

(* String concatenation unfolds on a constructor, as list concatenation does. *)
#[local] Arguments String.append !s1 s2 : simpl nomatch.

(** ** Strings *)

Module Str.

(** The character code of [c]. *)
Definition code (c : ascii) : nat := nat_of_ascii c.

Definition in_range (lo hi : ascii) (c : ascii) : bool :=
  (code lo <=? code c) && (code c <=? code hi).

Definition is_upper (c : ascii) : bool := in_range "A" "Z" c.
Definition is_lower (c : ascii) : bool := in_range "a" "z" c.
Definition is_digit (c : ascii) : bool := in_range "0" "9" c.
Definition is_alnum (c : ascii) : bool := is_lower c || is_upper c || is_digit c.

(** [toUpperCase] and [toLowerCase] on one character (ASCII letters; every
    other character is its own image). *)
Definition to_upper (c : ascii) : ascii :=
  if is_lower c then ascii_of_nat (code c - 32) else c.
Definition to_lower (c : ascii) : ascii :=
  if is_upper c then ascii_of_nat (code c + 32) else c.

Fixpoint lower (s : string) : string :=
  match s with
  | EmptyString => EmptyString
  | String c s' => String (to_lower c) (lower s')
  end.

(** JavaScript white space and line terminators that fit in one [ascii]:
    TAB, LF, VT, FF, CR, SPACE. *)
Definition is_space (c : ascii) : bool :=
  (code c =? 9) || (code c =? 10) || (code c =? 11) || (code c =? 12)
  || (code c =? 13) || (code c =? 32).

Definition is_line_terminator (c : ascii) : bool :=
  (code c =? 10) || (code c =? 13).

(** [strip ceq lit s]: when [s] starts with [lit] (characters compared with
    [ceq]), what follows it. *)
Fixpoint strip (ceq : ascii -> ascii -> bool) (lit s : string) : option string :=
  match lit with
  | EmptyString => Some s
  | String c lit' =>
      match s with
      | String x s' => if ceq c x then strip ceq lit' s' else None
      | EmptyString => None
      end
  end.

(** [occurs ceq lit s]: [lit] occurs somewhere in [s]
    ([String.prototype.includes] when [ceq] is equality). *)
Fixpoint occurs (ceq : ascii -> ascii -> bool) (lit s : string) : bool :=
  match strip ceq lit s with
  | Some _ => true
  | None =>
      match s with
      | String _ s' => occurs ceq lit s'
      | EmptyString => false
      end
  end.

Definition includes (s lit : string) : bool := occurs Ascii.eqb lit s.

Definition starts_with (s lit : string) : bool :=
  match strip Ascii.eqb lit s with Some _ => true | None => false end.

Fixpoint all (p : ascii -> bool) (s : string) : bool :=
  match s with
  | EmptyString => true
  | String c s' => p c && all p s'
  end.

(** The first [String.length s - String.length rest] characters of [s]:
    what a matcher consumed when it went from [s] to its suffix [rest]. *)
Definition consumed (s rest : string) : string :=
  substring 0 (String.length s - String.length rest) s.

(** [String.prototype.trim]. *)
Fixpoint trim_start (s : string) : string :=
  match s with
  | String c s' => if is_space c then trim_start s' else s
  | EmptyString => EmptyString
  end.

Fixpoint trim_end (s : string) : string :=
  match s with
  | EmptyString => EmptyString
  | String c s' =>
      match trim_end s' with
      | EmptyString => if is_space c then EmptyString else String c EmptyString
      | t => String c t
      end
  end.

Definition trim (s : string) : string := trim_end (trim_start s).


(** [t] is a suffix of [s]. *)
Inductive suffix (t : string) : string -> Prop :=
| suffix_here : suffix t t
| suffix_later c s : suffix t s -> suffix t (String c s).

End Str.

(** ** Regular expressions

    The fragment of JavaScript regular expressions the source uses, with the
    backtracking matcher of the language: alternatives in order, greedy
    repetition, one capture group, the [i] flag, and an unanchored search for
    the leftmost match as [String.prototype.match] does. Every repetition in
    the source ([+], [*]) is over a single character class. *)

Module Regex.

Inductive regex : Type :=
| Eps : regex
| Chr : ascii -> regex                   (* a literal character *)
| Cls : (ascii -> bool) -> regex         (* a character class *)
| Seq : regex -> regex -> regex
| Alt : regex -> regex -> regex          (* r1|r2 *)
| Star : (ascii -> bool) -> regex        (* greedy [class]* *)
| Cap : regex -> regex.                  (* the capture group (...) *)

(** A literal string. *)
Fixpoint lit (s : string) : regex :=
  match s with
  | EmptyString => Eps
  | String c s' => Seq (Chr c) (lit s')
  end.

(** [class]+ , r? and r{n}. *)
Definition plus (p : ascii -> bool) : regex := Seq (Cls p) (Star p).
Definition opt (r : regex) : regex := Alt r Eps.
Fixpoint rep (n : nat) (r : regex) : regex :=
  match n with
  | O => Eps
  | S n' => Seq r (rep n' r)
  end.

(** Character comparison: with the [i] flag both sides are canonicalised. *)
Definition chr_eq (ci : bool) (c x : ascii) : bool :=
  if ci then Ascii.eqb (Str.to_upper c) (Str.to_upper x) else Ascii.eqb c x.

(** Class membership: with the [i] flag a character is in the class when
    one of its case variants is. *)
Definition cls_in (ci : bool) (p : ascii -> bool) (x : ascii) : bool :=
  if ci then p x || p (Str.to_upper x) || p (Str.to_lower x) else p x.

(** A match: the matched text and the text of group 1, if the group took
    part. *)
Record match_result : Type := MatchResult {
  whole : string;
  group1 : option string
}.

Section Matcher.
Context {A : Type}.

(** Greedy loop: take one more character of the class if possible, and
    fall back to the continuation when the longer attempt fails. *)
Fixpoint star_loop (p : ascii -> bool) (k : string -> option A) (s : string)
  : option A :=
  match s with
  | String c s' =>
      if p c then
        match star_loop p k s' with
        | Some r => Some r
        | None => k s
        end
      else k s
  | EmptyString => k s
  end.

(** [run ci r s cap k]: match [r] at the start of [s], then continue with
    [k] on the rest; [None] is failure and makes the caller backtrack. *)
Fixpoint run (ci : bool) (r : regex) (s : string) (cap : option string)
         (k : string -> option string -> option A) : option A :=
  match r with
  | Eps => k s cap
  | Chr c =>
      match s with
      | String x s' => if chr_eq ci c x then k s' cap else None
      | EmptyString => None
      end
  | Cls p =>
      match s with
      | String x s' => if cls_in ci p x then k s' cap else None
      | EmptyString => None
      end
  | Seq r1 r2 => run ci r1 s cap (fun s' cap' => run ci r2 s' cap' k)
  | Alt r1 r2 =>
      match run ci r1 s cap k with
      | Some a => Some a
      | None => run ci r2 s cap k
      end
  | Star p => star_loop (cls_in ci p) (fun s' => k s' cap) s
  | Cap r1 => run ci r1 s cap (fun s' _ => k s' (Some (Str.consumed s s')))
  end.
End Matcher.

(** A match that starts at the first character of [s]. *)
Definition match_here (ci : bool) (r : regex) (s : string) : option match_result :=
  run ci r s None (fun s' cap => Some (MatchResult (Str.consumed s s') cap)).

(** [s.match(r)] for a regular expression without the [g] flag: the
    leftmost match, [None] for [null]. *)
Fixpoint search (ci : bool) (r : regex) (s : string) : option match_result :=
  match match_here ci r s with
  | Some m => Some m
  | None =>
      match s with
      | String _ s' => search ci r s'
      | EmptyString => None
      end
  end.

End Regex.

(** ** Video identifiers ([src/lib/utils.ts], [src/lib/bilibili-client.ts]) *)

Module Urls.
Import Regex.

Definition not_slash (c : ascii) : bool := negb (Ascii.eqb c "/").
(** [.] : any character but a line terminator. *)
Definition dot (c : ascii) : bool := negb (Str.is_line_terminator c).
(** [[?&]] *)
Definition query_sep (c : ascii) : bool := Ascii.eqb c "?" || Ascii.eqb c "&".
(** The class of the identifier characters: anything but a double quote
    (code 34, written \x22 below), [&], [?], [/] and white space. *)
Definition dquote : ascii := ascii_of_nat 34.
Definition id_char (c : ascii) : bool :=
  negb (Ascii.eqb c dquote || Ascii.eqb c "&" || Ascii.eqb c "?"
        || Ascii.eqb c "/" || Str.is_space c).
(** [[a-zA-Z0-9]] and [\d] *)
Definition alnum (c : ascii) : bool := Str.is_alnum c.
Definition digit (c : ascii) : bool := Str.is_digit c.

(** The parts of the YouTube expression, in the order they are written:
    [[^\/]+\/.+\/], [(?:v|e(?:mbed)?)\/], [.*[?&]v=] and the captured
    [([^\x22&?\/\s]{11})]. *)
Definition yt_path : regex :=
  Seq (plus not_slash) (Seq (Chr "/") (Seq (plus dot) (Chr "/"))).
Definition yt_v_or_embed : regex :=
  Seq (Alt (Chr "v") (Seq (Chr "e") (opt (lit "mbed")))) (Chr "/").
Definition yt_query : regex :=
  Seq (Star dot) (Seq (Cls query_sep) (lit "v=")).
Definition yt_id_group : regex := Cap (rep 11 (Cls id_char)).

(** [/(?:youtube\.com\/(?:[^\/]+\/.+\/|(?:v|e(?:mbed)?)\/|.*[?&]v=)|youtu\.be\/)([^\x22&?\/\s]{11})/] *)
Definition youtubeRegex : regex :=
  Seq (Alt (Seq (lit "youtube.com/") (Alt yt_path (Alt yt_v_or_embed yt_query)))
           (lit "youtu.be/"))
      yt_id_group.

(** [(BV[a-zA-Z0-9]+)] *)
Definition bv_group : regex := Cap (Seq (lit "BV") (plus alnum)).

(** [/bilibili\.com\/video\/(BV[a-zA-Z0-9]+)/i] *)
Definition bvPattern : regex := Seq (lit "bilibili.com/video/") bv_group.
(** [/bilibili\.com\/video\/av(\d+)/i] *)
Definition avPattern : regex :=
  Seq (lit "bilibili.com/video/av") (Cap (plus digit)).
(** [/b23\.tv\/(BV[a-zA-Z0-9]+)/i] *)
Definition shortPattern : regex := Seq (lit "b23.tv/") bv_group.
(** [/m\.bilibili\.com\/video\/(BV[a-zA-Z0-9]+)/i] *)
Definition mobilePattern : regex := Seq (lit "m.bilibili.com/video/") bv_group.

Definition bilibiliPatterns : list regex :=
  [bvPattern; avPattern; shortPattern; mobilePattern].

(** [for (const pattern of patterns) { const m = url.match(pattern); if (m) return m[1]; } return null] *)
Fixpoint first_match (patterns : list regex) (url : string) : option string :=
  match patterns with
  | [] => None
  | pattern :: rest =>
      match search true pattern url with
      | Some m => group1 m
      | None => first_match rest url
      end
  end.

Definition extractBilibiliVideoId (url : string) : option string :=
  first_match bilibiliPatterns url.

Definition extractVideoId (url : string) : option string :=
  match search false youtubeRegex url with
  | Some youtubeMatch => group1 youtubeMatch
  | None => first_match bilibiliPatterns url
  end.

Inductive platform : Type := youtube | bilibili.

Definition detectPlatform (url : string) : option platform :=
  if Str.includes url "youtube.com" || Str.includes url "youtu.be" then Some youtube
  else if Str.includes url "bilibili.com" || Str.includes url "b23.tv" then Some bilibili
  else None.

End Urls.

(** ** The URL shapes the specification lists

    The shapes are those of the comments next to the patterns: a scheme and
    sub-domain, the host and path of the platform, the identifier, and a
    tail (query string, fragment, further path). *)

Module Shapes.
Import Regex Urls.











(** [host] is [domain] or one of its sub-domains. *)
Fixpoint ends_with (host domain : string) : bool :=
  String.eqb host domain
  || match host with
     | String _ host' => ends_with host' domain
     | EmptyString => false
     end.





End Shapes.

(** ** JSON values

    The values the handlers and the page exchange. A property that is absent
    ([undefined]) is [None] where an [option json] is read. *)

Module Json.

#[local] Unset Elimination Schemes.
Inductive json : Type :=
| JNull : json
| JBool : bool -> json
| JNum : Q -> json
| JStr : string -> json
| JArr : list json -> json
| JObj : list (string * json) -> json.
#[local] Set Elimination Schemes.

(** JavaScript truthiness. *)
Definition truthy (j : json) : bool :=
  match j with
  | JNull => false
  | JBool b => b
  | JNum q => negb (Qeq_bool q 0)
  | JStr s => negb (String.eqb s "")
  | JArr _ | JObj _ => true
  end.

Definition truthy_opt (o : option json) : bool :=
  match o with Some j => truthy j | None => false end.

(** [o.name]: the last binding of [name], as [JSON.parse] keeps it. *)
Fixpoint assoc (name : string) (fields : list (string * json)) : option json :=
  match fields with
  | [] => None
  | (k, v) :: rest =>
      match assoc name rest with
      | Some v' => Some v'
      | None => if String.eqb k name then Some v else None
      end
  end.

Definition field (name : string) (j : json) : option json :=
  match j with JObj fields => assoc name fields | _ => None end.

(** [{...o, [name]: v}] *)
Fixpoint set_assoc (name : string) (v : json) (fields : list (string * json))
  : list (string * json) :=
  match fields with
  | [] => [(name, v)]
  | (k, v') :: rest =>
      if String.eqb k name then (k, v) :: rest else (k, v') :: set_assoc name v rest
  end.

Definition set_field (name : string) (v : json) (j : json) : json :=
  match j with JObj fields => JObj (set_assoc name v fields) | _ => JObj [(name, v)] end.

(** [typeof v === "string" ? v : undefined] and the like. *)
Definition as_string (o : option json) : option string :=
  match o with Some (JStr s) => Some s | _ => None end.
Definition as_array (o : option json) : option (list json) :=
  match o with Some (JArr l) => Some l | _ => None end.
Definition is_array (o : option json) : bool :=
  match o with Some (JArr _) => true | _ => false end.

(** [Array.isArray(v) ? v : []] *)
Definition array_or_empty (o : option json) : json :=
  match o with Some (JArr l) => JArr l | _ => JArr [] end.

(** [v ?? null], to store a possibly absent value. *)
Definition or_null (o : option json) : json :=
  match o with Some j => j | None => JNull end.

End Json.

(** ** The Bilibili analysis cache
    ([src/supabase/migrations/20241114000000_add_bilibili_support.sql]) *)

Module Cache.
Import Json.

Definition uuid := nat.
Definition timestamp := nat.

(** A row of [bilibili_video_analyses]. The columns declared [NOT NULL]
    (and the primary key) are not optional; [None] is SQL [NULL]. *)
Record row : Type := Row {
  id : uuid;
  bvid : option string;
  aid : option string;
  title : string;
  author : option string;
  duration : Z;
  thumbnail_url : option string;
  transcript : json;
  topics : option json;
  summary : option json;
  suggested_questions : option json;
  model_used : option string;
  created_at : timestamp;
  updated_at : timestamp
}.

Definition table := list row.

Definition is_null {A} (o : option A) : bool :=
  match o with None => true | Some _ => false end.

(** [CONSTRAINT bilibili_video_analyses_bvid_aid_check CHECK (...)], its
    three alternatives as written. *)
Definition bvid_aid_check (bvid aid : option string) : bool :=
  (negb (is_null bvid) && is_null aid)
  || (is_null bvid && negb (is_null aid))
  || (negb (is_null bvid) && negb (is_null aid)).

Inductive sql_error : Type :=
| RaiseException (message : string)
| NotNullViolation (column : string)
| CheckViolation (constraint : string)
| UniqueViolation (constraint : string).

(** The parameters of [upsert_bilibili_video_analysis]; each can be [NULL]. *)
Record upsert_params : Type := Params {
  p_bvid : option string;
  p_aid : option string;
  p_title : option string;
  p_author : option string;
  p_duration : option Z;
  p_thumbnail_url : option string;
  p_transcript : option json;
  p_topics : option json;
  p_summary : option json;
  p_suggested_questions : option json;
  p_model_used : option string
}.

(** The row proposed for insertion; [fresh] is the value of
    [uuid_generate_v4()] and [now] the transaction time. The [NOT NULL]
    and [CHECK] constraints are verified on it before any conflict is
    looked for. *)
Definition proposed (fresh : uuid) (now : timestamp) (p : upsert_params)
  : sql_error + row :=
  match p_title p, p_duration p, p_transcript p with
  | None, _, _ => inl (NotNullViolation "title")
  | _, None, _ => inl (NotNullViolation "duration")
  | _, _, None => inl (NotNullViolation "transcript")
  | Some t, Some d, Some tr =>
      if bvid_aid_check (p_bvid p) (p_aid p) then
        inr (Row fresh (p_bvid p) (p_aid p) t (p_author p) d (p_thumbnail_url p) tr
                 (p_topics p) (p_summary p) (p_suggested_questions p) (p_model_used p)
                 now now)
      else inl (CheckViolation "bilibili_video_analyses_bvid_aid_check")
  end.

(** [COALESCE(a, b)] *)
Definition coalesce {A} (a b : option A) : option A :=
  match a with Some _ => a | None => b end.

(** [bvid text UNIQUE]: two rows conflict when their [bvid]s are equal and
    not [NULL]. *)
Definition conflicts (b : option string) (r : row) : bool :=
  match b, bvid r with
  | Some x, Some y => String.eqb x y
  | _, _ => false
  end.

(** [DO UPDATE SET topics = COALESCE(EXCLUDED.topics, topics), ...,
    updated_at = now()] *)
Definition do_update (now : timestamp) (excluded old : row) : row :=
  Row (id old) (bvid old) (aid old) (title old) (author old) (duration old)
      (thumbnail_url old) (transcript old)
      (coalesce (topics excluded) (topics old))
      (coalesce (summary excluded) (summary old))
      (coalesce (suggested_questions excluded) (suggested_questions old))
      (model_used old) (created_at old) now.

(** [upsert_bilibili_video_analysis]: the table after the call and the
    returned id, or the error that aborts it. *)
Definition upsert_bilibili_video_analysis
           (fresh : uuid) (now : timestamp) (p : upsert_params) (t : table)
  : sql_error + (table * uuid) :=
  if is_null (p_bvid p) && is_null (p_aid p) then
    inl (RaiseException "Either bvid or aid must be provided")
  else
    match proposed fresh now p with
    | inl e => inl e
    | inr new =>
        match find (conflicts (bvid new)) t with
        | Some old =>
            inr (map (fun r => if conflicts (bvid new) r then do_update now new r else r) t,
                 id old)
        | None =>
            if existsb (fun r => id r =? fresh) t then
              inl (UniqueViolation "bilibili_video_analyses_pkey")
            else inr ((t ++ [new])%list, fresh)
        end
    end.

(** The row stored for a [bvid]. *)
Definition lookup_bvid (b : string) (t : table) : option row :=
  find (conflicts (Some b)) t.

(** The tables the function can produce, starting from the empty table. *)
Inductive reachable : table -> Prop :=
| reach_empty : reachable []
| reach_upsert fresh now p t t' i :
    reachable t ->
    upsert_bilibili_video_analysis fresh now p t = inr (t', i) ->
    reachable t'.

(** *** Statements on the table

    Rows reach the table without the function as well: the policies of the
    migration let an authenticated user [INSERT] and [UPDATE], and the
    service role do anything. Whatever the statement, the constraints of
    the table are checked on the rows it writes; a statement that fails
    changes nothing. *)

Definition check_violation : sql_error :=
  CheckViolation "bilibili_video_analyses_bvid_aid_check".

(** [INSERT INTO bilibili_video_analyses VALUES (r)]: the [CHECK]
    constraint is verified on the row, then the primary key and the unique
    [bvid]. *)
Definition insert_row (r : row) (t : table) : sql_error + table :=
  if negb (bvid_aid_check (bvid r) (aid r)) then inl check_violation
  else if existsb (fun r' => id r' =? id r) t then
    inl (UniqueViolation "bilibili_video_analyses_pkey")
  else if existsb (conflicts (bvid r)) t then
    inl (UniqueViolation "bilibili_video_analyses_bvid_key")
  else inr (t ++ [r])%list.

(** No two rows of [t] have the key [key]; a [NULL] key ([None]) is equal
    to none. *)
Fixpoint unique_key {K} (eqb : K -> K -> bool) (key : row -> option K) (t : table)
  : bool :=
  match t with
  | [] => true
  | r :: rest =>
      match key r with
      | Some k =>
          negb (existsb (fun r' => match key r' with
                                   | Some k' => eqb k k'
                                   | None => false
                                   end) rest)
      | None => true
      end && unique_key eqb key rest
  end.

(** [UPDATE bilibili_video_analyses SET ... WHERE ...]: the rows that
    [where_] selects are replaced by what [set] makes of them, with
    [updated_at] set by the trigger; the [CHECK] constraint is verified on
    every new row and the two keys on the new table. (PostgreSQL verifies
    the keys row by row and so refuses some statements that are accepted
    here; the tables it produces are among those produced here.) *)
Definition update_rows (where_ : row -> bool) (set : row -> row) (now : timestamp)
           (t : table) : sql_error + table :=
  let touch r :=
    Row (id r) (bvid r) (aid r) (title r) (author r) (duration r) (thumbnail_url r)
        (transcript r) (topics r) (summary r) (suggested_questions r) (model_used r)
        (created_at r) now in
  let t' := map (fun r => if where_ r then touch (set r) else r) t in
  if negb (forallb (fun r => bvid_aid_check (bvid r) (aid r)) t') then inl check_violation
  else if negb (unique_key Nat.eqb (fun r => Some (id r)) t') then
    inl (UniqueViolation "bilibili_video_analyses_pkey")
  else if negb (unique_key String.eqb bvid t') then
    inl (UniqueViolation "bilibili_video_analyses_bvid_key")
  else inr t'.

(** [DELETE FROM bilibili_video_analyses WHERE ...] *)
Definition delete_rows (where_ : row -> bool) (t : table) : table :=
  List.filter (fun r => negb (where_ r)) t.

(** The states of the table: what statements and calls of the function
    make of the empty table. *)
Inductive stored : table -> Prop :=
| stored_empty : stored []
| stored_upsert fresh now p t t' i :
    stored t ->
    upsert_bilibili_video_analysis fresh now p t = inr (t', i) ->
    stored t'
| stored_insert r t t' :
    stored t -> insert_row r t = inr t' -> stored t'
| stored_update where_ set now t t' :
    stored t -> update_rows where_ set now t = inr t' -> stored t'
| stored_delete where_ t :
    stored t -> stored (delete_rows where_ t).

(** The columns that a conflicting call leaves as they are stored. *)
Definition untouched (old new : row) : Prop :=
  id new = id old /\ bvid new = bvid old /\ aid new = aid old
  /\ title new = title old /\ author new = author old
  /\ duration new = duration old /\ thumbnail_url new = thumbnail_url old
  /\ transcript new = transcript old /\ model_used new = model_used old
  /\ created_at new = created_at old.


End Cache.

(** ** HTTP exchanges as the handlers and the page see them *)

Module Http.
Import Json.

(** A thrown or rejected value: [err.name], [err.message]. *)
Record js_error : Type := JsError { name : string; message : string }.

(** A response; [body] is [None] when [response.json()] throws. *)
Record response : Type := Response { status : nat; body : option json }.

(** [response.ok] *)
Definition ok (r : response) : bool := (200 <=? status r) && (status r <? 300).

(** How a [fetch] settles. *)
Inductive fetch_result : Type :=
| Rejected (e : js_error)
| Responded (r : response).

End Http.

(** ** The transcript endpoint ([/api/transcript]) and the Bilibili client *)

Module Transcript.
Import Json Urls.
Local Open Scope Q_scope.

(** An entry of [BilibiliSubtitleData.body]. *)
Record subtitle_entry : Type := SubtitleEntry {
  from : Q;
  to : Q;
  content : string;
  location : Q
}.

Record BilibiliSubtitle : Type := Subtitle {
  sub_id : Z;
  lan : string;
  lan_doc : string;
  subtitle_url : string
}.

(** A transcript segment [{ text, start, duration }]. *)
Record segment : Type := Segment {
  text : string;
  start : Q;
  duration : Q
}.

Definition convertSubtitlesToTranscript (body : list subtitle_entry) : list segment :=
  map (fun item =>
         let start := from item in
         let duration := to item - from item in
         Segment (content item) start duration)
      body.

Definition getPreferredSubtitle (subtitles : list BilibiliSubtitle)
  : option BilibiliSubtitle :=
  let chineseSubs :=
    List.filter (fun sub => String.eqb (lan sub) "zh-CN" || String.eqb (lan sub) "zh-Hans"
                            || Str.includes (lan_doc sub) "中文")
                subtitles in
  match chineseSubs with
  | c :: _ => Some c
  | [] => match subtitles with s :: _ => Some s | [] => None end
  end.

(** An element of [transcriptSegments] as the handler reads it: the
    properties [text], [content], [offset], [start] and [duration], each of
    which may be absent. *)
Record item : Type := Item {
  item_text : option string;
  item_content : option string;
  item_offset : option Q;
  item_start : option Q;
  item_duration : option Q
}.

(** The object [convertSubtitlesToTranscript] builds, read as an item. *)
Definition of_segment (s : segment) : item :=
  Item (Some (text s)) None None (Some (start s)) (Some (duration s)).

(** [a || b] on strings and [a || 0] on numbers. *)
Definition str_or (a : option string) (b : string) : string :=
  match a with
  | Some s => if String.eqb s "" then b else s
  | None => b
  end.
Definition num_or_zero (a : option Q) : Q :=
  match a with
  | Some q => if Qeq_bool q 0 then 0 else q
  | None => 0
  end.

(** The final mapping of the handler:
    [text: item.text || item.content || ''],
    [start: (item.offset !== undefined ? item.offset / 1000 : item.start) || 0],
    [duration: (item.duration !== undefined ? item.duration / 1000 : 0) || 0]. *)
Definition transform (it : item) : segment :=
  Segment (str_or (item_text it) (str_or (item_content it) ""))
          (num_or_zero (match item_offset it with
                        | Some offset => Some (offset / 1000)
                        | None => item_start it
                        end))
          (num_or_zero (match item_duration it with
                        | Some d => Some (d / 1000)
                        | None => Some 0
                        end)).

Inductive response : Type :=
| TranscriptOk (videoId : string) (transcript : list segment) (p : platform)
| ErrorResponse (status : nat) (error : string).

(** What the upstream services answer. [None] stands for a call that
    throws. [view_cids] lists the [cid]s of [pages] in the answer of
    [getBilibiliVideoInfo]; [youtube_branch] is the outcome of the YouTube
    branch of the handler, which either answers by itself or leaves
    Supadata's items in [transcriptSegments]. *)
Record upstream : Type := Upstream {
  view_cids : string -> option (list Z);
  player_subtitles : string -> Z -> option (list BilibiliSubtitle);
  subtitle_body : string -> option (list subtitle_entry);
  youtube_branch : string -> response + list item
}.

Definition bilibili_branch (up : upstream) (videoId : string) : response + list item :=
  match view_cids up videoId with
  | None => inl (ErrorResponse 500 "无法获取Bilibili视频字幕")
  | Some pages =>
      match pages with
      | [] => inl (ErrorResponse 404 "无法获取视频信息")
      | cid :: _ =>
          if (cid =? 0)%Z then inl (ErrorResponse 404 "无法获取视频信息")
          else
            match player_subtitles up videoId cid with
            | None => inl (ErrorResponse 500 "无法获取Bilibili视频字幕")
            | Some subtitles =>
                match getPreferredSubtitle subtitles with
                | None => inl (ErrorResponse 404 "该视频没有可用的字幕")
                | Some preferredSubtitle =>
                    match subtitle_body up (subtitle_url preferredSubtitle) with
                    | None => inl (ErrorResponse 500 "无法获取Bilibili视频字幕")
                    | Some subtitleContent =>
                        inr (map of_segment (convertSubtitlesToTranscript subtitleContent))
                    end
                end
            end
      end
  end.

Definition handler (up : upstream) (url : string) : response :=
  if String.eqb url "" then ErrorResponse 400 "视频URL是必需的"
  else
    match detectPlatform url with
    | None => ErrorResponse 400 "不支持的视频平台。请提供YouTube或Bilibili链接。"
    | Some p =>
        match extractVideoId url with
        | None =>
            ErrorResponse 400
              (match p with
               | youtube => "无效的YouTube URL"
               | bilibili => "无效的Bilibili URL"
               end)
        | Some videoId =>
            let transcriptSegments :=
              match p with
              | bilibili => bilibili_branch up videoId
              | youtube => youtube_branch up videoId
              end in
            match transcriptSegments with
            | inl r => r
            | inr [] => ErrorResponse 404 "No transcript available for this video"
            | inr items => TranscriptOk videoId (map transform items) p
            end
        end
    end.

(** Upstream answers for one video: one page, one Chinese subtitle track,
    one entry from second 1 to second 3. *)
Definition one_entry_upstream : upstream :=
  Upstream (fun _ => Some [1176840%Z])
           (fun _ _ => Some [Subtitle 1 "zh-CN" "中文（中国）" "//i0.hdslb.com/bfs/subtitle/1.json"])
           (fun _ => Some [SubtitleEntry 1 3 "hello" 2])
           (fun _ => inl (ErrorResponse 500 "API配置错误")).

End Transcript.

(** ** The cache-check endpoint ([/api/check-video-cache]) *)

Module CheckCache.
Import Json Urls.

(** The columns of a stored analysis that the handler reads. *)
Record cached_video : Type := CachedVideo {
  cv_id : Cache.uuid;
  cv_title : string;
  cv_author : option string;
  cv_duration : Z;
  cv_thumbnail_url : option string;
  cv_transcript : json;
  cv_topics : option json;
  cv_summary : option json;
  cv_suggested_questions : option json;
  cv_created_at : Cache.timestamp
}.

Definition of_bilibili (r : Cache.row) : cached_video :=
  CachedVideo (Cache.id r) (Cache.title r) (Cache.author r) (Cache.duration r)
              (Cache.thumbnail_url r) (Cache.transcript r) (Cache.topics r)
              (Cache.summary r) (Cache.suggested_questions r) (Cache.created_at r).

(** Modelled from the spec: the table [video_analyses], whose migration is
    not among the sources: the same columns, keyed by [youtube_id]. *)
Record video_analysis : Type := VideoAnalysis {
  youtube_id : string;
  columns : cached_video
}.

Record database : Type := Database {
  video_analyses : list video_analysis;
  bilibili_video_analyses : Cache.table;
  (** [user_videos], unique on [(user_id, video_id)]: its [accessed_at]. *)
  user_videos : gmap (string * Cache.uuid) Cache.timestamp
}.

(** [.single()]: the row when the query returns exactly one, else no
    data. *)
Definition single {A} (rows : list A) : option A :=
  match rows with
  | [r] => Some r
  | _ => None
  end.

Definition eq_opt (o : option string) (v : string) : bool :=
  match o with Some x => String.eqb x v | None => false end.

(** [.from('video_analyses').select('*').eq('youtube_id', videoId)] *)
Definition select_youtube (db : database) (videoId : string) : list cached_video :=
  map columns (List.filter (fun r => String.eqb (youtube_id r) videoId) (video_analyses db)).

(** [.from('bilibili_video_analyses').select('*').or(`bvid.eq.${videoId},aid.eq.${videoId}`)] *)
Definition select_bilibili (db : database) (videoId : string) : list cached_video :=
  map of_bilibili
      (List.filter (fun r => eq_opt (Cache.bvid r) videoId || eq_opt (Cache.aid r) videoId)
                   (bilibili_video_analyses db)).

(** The rows the query of the handler returns for a platform. *)
Definition select (p : platform) (db : database) (videoId : string) : list cached_video :=
  match p with
  | youtube => select_youtube db videoId
  | bilibili => select_bilibili db videoId
  end.

(** What the handler calls while it runs. *)
Inductive call : Type :=
| AuthGetUser
| DbSelect (table : string)
| DbUpsert (table : string)
| ProviderRequest (url : string).

Definition is_provider_request (c : call) : bool :=
  match c with ProviderRequest _ => true | _ => false end.

Record video_info : Type := VideoInfo {
  vi_title : string;
  vi_author : option string;
  vi_duration : Z;
  vi_thumbnail : option string
}.

Inductive response : Type :=
| Cached (videoId : string) (p : platform) (topics : option json) (transcript : json)
         (videoInfo : video_info) (summary suggestedQuestions : option json)
         (cacheDate : Cache.timestamp)
| NotCached (videoId : string) (p : platform)
| ErrorResponse (status : nat) (error : string).

(** The answer of the outer [catch]. *)
Definition server_error : response := ErrorResponse 500 "检查视频缓存失败".

(** [url.includes(name)] for a [url] that is an array: one of its elements
    is the string [name]. *)
Definition array_includes (elements : list json) (name : string) : bool :=
  existsb (fun j => match j with JStr s => String.eqb s name | _ => false end) elements.

(** The body the page sends for [url]. *)
Definition request_for (url : string) : option json :=
  Some (JObj [("url", JStr url)]).

(** [url] as the handler reads it from the body of the request: [None] is
    [undefined]. *)
Definition requested_url (body : option json) : option json :=
  match body with Some data => field "url" data | None => None end.

(** [detectPlatform(url)] is not [null] for a [url] that is an array. *)
Definition names_platform (elements : list json) : bool :=
  array_includes elements "youtube.com" || array_includes elements "youtu.be"
  || array_includes elements "bilibili.com" || array_includes elements "b23.tv".

(** The handler: [body] is the body of the request as [req.json()] reads
    it ([None] when it is not JSON), [user] is what
    [supabase.auth.getUser()] reports and [now] the time of the request.
    Whatever is thrown inside is answered with 500 by the outer [catch]:
    [req.json()] on a body that is not JSON, the destructuring of [null],
    [url.includes] on a value that has no such method, and [url.match] on
    an array. The calls of the Supabase client report their errors in
    their result and do not throw. *)
Definition handler (db : database) (user : option string) (now : Cache.timestamp)
           (body : option json) : response * database * list call :=
  match body with
  | None | Some JNull => (server_error, db, [])
  | Some data =>
      match field "url" data with
      | None => (ErrorResponse 400 "URL是必需的", db, [])
      | Some url =>
      if negb (truthy url) then (ErrorResponse 400 "URL是必需的", db, [])
      else
        match url with
        | JStr url =>
    match detectPlatform url with
    | None => (ErrorResponse 400 "不支持的视频平台。请提供YouTube或Bilibili链接。", db, [])
    | Some p =>
        match extractVideoId url with
        | None =>
            (ErrorResponse 400
               (match p with
                | youtube => "无效的YouTube URL"
                | bilibili => "无效的Bilibili URL"
                end), db, [])
        | Some videoId =>
            let '(cachedVideo, videoTable) :=
              match p with
              | youtube => (single (select_youtube db videoId), "video_analyses")
              | bilibili => (single (select_bilibili db videoId), "bilibili_video_analyses")
              end in
            let calls := [AuthGetUser; DbSelect videoTable] in
            match cachedVideo with
            | Some v =>
                if truthy_opt (cv_topics v) then
                  let '(db', calls') :=
                    match user with
                    | Some user_id =>
                        (Database (video_analyses db) (bilibili_video_analyses db)
                                  (<[(user_id, cv_id v) := now]> (user_videos db)),
                         (calls ++ [DbUpsert "user_videos"])%list)
                    | None => (db, calls)
                    end in
                  (Cached videoId p (cv_topics v) (cv_transcript v)
                          (VideoInfo (cv_title v) (cv_author v) (cv_duration v)
                                     (cv_thumbnail_url v))
                          (cv_summary v) (cv_suggested_questions v) (cv_created_at v),
                   db', calls')
                else (NotCached videoId p, db, calls)
            | None => (NotCached videoId p, db, calls)
            end
        end
    end
        | JArr elements =>
            (* detectPlatform(url) runs on the array; extractVideoId(url)
               then throws, as an array has no [match] *)
            if names_platform elements then (server_error, db, [])
            else (ErrorResponse 400 "不支持的视频平台。请提供YouTube或Bilibili链接。", db, [])
        | _ => (server_error, db, [])
        end
      end
  end.

End CheckCache.

(** ** The video-info endpoint ([src/app/api/video-info/route.ts]) *)

Module VideoInfoRoute.
Import Json Http Urls.

(** The fields of [BilibiliVideoInfo] that [convertBilibiliToVideoInfo]
    reads. *)
Record BilibiliVideoInfo : Type := BilibiliInfo {
  b_title : string;
  b_desc : string;
  b_pic : string;
  b_duration : Q;
  owner_name : string
}.

(** [None] from [bilibili_view] is [getBilibiliVideoInfo] throwing;
    [api_key] tells whether [SUPADATA_API_KEY] is set. *)
Record upstream : Type := Upstream {
  bilibili_view : string -> option BilibiliVideoInfo;
  api_key : bool;
  supadata_video : string -> fetch_result;
  oembed : string -> fetch_result
}.

(** [a || b] *)
Definition js_or (a : option json) (b : json) : json :=
  match a with
  | Some j => if truthy j then j else b
  | None => b
  end.

(** [a || undefined]: the property is left out when [a] is falsy. *)
Definition optional (name : string) (a : option json) : list (string * json) :=
  match a with
  | Some j => if truthy j then [(name, j)] else []
  | None => []
  end.

Definition thumbnail_of (videoId : string) : string :=
  "https://img.youtube.com/vi/" ++ videoId ++ "/maxresdefault.jpg".

Definition convertBilibiliToVideoInfo (bilibiliData : BilibiliVideoInfo)
           (videoId : string) : list (string * json) :=
  [("videoId", JStr videoId); ("title", JStr (b_title bilibiliData));
   ("author", JStr (owner_name bilibiliData)); ("thumbnail", JStr (b_pic bilibiliData));
   ("duration", JNum (b_duration bilibiliData));
   ("description", JStr (b_desc bilibiliData)); ("tags", JArr [])].

(** The minimal information returned when the provider fails. *)
Definition bilibili_placeholder (videoId : string) : json :=
  JObj [("videoId", JStr videoId); ("title", JStr "Bilibili视频"); ("author", JStr "未知");
        ("thumbnail", JStr ""); ("duration", JNull); ("platform", JStr "bilibili")].

Definition youtube_placeholder (videoId : string) : json :=
  JObj [("videoId", JStr videoId); ("title", JStr "YouTube Video");
        ("author", JStr "Unknown"); ("thumbnail", JStr (thumbnail_of videoId));
        ("duration", JNull); ("platform", JStr "youtube")].

Definition json_response (j : json) : response := Response 200 (Some j).
Definition error_response (st : nat) (msg : string) : response :=
  Response st (Some (JObj [("error", JStr msg)])).

(** Reading a property of [j] throws: [j] is [null]. *)
Definition throws_on_read (j : json) : bool :=
  match j with JNull => true | _ => false end.

(** The Supadata attempt: [Some] when it answers the request, [None] when
    the handler falls through to oEmbed: without a key, on a request that
    fails or is answered with an error status, and on whatever is thrown
    inside the [try] (a body that is not JSON, or that is [null]). *)
Definition supadata_attempt (up : upstream) (videoId : string) : option response :=
  if api_key up then
    match supadata_video up videoId with
    | Rejected _ => None
    | Responded r =>
        if ok r then
          match body r with
          | None => None
          | Some supadataData =>
              if throws_on_read supadataData then None   (* [supadataData.title] *)
              else
              Some (json_response
                (JObj ([("videoId", JStr videoId);
                        ("title", js_or (field "title" supadataData) (JStr "YouTube Video"));
                        ("author",
                         js_or (match field "channel" supadataData with
                                | Some ch => field "name" ch
                                | None => None
                                end)
                               (js_or (field "author" supadataData) (JStr "Unknown")));
                        ("thumbnail", js_or (field "thumbnail" supadataData)
                                            (JStr (thumbnail_of videoId)));
                        ("duration", js_or (field "duration" supadataData) JNull)]
                       ++ optional "description" (field "description" supadataData)
                       ++ optional "tags"
                            (Some (js_or (field "tags" supadataData)
                                         (or_null (field "keywords" supadataData))))
                       ++ [("platform", JStr "youtube")])%list))
          end
        else None
    end
  else None.

Definition oembed_fallback (up : upstream) (videoId : string) : response :=
  match oembed up videoId with
  | Rejected _ => json_response (youtube_placeholder videoId)
  | Responded r =>
      if negb (ok r) then json_response (youtube_placeholder videoId)
      else
        match body r with
        | None => json_response (youtube_placeholder videoId)
        | Some data =>
            if throws_on_read data then             (* [data.title] *)
              json_response (youtube_placeholder videoId)
            else
            json_response
              (JObj [("videoId", JStr videoId);
                     ("title", js_or (field "title" data) (JStr "YouTube Video"));
                     ("author", js_or (field "author_name" data) (JStr "Unknown"));
                     ("thumbnail", js_or (field "thumbnail_url" data)
                                         (JStr (thumbnail_of videoId)));
                     ("duration", JNull); ("platform", JStr "youtube")])
        end
  end.

Definition handler (up : upstream) (url : string) : response :=
  if String.eqb url "" then error_response 400 "视频URL是必需的"
  else
    match detectPlatform url with
    | None => error_response 400 "不支持的视频平台。请提供YouTube或Bilibili链接。"
    | Some p =>
        match extractVideoId url with
        | None =>
            error_response 400
              (match p with
               | youtube => "无效的YouTube URL"
               | bilibili => "无效的Bilibili URL"
               end)
        | Some videoId =>
            match p with
            | bilibili =>
                match bilibili_view up videoId with
                | Some bilibiliData =>
                    json_response
                      (JObj (convertBilibiliToVideoInfo bilibiliData videoId
                             ++ [("platform", JStr "bilibili")])%list)
                | None => json_response (bilibili_placeholder videoId)
                end
            | youtube =>
                match supadata_attempt up videoId with
                | Some r => r
                | None => oembed_fallback up videoId
                end
            end
        end
    end.

(** Every provider the route asks fails. *)
Definition provider_failed (up : upstream) (p : platform)
           (videoId : string) : bool :=
  match p with
  | bilibili =>
      match bilibili_view up videoId with
      | Some _ => false
      | None => true
      end
  | youtube =>
      match supadata_attempt up videoId with
      | Some _ => false
      | None =>
          match oembed up videoId with
          | Rejected _ => true
          | Responded r =>
              negb (ok r)
              || match body r with
                 | None => true
                 | Some data => throws_on_read data
                 end
          end
      end
  end.

Definition placeholder (p : platform) (videoId : string) : json :=
  match p with
  | bilibili => bilibili_placeholder videoId
  | youtube => youtube_placeholder videoId
  end.

End VideoInfoRoute.

(** ** The analyze page ([src/app/analyze/[videoId]/page.tsx])

    The component state ([useState]) is a map from the name of each state
    variable to its current value; refs, [sessionStorage] and the requests
    and other effects the page issues are explicit. An asynchronous function
    is a state transformer that reads how each awaited request settles from
    an environment. *)

Module Page.
Import Json Http Urls.

Definition GUEST_LIMIT_MESSAGE : string := "您已用完今日免费分析次数。请登录以继续使用。".
Definition AUTH_LIMIT_MESSAGE : string := "您每天可以分析5个视频。请明天再来。".
Definition DEFAULT_CLIENT_ERROR : string := "出现错误，请重试。".

Definition normalizeErrorMessage (message : option string) (fallback : string) : string :=
  let trimmed := match message with Some m => Str.trim m | None => "" end in
  let baseMessage := if 0 <? String.length trimmed then trimmed else fallback in
  let normalizedSource := Str.lower (trimmed ++ " " ++ baseMessage) in
  if Str.includes normalizedSource "user aborted request"
     || Str.includes normalizedSource "unsupported transcript language"
  then "目前仅支持带有中文字幕的视频。请选择启用了中文字幕的视频。"
  else baseMessage.

(** [typeof v === "string" && v.trim().length > 0 ? v.trim() : ""] *)
Definition trimmed_text (o : option json) : string :=
  match as_string o with Some v => Str.trim v | None => "" end.

Definition buildApiErrorMessage (errorData : json) (fallback : string) : string :=
  match errorData with
  | JObj _ | JArr _ =>
      let errorText := trimmed_text (field "error" errorData) in
      let detailsText := trimmed_text (field "details" errorData) in
      if negb (String.eqb errorText "") && negb (String.eqb detailsText "") then
        normalizeErrorMessage (Some (errorText ++ ": " ++ detailsText)) fallback
      else if negb (String.eqb detailsText "") then
        normalizeErrorMessage (Some detailsText) fallback
      else if negb (String.eqb errorText "") then
        normalizeErrorMessage (Some errorText) fallback
      else normalizeErrorMessage None fallback
  | _ => normalizeErrorMessage None fallback
  end.

(** [await response.json().catch(() => ({ error: "Unknown error" }))] *)
Definition error_data (r : response) : json :=
  match body r with
  | Some j => j
  | None => JObj [("error", JStr "Unknown error")]
  end.

(** The error [response.json()] throws on a body that is not JSON. *)
Definition json_failure : js_error := JsError "SyntaxError" "Unexpected end of JSON input".

(** What the page does to the outside. *)
Inductive event : Type :=
| Fetch (endpoint : string) (payload : json)      (* a request is sent *)
| Background (operation endpoint : string) (payload : json)
                                                  (* backgroundOperation(...) *)
| CreateController (key : string) (timeout : option Z)
| Abort (key : string)                            (* controller.abort() *)
| Cleanup (key : option string)                   (* abortManager.cleanup(key) *)
| RouterPush (path : string)
| ToastError (text : string).

Definition is_fetch_to (endpoint : string) (e : event) : bool :=
  match e with
  | Fetch ep _ => String.eqb ep endpoint
  | _ => false
  end.

Record world : Type := World {
  view : gmap string json;                 (* the useState variables *)
  hasRedirectedForLimit : bool;
  selectedThemeRef : option string;
  nextThemeRequestIdRef : nat;
  activeThemeRequestIdRef : option nat;
  pendingThemeRequestsRef : gmap string nat;
  sessionStorage : gmap string string;
  trace : list event                       (* oldest first *)
}.

Definition with_view (f : gmap string json -> gmap string json) (w : world) : world :=
  World (f (view w)) (hasRedirectedForLimit w) (selectedThemeRef w)
        (nextThemeRequestIdRef w) (activeThemeRequestIdRef w)
        (pendingThemeRequestsRef w) (sessionStorage w) (trace w).
Definition with_redirected (b : bool) (w : world) : world :=
  World (view w) b (selectedThemeRef w) (nextThemeRequestIdRef w)
        (activeThemeRequestIdRef w) (pendingThemeRequestsRef w) (sessionStorage w)
        (trace w).
Definition with_selectedThemeRef (t : option string) (w : world) : world :=
  World (view w) (hasRedirectedForLimit w) t (nextThemeRequestIdRef w)
        (activeThemeRequestIdRef w) (pendingThemeRequestsRef w) (sessionStorage w)
        (trace w).
Definition with_nextThemeRequestId (n : nat) (w : world) : world :=
  World (view w) (hasRedirectedForLimit w) (selectedThemeRef w) n
        (activeThemeRequestIdRef w) (pendingThemeRequestsRef w) (sessionStorage w)
        (trace w).
Definition with_activeThemeRequestId (a : option nat) (w : world) : world :=
  World (view w) (hasRedirectedForLimit w) (selectedThemeRef w)
        (nextThemeRequestIdRef w) a (pendingThemeRequestsRef w) (sessionStorage w)
        (trace w).
Definition with_pending (f : gmap string nat -> gmap string nat) (w : world) : world :=
  World (view w) (hasRedirectedForLimit w) (selectedThemeRef w)
        (nextThemeRequestIdRef w) (activeThemeRequestIdRef w)
        (f (pendingThemeRequestsRef w)) (sessionStorage w) (trace w).
Definition with_storage (f : gmap string string -> gmap string string) (w : world)
  : world :=
  World (view w) (hasRedirectedForLimit w) (selectedThemeRef w)
        (nextThemeRequestIdRef w) (activeThemeRequestIdRef w)
        (pendingThemeRequestsRef w) (f (sessionStorage w)) (trace w).
Definition with_event (e : event) (w : world) : world :=
  World (view w) (hasRedirectedForLimit w) (selectedThemeRef w)
        (nextThemeRequestIdRef w) (activeThemeRequestIdRef w)
        (pendingThemeRequestsRef w) (sessionStorage w) (trace w ++ [e])%list.

(** *** The monad of the page code: state, exceptions and early return *)

Inductive outcome (A : Type) : Type :=
| Val (a : A)
| Throw (e : js_error)
| Return.                                  (* [return;] out of the function *)
Arguments Val {A} a.
Arguments Throw {A} e.
Arguments Return {A}.

Definition M (A : Type) : Type := world -> outcome A * world.

Definition ret {A} (a : A) : M A := fun w => (Val a, w).
Definition bind {A B} (c : M A) (k : A -> M B) : M B :=
  fun w =>
    match c w with
    | (Val a, w') => k a w'
    | (Throw e, w') => (Throw e, w')
    | (Return, w') => (Return, w')
    end.
Definition throw {A} (e : js_error) : M A := fun w => (Throw e, w).
Definition throw_error {A} (msg : string) : M A := throw (JsError "Error" msg).
Definition early_return {A} : M A := fun w => (Return, w).
Definition get : M world := fun w => (Val w, w).
Definition modify (f : world -> world) : M unit := fun w => (Val tt, f w).

Declare Scope page_scope.
Delimit Scope page_scope with page.
Notation "'let*' x ':=' c 'in' k" := (bind c (fun x => k))
  (at level 10, x name, c at level 100, k at level 200) : page_scope.
Notation "c ';;' k" := (bind c (fun _ => k))
  (at level 100, k at level 200, right associativity) : page_scope.
Local Open Scope page_scope.

Definition emit (e : event) : M unit := modify (with_event e).
(** [setX(v)] *)
Definition setState (x : string) (v : json) : M unit :=
  modify (with_view (fun m => <[x := v]> m)).
(** [try { sessionStorage.setItem(k, v) } catch { ... }] *)
Definition setItem (k v : string) : M unit :=
  modify (with_storage (fun m => <[k := v]> m)).
Definition when (b : bool) (c : M unit) : M unit := if b then c else ret tt.

(** [o.x]: reading a property of [null] throws. *)
Definition prop (x : string) (o : json) : M (option json) :=
  match o with
  | JNull => throw (JsError "TypeError" "Cannot read properties of null")
  | _ => ret (field x o)
  end.

Definition jstr (o : option string) : json :=
  match o with Some s => JStr s | None => JNull end.

(** *** What a render closes over *)

(** The values of the render in which a callback was created: [user] (its
    id when signed in), the [videoId] state, the route parameter,
    [authLimitReached] and [rateLimitInfo.remaining] ([None] for [null]). *)
Record closure : Type := Closure {
  user : option string;
  videoId : option string;
  routeVideoId : option string;
  authLimitReached : bool;
  remaining : option Q
}.

Definition nonempty (s : string) : bool := negb (String.eqb s "").

Definition storeCurrentVideoForAuth (c : closure) (id : option string) : M unit :=
  let targetVideoId := match id with Some i => Some i | None => videoId c end in
  match targetVideoId, user c with
  | Some t, None => when (nonempty t) (setItem "pendingVideoId" t)
  | _, _ => ret tt
  end.

Definition redirectToAuthForLimit (c : closure) (message pendingVideoId : option string)
  : M unit :=
  let* w := get in
  if hasRedirectedForLimit w then ret tt
  else
    modify (with_redirected true) ;;
    let trimmedMessage :=
      match message with
      | Some m => if 0 <? String.length (Str.trim m) then Str.trim m
                  else GUEST_LIMIT_MESSAGE
      | None => GUEST_LIMIT_MESSAGE
      end in
    let targetVideoId :=
      match pendingVideoId with
      | Some v => Some v
      | None => match videoId c with Some v => Some v | None => routeVideoId c end
      end in
    match targetVideoId with
    | Some t => when (nonempty t) (storeCurrentVideoForAuth c (Some t))
    | None => ret tt
    end ;;
    when (nonempty trimmedMessage) (setItem "limitRedirectMessage" trimmedMessage) ;;
    emit (RouterPush "/?auth=limit").

(** [remainingOverride] is [None] when the argument is left out,
    [Some None] for [null]. *)
Definition checkGenerationLimit (c : closure) (pendingVideoId : option string)
           (remainingOverride : option (option Q)) : M bool :=
  match user c with
  | Some _ =>
      if authLimitReached c then
        setState "isRateLimitError" (JBool true) ;;
        setState "error" (JStr AUTH_LIMIT_MESSAGE) ;;
        emit (ToastError AUTH_LIMIT_MESSAGE) ;;
        ret false
      else ret true
  | None =>
      let effectiveRemaining :=
        match remainingOverride with
        | Some r => r
        | None => remaining c
        end in
      match effectiveRemaining with
      | Some n =>
          if negb (Qeq_bool n (-1)) && Qle_bool n 0 then
            redirectToAuthForLimit c None pendingVideoId ;;
            ret false
          else ret true
      | None => ret true
      end
  end.

(** [checkRateLimit]: the request to [/api/check-limit] settles as [f];
    the result is the data it returns ([None] for [null]). *)
Definition checkRateLimit (f : fetch_result) : M (option json) :=
  emit (Fetch "/api/check-limit" JNull) ;;
  match f with
  | Responded (Response _ (Some data)) =>
      setState "authLimitReached"
               (JBool (truthy_opt (field "isAuthenticated" data)
                       && match field "canGenerate" data with
                          | Some (JBool false) => true
                          | _ => false
                          end)) ;;
      match field "remaining" data with
      | Some r =>
          setState "rateLimitInfo"
                   (JObj [("remaining",
                           match r with
                           | JNum n => JNum n
                           | JNull => JNull
                           | _ => JNum (-1)
                           end);
                          ("resetAt",
                           match field "resetAt" data with
                           | Some d => if truthy d then d else JNull
                           | None => JNull
                           end)])
      | None => ret tt
      end ;;
      ret (Some data)
  | _ =>
      setState "authLimitReached" (JBool false) ;;
      ret None
  end.

(** The limit lets a run with closure [c] through: a signed-in user who has
    not reached the daily limit, or a guest whose remaining count, as the
    server reports it (or as the closure holds it when the report brings
    none), is [null], [-1] or positive. *)
Definition limit_allows (c : closure) (limit : fetch_result) : bool :=
  match user c with
  | Some _ => negb (authLimitReached c)
  | None =>
      let reported :=
        match limit with
        | Responded (Response _ (Some data)) =>
            match field "remaining" data with
            | Some (JNum n) => Some n
            | Some JNull => None
            | _ => remaining c
            end
        | _ => remaining c
        end in
      match reported with
      | Some n => negb (negb (Qeq_bool n (-1)) && Qle_bool n 0)
      | None => true
      end
  end.

(** The events of the limit check of a run that passes it. *)
Definition gate_events (c : closure) : list event :=
  match user c with
  | Some _ => []
  | None => [Fetch "/api/check-limit" JNull]
  end.


(** *** [processVideo] *)

(** How the requests of one run settle; [takeaways_fetch] is how the
    summary request settles when it is left alone, at whatever time that
    is. [now] is [Date.now()]. *)
Record env : Type := Env {
  cache_fetch : fetch_result;
  limit_fetch : fetch_result;
  transcript_fetch : fetch_result;
  videoInfo_fetch : fetch_result;
  topics_fetch : fetch_result;
  takeaways_fetch : fetch_result;
  now : Q
}.

Definition is_abort (e : js_error) : bool := String.eqb (name e) "AbortError".

(** The cache answered, and not with a cached analysis: the miss path. *)
Definition cache_miss (f : fetch_result) : bool :=
  match f with
  | Rejected _ => false
  | Responded r =>
      if ok r then
        match body r with
        | Some JNull | None => false
        | Some cacheData => negb (truthy_opt (field "cached" cacheData))
        end
      else true
  end.

(** The metadata request brought nothing the page keeps: it was rejected or
    timed out, or answered with an error status, an unreadable body or an
    [error] property. *)
Definition metadata_failed (f : fetch_result) : bool :=
  match f with
  | Rejected _ => true
  | Responded r =>
      negb (ok r)
      || match body r with
         | None => true
         | Some videoInfoData =>
             negb (truthy videoInfoData) || truthy_opt (field "error" videoInfoData)
         end
  end.

(** The transcript request brought nothing: it was rejected (a network
    error or the timeout) or answered with an error status. *)
Definition transcript_failed (f : fetch_result) : bool :=
  match f with
  | Rejected _ => true
  | Responded r => negb (ok r)
  end.

(** The summary request settles in a way the page can read: it is rejected,
    or answers an error status, or answers a JSON object. *)
Definition summary_readable (f : fetch_result) : bool :=
  match f with
  | Rejected _ => true
  | Responded r =>
      if ok r then
        match body r with
        | Some JNull | None => false
        | Some _ => true
        end
      else true
  end.

(** The error the topics request is rejected with, as its [catch] rewrites
    it. *)
Definition topics_rejection (err : js_error) : string :=
  if is_abort err then "主题生成被取消或中断，请重试。"
  else "网络错误：无法生成主题。请检查您的连接。".

Definition platform_name (p : platform) : string :=
  match p with youtube => "youtube" | bilibili => "bilibili" end.

Definition first_or_null (topics : json) : json :=
  match topics with JArr (t :: _) => t | _ => JNull end.

Section Helpers.
(** The helpers the page imports from modules that are not among the
    sources: [normalizeTranscript], [hydrateTopicsWithTranscript]
    ([@/lib/topic-utils]), [normalizeWhitespace] ([@/lib/quote-matcher]),
    and [Number] applied to a string. *)
Variable normalizeTranscript : option json -> json.
Variable hydrateTopicsWithTranscript : json -> json -> json.
Variable normalizeWhitespace : string -> string.
Variable Number : string -> Q.

(** [`${topic.quote.timestamp}|${normalizeWhitespace(topic.quote.text)}`],
    when both parts are present. *)
Definition topic_key (topic : json) : option string :=
  match field "quote" topic with
  | Some quote =>
      match as_string (field "timestamp" quote), as_string (field "text" quote) with
      | Some timestamp, Some text =>
          if nonempty timestamp && nonempty text
          then Some (timestamp ++ "|" ++ normalizeWhitespace text)
          else None
      | _, _ => None
      end
  | None => None
  end.

(** [set.add(key)] on a [Set] kept in insertion order. *)
Definition set_add (key : string) (keys : list string) : list string :=
  if existsb (String.eqb key) keys then keys else (keys ++ [key])%list.

Definition keys_of (topics : json) (init : list string) : list string :=
  match topics with
  | JArr l =>
      fold_left (fun acc topic =>
                   match topic_key topic with
                   | Some key => set_add key acc
                   | None => acc
                   end) l init
  | _ => init
  end.

Definition jset (keys : list string) : json := JArr (map JStr keys).

(** The [duration] handling shared by the hit and the miss path. *)
Definition setVideoDurationFrom (info : json) : M unit :=
  let numericDuration :=
    match field "duration" info with
    | Some (JNum n) => Some n
    | Some (JStr s) => Some (Number s)
    | _ => None
    end in
  match numericDuration with
  | Some n => when (negb (Qeq_bool n 0) && Qle_bool 0 n) (setState "videoDuration" (JNum n))
  | None => ret tt
  end.

(** The cache hit: lines 484 to 636. *)
Definition load_cached (c : closure) (extractedVideoId selectedMode : string)
           (cacheData : json) : M unit :=
  setState "pageState" (JStr "LOADING_CACHED") ;;
  let sanitizedTranscript := normalizeTranscript (field "transcript" cacheData) in
  let hydratedTopics :=
    hydrateTopicsWithTranscript (array_or_empty (field "topics" cacheData))
                                sanitizedTranscript in
  setState "transcript" sanitizedTranscript ;;
  match field "videoInfo" cacheData with
  | Some cachedVideoInfo =>
      if truthy cachedVideoInfo then
        setState "videoInfo" cachedVideoInfo ;; setVideoDurationFrom cachedVideoInfo
      else setState "videoInfo" JNull
  | None => setState "videoInfo" JNull
  end ;;
  setState "topics" hydratedTopics ;;
  setState "baseTopics" hydratedTopics ;;
  setState "usedTopicKeys" (jset (keys_of hydratedTopics [])) ;;
  setState "selectedTopic" (first_or_null hydratedTopics) ;;
  match field "summary" cacheData with
  | Some summary =>
      when (truthy summary)
           (setState "takeawaysContent" summary ;;
            setState "showChatTab" (JBool true) ;;
            setState "isGeneratingTakeaways" (JBool false))
  | None => ret tt
  end ;;
  match field "suggestedQuestions" cacheData with
  | Some q => when (truthy q) (setState "cachedSuggestedQuestions" q)
  | None => ret tt
  end ;;
  storeCurrentVideoForAuth c (Some extractedVideoId) ;;
  setState "pageState" (JStr "IDLE") ;;
  setState "loadingStage" JNull ;;
  setState "processingStartTime" JNull ;;
  emit (Background "load-cached-themes" "/api/video-analysis"
          (JObj [("videoId", JStr extractedVideoId);
                 ("videoInfo", or_null (field "videoInfo" cacheData));
                 ("transcript", sanitizedTranscript);
                 ("model", JStr "gemini-2.5-flash");
                 ("includeCandidatePool", JBool true);
                 ("mode", JStr selectedMode)])) ;;
  when (negb (truthy_opt (field "summary" cacheData)))
       (setState "showChatTab" (JBool true) ;;
        setState "isGeneratingTakeaways" (JBool true) ;;
        emit (Background "generate-cached-takeaways" "/api/generate-summary"
                (JObj [("transcript", sanitizedTranscript);
                       ("videoInfo", or_null (field "videoInfo" cacheData));
                       ("videoId", JStr extractedVideoId)]))).

(** The placeholder saved when no metadata could be fetched. *)
Definition placeholder_info (extractedVideoId : string) : json :=
  JObj [("title", JStr ("YouTube Video " ++ extractedVideoId));
        ("author", JStr "Unknown"); ("duration", JNum 0); ("thumbnail", JStr "")].

(** [{ ...candidate, key: ... }] for each candidate; a candidate without
    its quote makes the mapping throw. *)
Fixpoint with_keys (candidates : list json) : option (list json) :=
  match candidates with
  | [] => Some []
  | candidate :: rest =>
      match field "quote" candidate, with_keys rest with
      | Some quote, Some rest' =>
          match as_string (field "timestamp" quote), as_string (field "text" quote) with
          | Some timestamp, Some text =>
              Some (set_field "key"
                      (JStr (timestamp ++ "|" ++ normalizeWhitespace text)) candidate
                    :: rest')
          | _, _ => None
          end
      | _, _ => None
      end
  end.

(** Lines 428 to 472: forget the previous analysis. *)
Definition reset_analysis (c : closure) (extractedVideoId : string)
           (detectedPlatform : platform) : M unit :=
  emit (Cleanup None) ;;
  modify (with_pending (fun _ => ∅)) ;;
  modify (with_activeThemeRequestId None) ;;
  modify (with_nextThemeRequestId 0) ;;
  modify (with_selectedThemeRef None) ;;
  setState "error" (JStr "") ;;
  setState "isRateLimitError" (JBool false) ;;
  setState "topics" (JArr []) ;;
  setState "baseTopics" (JArr []) ;;
  setState "transcript" (JArr []) ;;
  setState "themes" (JArr []) ;;
  setState "selectedTheme" JNull ;;
  setState "themeTopicsMap" (JObj []) ;;
  setState "themeCandidateMap" (JObj []) ;;
  setState "usedTopicKeys" (jset []) ;;
  setState "themeError" JNull ;;
  setState "isLoadingThemeTopics" (JBool false) ;;
  setState "selectedTopic" JNull ;;
  setState "currentTime" (JNum 0) ;;
  setState "videoDuration" (JNum 0) ;;
  setState "citationHighlight" JNull ;;
  setState "videoInfo" JNull ;;
  setState "videoPreview" (JStr "") ;;
  setState "playbackCommand" JNull ;;
  setState "isPlayingAll" (JBool false) ;;
  setState "playAllIndex" (JNum 0) ;;
  setState "takeawaysContent" JNull ;;
  setState "takeawaysError" (JStr "") ;;
  setState "showChatTab" (JBool false) ;;
  setState "cachedSuggestedQuestions" JNull ;;
  (* Store video ID immediately for potential post-auth linking *)
  storeCurrentVideoForAuth c (Some extractedVideoId) ;;
  when (negb (match videoId c with
              | Some v => String.eqb v extractedVideoId
              | None => false
              end))
       (setState "videoId" (JStr extractedVideoId)) ;;
  setState "platform" (JStr (platform_name detectedPlatform)).

(** Lines 474 to 637: ask the cache; on a hit load it and leave. *)
Definition check_cache (c : closure) (e : env)
           (url extractedVideoId selectedMode : string) : M unit :=
  emit (Fetch "/api/check-video-cache" (JObj [("url", JStr url)])) ;;
  let* cacheData :=
    match cache_fetch e with
    | Rejected err => throw err
    | Responded r =>
        if ok r then
          match body r with
          | Some cacheData => ret (Some cacheData)
          | None => throw json_failure
          end
        else ret None
    end in
  match cacheData with
  | Some cacheData =>
      let* cached := prop "cached" cacheData in
      when (truthy_opt cached)
           (load_cached c extractedVideoId selectedMode cacheData ;; early_return)
  | None => ret tt
  end.

(** Lines 639 to 655: the generation limit. *)
Definition limit_gate (c : closure) (e : env) (extractedVideoId : string) : M unit :=
  let currentRemaining := remaining c in
  let* effectiveRemaining :=
    match user c with
    | Some _ => ret currentRemaining
    | None =>
        let* latestLimitData := checkRateLimit (limit_fetch e) in
        match latestLimitData with
        | Some data =>
            match field "remaining" data with
            | Some (JNum n) => ret (Some n)
            | Some JNull => ret None
            | _ => ret currentRemaining
            end
        | None => ret currentRemaining
        end
    end in
  let* allowed := checkGenerationLimit c (Some extractedVideoId)
                                       (Some effectiveRemaining) in
  when (negb allowed) early_return.

(** Lines 657 to 743: the transcript and the metadata, requested
    together; the result is the normalized transcript and the metadata
    when it could be fetched. *)
Definition fetch_inputs (e : env) (url : string) : M (json * option json) :=
  setState "pageState" (JStr "ANALYZING_NEW") ;;
  setState "loadingStage" (JStr "fetching") ;;
  (* Fetch transcript and video info in parallel *)
  emit (CreateController "transcript" (Some 300000%Z)) ;;
  emit (CreateController "videoInfo" (Some 100000%Z)) ;;
  emit (Fetch "/api/transcript" (JObj [("url", JStr url)])) ;;
  emit (Fetch "/api/video-info" (JObj [("url", JStr url)])) ;;
  (* Process transcript response (required) *)
  let* transcriptRes :=
    match transcript_fetch e with
    | Rejected err =>
        if is_abort err then throw_error "字幕请求超时，请重试。"
        else throw_error "网络错误：无法获取字幕。请确保服务器正在运行。"
    | Responded r => ret r
    end in
  when (negb (ok transcriptRes))
       (throw_error (buildApiErrorMessage (error_data transcriptRes)
                                          "Failed to fetch transcript")) ;;
  let* fetchedTranscript :=
    match body transcriptRes with
    | Some JNull | None => throw_error "处理字幕数据失败，请重试。"
    | Some data => ret (field "transcript" data)
    end in
  let normalizedTranscriptData := normalizeTranscript fetchedTranscript in
  setState "transcript" normalizedTranscriptData ;;
  (* Process video info response (optional) *)
  let* fetchedVideoInfo :=
    match videoInfo_fetch e with
    | Rejected _ => ret None
    | Responded r =>
        if ok r then
          match body r with
          | Some videoInfoData =>
              if truthy videoInfoData
                 && negb (truthy_opt (field "error" videoInfoData))
              then
                setState "videoInfo" videoInfoData ;;
                setVideoDurationFrom videoInfoData ;;
                ret (Some videoInfoData)
              else ret None
          | None => ret None
          end
        else ret None
    end in
  ret (normalizedTranscriptData, fetchedVideoInfo).

(** Lines 745 to 1061: topics and summary, then the state update and the
    background work. *)
Definition generate (c : closure) (e : env) (extractedVideoId selectedMode : string)
           (normalizedTranscriptData : json) (fetchedVideoInfo : option json)
  : M unit :=
  let info_field (x : string) : json :=
    match fetchedVideoInfo with
    | Some info => or_null (field x info)
    | None => JNull
    end in
  setState "loadingStage" (JStr "understanding") ;;
  (* Generate quick preview (non-blocking) *)
  emit (Fetch "/api/quick-preview"
          (JObj [("transcript", normalizedTranscriptData);
                 ("videoTitle", info_field "title");
                 ("videoDescription", info_field "description");
                 ("channelName", info_field "author");
                 ("tags", info_field "tags")])) ;;
  setState "loadingStage" (JStr "generating") ;;
  setState "generationStartTime" (JNum (now e)) ;;
  emit (CreateController "topics" None) ;;
  emit (CreateController "takeaways" (Some 60000%Z)) ;;
  emit (Fetch "/api/video-analysis"
          (JObj [("videoId", JStr extractedVideoId);
                 ("videoInfo", or_null fetchedVideoInfo);
                 ("transcript", normalizedTranscriptData);
                 ("model", JStr "gemini-2.5-flash");
                 ("mode", JStr selectedMode)])) ;;
  emit (Fetch "/api/generate-summary"
          (JObj [("transcript", normalizedTranscriptData);
                 ("videoInfo", or_null fetchedVideoInfo);
                 ("videoId", JStr extractedVideoId)])) ;;
  setState "showChatTab" (JBool true) ;;
  setState "isGeneratingTakeaways" (JBool true) ;;
  (* const topicsResult = await topicsSettledPromise *)
  let* topicsRes :=
    match topics_fetch e with
    | Rejected err =>
        emit (Abort "takeaways") ;;
        throw_error (topics_rejection err)
    | Responded r => ret r
    end in
  when (negb (ok topicsRes))
       (let errorData := error_data topicsRes in
        let requiresAuth := truthy_opt (field "requiresAuth" errorData) in
        if (status topicsRes =? 429) && requiresAuth then
          emit (Abort "takeaways") ;;
          redirectToAuthForLimit c (as_string (field "message" errorData))
                                 (Some extractedVideoId) ;;
          early_return
        else if status topicsRes =? 429 then
          setState "isRateLimitError" (JBool true) ;;
          emit (Fetch "/api/check-limit" JNull) ;;
          emit (Abort "takeaways") ;;
          let limitMessageRaw := match as_string (field "message" errorData) with
                                 | Some m => Str.trim m | None => "" end in
          let limitErrorRaw := match as_string (field "error" errorData) with
                               | Some m => Str.trim m | None => "" end in
          throw_error (if nonempty limitMessageRaw then limitMessageRaw
                       else if nonempty limitErrorRaw then limitErrorRaw
                       else AUTH_LIMIT_MESSAGE)
        else
          emit (Abort "takeaways") ;;
          throw_error (buildApiErrorMessage errorData "Failed to generate topics")) ;;
  let* topicsData :=
    match body topicsRes with
    | Some d => ret d
    | None => throw json_failure
    end in
  let* rawTopics := prop "topics" topicsData in
  let generatedTopics :=
    hydrateTopicsWithTranscript (array_or_empty rawTopics)
                                normalizedTranscriptData in
  let generatedThemes := array_or_empty (field "themes" topicsData) in
  let* generatedCandidates :=
    match with_keys (match field "topicCandidates" topicsData with
                     | Some (JArr l) => l
                     | _ => []
                     end) with
    | Some l => ret (JArr l)
    | None => throw (JsError "TypeError" "Cannot read properties of undefined")
    end in
  (* const takeawaysResult = await takeawaysSettledPromise *)
  setState "loadingStage" (JStr "processing") ;;
  setState "generationStartTime" JNull ;;
  setState "processingStartTime" (JNum (now e)) ;;
  let* takeaways :=
    match takeaways_fetch e with
    | Responded summaryRes =>
        if ok summaryRes then
          match body summaryRes with
          | Some summaryData =>
              let* summaryContent := prop "summaryContent" summaryData in
              ret (summaryContent, None)
          | None => throw json_failure
          end
        else ret (None, Some (buildApiErrorMessage (error_data summaryRes)
                                                   "生成总结失败，请重试。"))
    | Rejected error =>
        if is_abort error then ret (None, Some "总结生成超时。视频可能过长。")
        else ret (None, Some (if nonempty (message error) then message error
                              else "生成总结失败，请重试。"))
    end in
  let generatedTakeaways := fst takeaways in
  let takeawaysGenerationError := snd takeaways in
  (* Synchronous batch state update - all at once *)
  let* w := get in
  setState "topics" generatedTopics ;;
  setState "baseTopics" generatedTopics ;;
  setState "usedTopicKeys" (jset (keys_of generatedTopics [])) ;;
  setState "themeCandidateMap"
           (set_field "__default" generatedCandidates
                      (match view w !! "themeCandidateMap" with
                       | Some m => m
                       | None => JObj []
                       end)) ;;
  setState "selectedTopic" (first_or_null generatedTopics) ;;
  setState "themes" generatedThemes ;;
  (if truthy_opt generatedTakeaways then
     setState "takeawaysContent" (or_null generatedTakeaways) ;;
     setState "showChatTab" (JBool true) ;;
     setState "isGeneratingTakeaways" (JBool false)
   else
     match takeawaysGenerationError with
     | Some err =>
         when (nonempty err)
              (setState "takeawaysError" (JStr err) ;;
               setState "showChatTab" (JBool true) ;;
               setState "isGeneratingTakeaways" (JBool false))
     | None => ret tt
     end) ;;
  (* Rate limit is handled server-side now *)
  emit (Fetch "/api/check-limit" JNull) ;;
  (* Save complete analysis to database in background *)
  emit (Background "save-complete-analysis" "/api/save-analysis"
          (JObj [("videoId", JStr extractedVideoId);
                 ("videoInfo",
                  match fetchedVideoInfo with
                  | Some info => info
                  | None => placeholder_info extractedVideoId
                  end);
                 ("transcript", normalizedTranscriptData);
                 ("topics", generatedTopics);
                 ("summary", or_null generatedTakeaways);
                 ("model", JStr "gemini-2.5-flash")])) ;;
  (* Generate suggested questions *)
  emit (Background "generate-questions" "/api/suggested-questions"
          (JObj [("transcript", normalizedTranscriptData);
                 ("topics", generatedTopics);
                 ("videoTitle", info_field "title")])).

(** The body of the [try] block of [processVideo]. *)
Definition processVideo_try (c : closure) (e : env) (url selectedMode : string)
  : M unit :=
  match extractVideoId url, detectPlatform url with
  | Some extractedVideoId, Some detectedPlatform =>
      if negb (nonempty extractedVideoId)
      then throw_error "无效的视频URL。请提供YouTube或Bilibili链接。"
      else
        reset_analysis c extractedVideoId detectedPlatform ;;
        check_cache c e url extractedVideoId selectedMode ;;
        limit_gate c e extractedVideoId ;;
        let* inputs := fetch_inputs e url in
        generate c e extractedVideoId selectedMode (fst inputs) (snd inputs)
  | _, _ => throw_error "无效的视频URL。请提供YouTube或Bilibili链接。"
  end.

(** [processVideo]: the [try] block, then [catch] and [finally]. *)
Definition processVideo (c : closure) (e : env) (url selectedMode : string)
           (w : world) : world :=
  let '(result, w1) := processVideo_try c e url selectedMode w in
  let w2 :=
    match result with
    | Throw err =>
        with_view (fun m => <["error" :=
                     JStr (normalizeErrorMessage (Some (message err))
                                                 "An error occurred")]> m) w1
    | _ => w1
    end in
  with_view (fun m =>
               <["isGeneratingTakeaways" := JBool false]>
               (<["processingStartTime" := JNull]>
               (<["generationStartTime" := JNull]>
               (<["loadingStage" := JNull]>
               (<["pageState" := JStr "IDLE"]> m))))) w2.

(** *** [handleThemeSelect] *)

(** What the callback closes over. *)
Record theme_closure : Type := ThemeClosure {
  t_videoId : option string;
  t_videoInfo : json;
  t_transcript : json;
  t_selectedTheme : option string;
  t_baseTopics : json;
  t_themeTopicsMap : json;
  t_usedTopicKeys : list string;
  t_mode : string
}.

Definition resetToDefault (tc : theme_closure) (preserveError : bool) : M unit :=
  when (negb preserveError) (setState "themeError" JNull) ;;
  setState "selectedTheme" JNull ;;
  modify (with_selectedThemeRef None) ;;
  setState "topics" (t_baseTopics tc) ;;
  setState "selectedTopic" JNull ;;
  setState "isPlayingAll" (JBool false) ;;
  setState "playAllIndex" (JNum 0) ;;
  setState "isLoadingThemeTopics" (JBool false) ;;
  modify (with_activeThemeRequestId None) ;;
  setState "usedTopicKeys" (jset (keys_of (t_baseTopics tc) [])).

Definition is_number (o : option json) : bool :=
  match o with Some (JNum _) => true | _ => false end.

(** The test inside [themedTopics.some(...)]. *)
Definition lacks_bounds (topic : json) : bool :=
  match field "segments" topic with
  | Some (JArr (firstSegment :: _)) =>
      negb (truthy firstSegment)
      || negb (is_number (field "start" firstSegment))
      || negb (is_number (field "end" firstSegment))
  | _ => true
  end.

Definition needsHydration (themedTopics : option json) : bool :=
  match themedTopics with
  | Some (JArr l) => existsb lacks_bounds l
  | _ => false
  end.

(** [setX(prev => ({ ...prev, [key]: f(prev[key]) }))] *)
Definition update_entry (x key : string) (f : option json -> json) : M unit :=
  modify (with_view (fun m =>
    let prev := match m !! x with Some o => o | None => JObj [] end in
    <[x := set_field key (f (field key prev)) prev]> m)).

Definition request_key (theme : string) (requestId : nat) : string :=
  "theme-topics:" ++ theme ++ ":" ++ NilZero.string_of_uint (Nat.to_uint requestId).

(** The last part of the callback: show the topics of the theme, unless
    another theme has been selected in the meantime. *)
Definition show_theme (normalizedTheme : string) (themedTopics : json) : M unit :=
  when (match themedTopics with JArr [] => true | _ => false end)
       (update_entry "themeCandidateMap" normalizedTheme
                     (fun prev => match prev with Some p => p | None => JArr [] end)) ;;
  let* w := get in
  if negb (match selectedThemeRef w with
           | Some t => String.eqb t normalizedTheme
           | None => false
           end)
  then early_return
  else
    setState "topics" themedTopics ;;
    match themedTopics with
    | JArr (first :: _) =>
        setState "selectedTopic" first ;;
        setState "themeError" JNull
    | _ =>
        setState "themeError" (JStr "此主题暂无可用精彩片段。") ;;
        setState "selectedTopic" JNull
    end.

(** The callback up to its [await]: the result names the theme and the
    request the callback now waits for, or is [None] when it ran to its
    end. *)
Definition handleThemeSelect_begin (tc : theme_closure) (themeLabel : option string)
  : M (option (string * nat)) :=
  match t_videoId tc with
  | None => early_return
  | Some videoId =>
  if negb (nonempty videoId) then early_return else
  match themeLabel with
  | None => resetToDefault tc false ;; early_return
  | Some themeLabel =>
  if negb (nonempty themeLabel) then resetToDefault tc false ;; early_return else
  let normalizedTheme := Str.trim themeLabel in
  if negb (nonempty normalizedTheme) then resetToDefault tc false ;; early_return else
  if match t_selectedTheme tc with
     | Some t => String.eqb t normalizedTheme
     | None => false
     end
  then resetToDefault tc false ;; early_return
  else
    let stored := field normalizedTheme (t_themeTopicsMap tc) in
    let* themedTopics :=
      match stored with
      | Some topics =>
          if truthy topics && needsHydration stored then
            let hydrated := hydrateTopicsWithTranscript topics (t_transcript tc) in
            update_entry "themeTopicsMap" normalizedTheme
                         (fun _ => if truthy hydrated then hydrated else JArr []) ;;
            ret (Some hydrated)
          else ret stored
      | None => ret None
      end in
    setState "selectedTheme" (JStr normalizedTheme) ;;
    modify (with_selectedThemeRef (Some normalizedTheme)) ;;
    setState "themeError" JNull ;;
    setState "selectedTopic" JNull ;;
    setState "isPlayingAll" (JBool false) ;;
    setState "playAllIndex" (JNum 0) ;;
    let* w := get in
    let pendingRequestId := pendingThemeRequestsRef w !! normalizedTheme in
    if truthy_opt themedTopics then
      modify (with_activeThemeRequestId None) ;;
      setState "isLoadingThemeTopics" (JBool false) ;;
      show_theme normalizedTheme (or_null themedTopics) ;;
      ret None
    else
      match pendingRequestId with
      | Some pending =>
          modify (with_activeThemeRequestId (Some pending)) ;;
          setState "isLoadingThemeTopics" (JBool true) ;;
          early_return
      | None =>
          let requestId := S (nextThemeRequestIdRef w) in
          modify (with_nextThemeRequestId requestId) ;;
          modify (with_pending (fun m => <[normalizedTheme := requestId]> m)) ;;
          modify (with_activeThemeRequestId (Some requestId)) ;;
          setState "isLoadingThemeTopics" (JBool true) ;;
          emit (CreateController (request_key normalizedTheme requestId) None) ;;
          emit (Fetch "/api/video-analysis"
                  (JObj [("videoId", JStr videoId);
                         ("videoInfo", t_videoInfo tc);
                         ("transcript", t_transcript tc);
                         ("model", JStr "gemini-2.5-flash");
                         ("theme", JStr normalizedTheme);
                         ("excludeTopicKeys",
                          JArr (map (fun key => JStr (substring 0 500 key))
                                    (t_usedTopicKeys tc)));
                         ("mode", JStr (t_mode tc))])) ;;
          ret (Some (normalizedTheme, requestId))
      end
  end
  end.

(** The [try] block after the request has settled as [f]. *)
Definition theme_try (tc : theme_closure) (normalizedTheme : string)
           (f : fetch_result) : M json :=
  let* response :=
    match f with
    | Rejected err => throw err
    | Responded r => ret r
    end in
  when (negb (ok response))
       (throw_error (buildApiErrorMessage (error_data response) "生成主题化主题失败")) ;;
  let* data :=
    match body response with
    | Some d => ret d
    | None => throw json_failure
    end in
  let* rawTopics := prop "topics" data in
  let hydratedThemeTopics :=
    hydrateTopicsWithTranscript (array_or_empty rawTopics) (t_transcript tc) in
  let candidatePool := field "topicCandidates" data in
  update_entry "themeCandidateMap" normalizedTheme
               (fun _ => array_or_empty candidatePool) ;;
  setState "usedTopicKeys" (jset (keys_of hydratedThemeTopics (t_usedTopicKeys tc))) ;;
  update_entry "themeTopicsMap" normalizedTheme
               (fun _ => if truthy hydratedThemeTopics then hydratedThemeTopics
                         else JArr []) ;;
  ret hydratedThemeTopics.

Definition selected_is (w : world) (theme : string) : bool :=
  match selectedThemeRef w with
  | Some t => String.eqb t theme
  | None => false
  end.

(** The [catch] block; it always leaves the callback. *)
Definition theme_catch (tc : theme_closure) (normalizedTheme : string)
           (error : js_error) : M json :=
  if is_abort error then early_return
  else
    let* w := get in
    when (selected_is w normalizedTheme)
         (resetToDefault tc true ;; setState "themeError" (JStr (message error))) ;;
    early_return.

(** The [finally] block. *)
Definition theme_finally (normalizedTheme : string) (requestId : nat) : M unit :=
  emit (Cleanup (Some (request_key normalizedTheme requestId))) ;;
  modify (with_pending (fun m => delete normalizedTheme m)) ;;
  let* w := get in
  when (match activeThemeRequestIdRef w with
        | Some a => a =? requestId
        | None => false
        end && selected_is w normalizedTheme)
       (setState "isLoadingThemeTopics" (JBool false) ;;
        modify (with_activeThemeRequestId None)).

(** The callback from its [await] on, when the request it issued for
    [normalizedTheme] settles as [f]. *)
Definition handleThemeSelect_resume (tc : theme_closure) (normalizedTheme : string)
           (requestId : nat) (f : fetch_result) (w : world) : world :=
  let '(r1, w1) := theme_try tc normalizedTheme f w in
  let '(r2, w2) :=
    match r1 with
    | Throw error => theme_catch tc normalizedTheme error w1
    | _ => (r1, w1)
    end in
  let w3 := snd (theme_finally normalizedTheme requestId w2) in
  match r2 with
  | Val themedTopics =>
      snd (show_theme normalizedTheme
                      (if truthy themedTopics then themedTopics else JArr []) w3)
  | _ => w3
  end.

(** The closure of the render that follows [w]. *)
Definition theme_render (tc : theme_closure) (w : world) : theme_closure :=
  let get x d := match view w !! x with Some v => v | None => d end in
  ThemeClosure
    (match view w !! "videoId" with Some (JStr v) => Some v | _ => t_videoId tc end)
    (get "videoInfo" JNull)
    (get "transcript" (JArr []))
    (match view w !! "selectedTheme" with Some (JStr t) => Some t | _ => None end)
    (get "baseTopics" (JArr []))
    (get "themeTopicsMap" (JObj []))
    (match view w !! "usedTopicKeys" with
     | Some (JArr l) =>
         flat_map (fun k => match k with JStr s => [s] | _ => [] end) l
     | _ => []
     end)
    (t_mode tc).

(** What is shown for the topics a theme request brings. *)
Definition shown_topics (tc : theme_closure) (data : json) : json :=
  let hydrated := hydrateTopicsWithTranscript (array_or_empty (field "topics" data))
                                              (t_transcript tc) in
  if truthy hydrated then hydrated else JArr [].

End Helpers.

(** *** What a computation does to the trace *)

(** A computation only adds to the trace. *)
Definition extends {A} (m : M A) : Prop :=
  forall w, exists evs, trace (snd (m w)) = (trace w ++ evs)%list.

(** A computation runs to its end, whatever the state. *)
Definition completes {A} (m : M A) : Prop :=
  forall w, exists a, fst (m w) = Val a.

(** A computation records the event [ev], however it ends. *)
Definition sends {A} (ev : event) (m : M A) : Prop :=
  forall w, In ev (trace (snd (m w))).

(** *** Sample inputs *)

Definition sample_url : string := "https://www.bilibili.com/video/BV1xx411c7mD".

(** The page before anything has happened. *)
Definition idle : world := World ∅ false None 0 None ∅ ∅ [].

Definition answer (j : json) : fetch_result := Responded (Response 200 (Some j)).
Definition unreachable : fetch_result := Rejected (JsError "TypeError" "Failed to fetch").

(** A run whose cache request reports a miss. *)
Definition sample_env (limit transcript videoInfo topics takeaways : fetch_result) : env :=
  Env (answer (JObj [("cached", JBool false)])) limit transcript videoInfo topics takeaways 0.

Definition guest : closure := Closure None None None false (Some 3%Q).
Definition member : closure := Closure (Some "u1") None None false (Some 3%Q).

(** The run of [processVideo] on the sample URL from the idle page, with
    helpers that leave their arguments as they are. *)
Definition sample_run (c : closure) (e : env) : world :=
  processVideo or_null (fun topics _ => topics) (fun s => s) (fun _ => 0%Q)
               c e sample_url "smart" idle.

End Page.

(* ================================================================== *)
(** * Further parts of the code *)

(** ** The language of a regular expression *)

Module Lang.
Import Regex.

(** The strings [r] matches from their first to their last character,
    whatever it captures. *)
Fixpoint lang (ci : bool) (r : regex) (w : string) : Prop :=
  match r with
  | Eps => w = ""
  | Chr c => exists x, w = String x "" /\ chr_eq ci c x = true
  | Cls p => exists x, w = String x "" /\ cls_in ci p x = true
  | Seq r1 r2 => exists w1 w2, w = w1 ++ w2 /\ lang ci r1 w1 /\ lang ci r2 w2
  | Alt r1 r2 => lang ci r1 w \/ lang ci r2 w
  | Star p => Str.all (cls_in ci p) w = true
  | Cap r1 => lang ci r1 w
  end.

(** The two shapes of a Bilibili identifier: [BV] in either case followed
    by letters and digits, or digits alone. *)
Definition bv_id (id : string) : bool :=
  match id with
  | String b (String v rest) =>
      chr_eq true "B" b && chr_eq true "V" v
      && negb (String.eqb rest "") && Str.all Str.is_alnum rest
  | _ => false
  end.
Definition av_id (id : string) : bool :=
  negb (String.eqb id "") && Str.all Str.is_digit id.

End Lang.

(** ** The Bilibili player ([src/components/bilibili-player.tsx]) *)

Module Player.

(** [getBilibiliEmbedUrl], of the [videoId] the component is given. *)
Definition getBilibiliEmbedUrl (videoId : string) : string :=
  if Str.starts_with videoId "BV" then
    "https://player.bilibili.com/player.html?bvid=" ++ videoId
    ++ "&page=1&high_quality=1&danmaku=0"
  else if Str.starts_with videoId "av" then
    "https://player.bilibili.com/player.html?aid="
    ++ substring 2 (String.length videoId - 2) videoId
    ++ "&page=1&high_quality=1&danmaku=0"
  else
    "https://player.bilibili.com/player.html?bvid=" ++ videoId
    ++ "&page=1&high_quality=1&danmaku=0".

End Player.

(** ** Durations and colours ([src/lib/utils.ts]) *)

Module Format.

(** A JavaScript number that is finite is modelled by the rational it
    denotes; the functions below are applied to seconds, which are far
    from the magnitudes at which numbers print with an exponent. *)

(** [Math.trunc], which [%] uses: rounding towards zero. *)
Definition trunc (q : Q) : Z := if Qle_bool 0 q then Qfloor q else Qceiling q.

(** [a % b]: the remainder has the sign of [a]. *)
Definition js_rem (a b : Q) : Q := a - b * inject_Z (trunc (a / b)).

(** [String(n)] for an integer. *)
Definition to_string (z : Z) : string := NilZero.string_of_int (Z.to_int z).

Fixpoint zeros (n : nat) : string :=
  match n with
  | O => ""
  | S n' => String "0" (zeros n')
  end.

(** [s.padStart(targetLength, '0')] *)
Definition padStart (targetLength : nat) (s : string) : string :=
  zeros (targetLength - String.length s) ++ s.

Definition formatDuration (seconds : Q) : string :=
  let minutes := Qfloor (seconds / 60) in
  let secs := Qfloor (js_rem seconds 60) in
  to_string minutes ++ ":" ++ padStart 2 (to_string secs).

Definition formatTopicDuration (seconds : Q) : string :=
  let minutes := Qfloor (seconds / 60) in
  if (minutes <? 60)%Z then to_string minutes ++ " min"
  else
    let hours := (minutes / 60)%Z in       (* Math.floor(minutes / 60) *)
    let mins := Z.rem minutes 60 in        (* minutes % 60 *)
    if (0 <? mins)%Z then to_string hours ++ "h " ++ to_string mins ++ "m"
    else to_string hours ++ "h".

End Format.

Module Colors.

(** [TOPIC_COLORS] *)
Definition TOPIC_COLORS : list string :=
  ["214 48% 65%"; "267 44% 71%"; "158 35% 65%"; "15 85% 74%"; "43 100% 74%";
   "320 53% 80%"; "192 49% 71%"].

(** [ToInt32]: the integer modulo 2^32, read as a signed 32-bit number. *)
Definition toInt32 (z : Z) : Z := ((z + 2 ^ 31) mod 2 ^ 32 - 2 ^ 31)%Z.

(** One round of the loop of [simpleHash]:
    [hash = ((hash << 5) - hash) + char; hash = hash & hash]. The shift
    works on 32-bit integers, the subtraction and the addition on
    numbers, and [&] brings the sum back to 32 bits. *)
Definition hash_step (hash char : Z) : Z :=
  let shifted := toInt32 (Z.shiftl (toInt32 hash) 5) in
  let hash' := (shifted - hash + char)%Z in
  toInt32 (Z.land (toInt32 hash') (toInt32 hash')).

(** [simpleHash], of a string given by its code units
    ([str.charCodeAt(i)]). *)
Definition simpleHash (units : list Z) : Z :=
  Z.abs (fold_left hash_step units 0%Z).

(** The code units of a string of ASCII characters. *)
Definition units (s : string) : list Z :=
  map (fun c => Z.of_nat (Str.code c)) (list_ascii_of_string s).

(** The hash the loop computes before it is wrapped and made positive:
    the polynomial in 31 over the code units. *)
Definition polynomial (units : list Z) : Z :=
  fold_left (fun h c => (31 * h + c)%Z) units 0%Z.

Section Shuffle.
(** [seededRandom] is [Math.sin(seed) * 10000] less its floor, a
    computation in floating point; the shuffle is modelled for whatever
    numbers it returns. *)
Variable seededRandom : Z -> Q.

(** Arrays of strings are lists of elements, each of which can be
    [undefined] ([None]). *)

(** [a[j]]: [undefined] outside the array. *)
Definition read (a : list (option string)) (j : Z) : option string :=
  if (j <? 0)%Z then None
  else match a !! Z.to_nat j with
       | Some v => v
       | None => None
       end.

(** [a[j] = v]: an index past the end extends the array, leaving holes;
    a negative index sets a property and no element. *)
Definition write (a : list (option string)) (j : Z) (v : option string) : list (option string) :=
  if (j <? 0)%Z then a
  else if Z.to_nat j <? length a then <[Z.to_nat j := v]> a
  else (a ++ repeat None (Z.to_nat j - length a) ++ [v])%list.

(** One round of the loop, for index [i]:
    [j = Math.floor(seededRandom(hashValue + i) * (i + 1))] and
    [[shuffled[i], shuffled[j]] = [shuffled[j], shuffled[i]]]. *)
Definition shuffle_step (hashValue : Z) (i : nat) (shuffled : list (option string)) : list (option string) :=
  let j := Qfloor (seededRandom (hashValue + Z.of_nat i) * inject_Z (Z.of_nat i + 1)) in
  let at_j := read shuffled j in
  let at_i := read shuffled (Z.of_nat i) in
  write (write shuffled (Z.of_nat i) at_j) j at_i.

(** [for (let i = start; i > 0; i--)] *)
Fixpoint shuffle_from (hashValue : Z) (i : nat) (shuffled : list (option string)) : list (option string) :=
  match i with
  | O => shuffled
  | S i' => shuffle_from hashValue i' (shuffle_step hashValue i shuffled)
  end.

Definition seededShuffle (arr : list string) (seed : list Z) : list (option string) :=
  shuffle_from (simpleHash seed) (length arr - 1) (map Some arr).

Definition getShuffledTopicColors (videoId : list Z) : list (option string) :=
  seededShuffle TOPIC_COLORS videoId.

(** [getTopicHSLColor(index, videoId)]; [videoId] is [None] when it is
    left out, and an empty string counts as left out. *)
Definition getTopicHSLColor (index : Z) (videoId : option (list Z)) : option string :=
  let colors :=
    match videoId with
    | Some (u :: rest) => getShuffledTopicColors (u :: rest)
    | _ => map Some TOPIC_COLORS
    end in
  read colors (Z.rem index (Z.of_nat (length colors))).

End Shuffle.

End Colors.

(** ** Reading the cache by platform (the migration's
       [get_video_analysis_by_platform]) *)

Module Lookup.
Import Json.

(** A row of the table the function returns. *)
Record analysis : Type := Analysis {
  a_id : Cache.uuid;
  a_title : string;
  a_author : option string;
  a_duration : Z;
  a_thumbnail_url : option string;
  a_transcript : json;
  a_topics : option json;
  a_summary : option json;
  a_suggested_questions : option json;
  a_model_used : option string;
  a_created_at : Cache.timestamp;
  a_updated_at : Cache.timestamp;
  a_platform : string
}.

Definition of_bilibili (bva : Cache.row) : analysis :=
  Analysis (Cache.id bva) (Cache.title bva) (Cache.author bva) (Cache.duration bva)
           (Cache.thumbnail_url bva) (Cache.transcript bva) (Cache.topics bva)
           (Cache.summary bva) (Cache.suggested_questions bva) (Cache.model_used bva)
           (Cache.created_at bva) (Cache.updated_at bva) "bilibili".

(** [WHERE bva.bvid = p_video_id OR bva.aid = p_video_id]: a comparison
    with [NULL] is not true. *)
Definition matches (p_video_id : string) (bva : Cache.row) : bool :=
  CheckCache.eq_opt (Cache.bvid bva) p_video_id
  || CheckCache.eq_opt (Cache.aid bva) p_video_id.

(** [video_analyses] is declared by another migration; [youtube] stands
    for the query of the first branch, the rows of that table whose
    [youtube_id] is the argument, with ['youtube'] as their platform. *)
Definition get_video_analysis_by_platform
           (youtube : string -> list analysis) (t : Cache.table)
           (p_platform p_video_id : string) : Cache.sql_error + list analysis :=
  if String.eqb p_platform "youtube" then inr (youtube p_video_id)
  else if String.eqb p_platform "bilibili" then
    inr (map of_bilibili (List.filter (matches p_video_id) t))
  else inl (Cache.RaiseException ("Unsupported platform: " ++ p_platform)).

(** The [bvid]s in the table, in the order of the rows that carry one. *)
Definition bvids (t : Cache.table) : list string :=
  flat_map (fun r => match Cache.bvid r with Some b => [b] | None => [] end) t.

(** *** Sample inputs *)

(** A row with the required columns, stored at time [at_]. *)
Definition sample_row (i : Cache.uuid) (b a : option string) (at_ : Cache.timestamp)
  : Cache.row :=
  Cache.Row i b a "title" None 60 None (JArr []) None None None None at_ at_.

(** The call that stores such a row. *)
Definition sample_call (b a : option string) : Cache.upsert_params :=
  Cache.Params b a (Some "title") None (Some 60%Z) None (Some (JArr [])) None None None
               None.

End Lookup.

(** ** Properties of the computations of the page *)

Module PageLogic.
Import Json Page.

(** Every event a computation records satisfies [P]. *)
Definition adds (P : event -> Prop) {A} (m : M A) : Prop :=
  forall w, exists evs, trace (snd (m w)) = (trace w ++ evs)%list /\ Forall P evs.

(** A computation leaves the state variable [k] as it is. *)
Definition keeps (k : string) {A} (m : M A) : Prop :=
  forall w, view (snd (m w)) !! k = view w !! k.

(** A computation leaves a part of the state, such as a ref, as it
    is. *)
Definition preserves {S} (part : world -> S) {A} (m : M A) : Prop :=
  forall w, part (snd (m w)) = part w.

(** A computation ends with the state variable [k] set to [v]. *)
Definition ends_with (k : string) (v : json) {A} (m : M A) : Prop :=
  forall w, view (snd (m w)) !! k = Some v.

(** [backgroundOperation(...)], as opposed to a request the run waits
    for. *)
Definition is_background (ev : event) : Prop :=
  exists operation endpoint payload, ev = Background operation endpoint payload.

(** The requests with which a run generates an analysis: the preview,
    the topics and the summary. *)
Definition is_generation_request (ev : event) : bool :=
  is_fetch_to "/api/quick-preview" ev || is_fetch_to "/api/video-analysis" ev
  || is_fetch_to "/api/generate-summary" ev.

(** A request was rejected (a network error or a timeout) or answered
    with an error status. *)
Definition request_failed (f : Http.fetch_result) : bool :=
  match f with
  | Http.Rejected _ => true
  | Http.Responded r => negb (Http.ok r)
  end.

(** A computation never runs to its end: it throws or leaves the
    function. *)
Definition stops {A} (m : M A) : Prop :=
  forall w a, fst (m w) <> Val a.

(** *** Sample inputs *)

(** A run whose cache request finds a stored analysis. *)
Definition cached_env : env :=
  Env (answer (JObj [("cached", JBool true);
                     ("transcript", JArr [JStr "hello"]);
                     ("topics", JArr [JStr "a topic"])]))
      unreachable unreachable unreachable unreachable unreachable 0.

(** A topic whose first segment has its bounds. *)
Definition bounded_topic : json :=
  JObj [("title", JStr "a science topic");
        ("segments", JArr [JObj [("start", JNum 0); ("end", JNum 1)]])].

(** The closure of a render in which the theme History is selected and
    topics are stored for the theme Science. *)
Definition sample_themes : theme_closure :=
  ThemeClosure (Some "BV1xx411c7mD") JNull (JArr []) (Some "History")
               (JArr [JStr "a base topic"])
               (JObj [("Science", JArr [bounded_topic])]) [] "smart".

(** The page while request 3, for the theme Art, is under way. *)
Definition awaiting_art : world := World ∅ false None 3 None {["Art" := 3]} ∅ [].

(** The page with the theme History selected and its request 1 active. *)
Definition showing_history : world :=
  World ∅ false (Some "History") 1 (Some 1) {["History" := 1]} ∅ [].

End PageLogic.

(** ** The preferred subtitle track *)

Module Tracks.
Import Transcript.

(** The test of [getPreferredSubtitle] for a Chinese track. *)
Definition is_chinese (sub : BilibiliSubtitle) : bool :=
  String.eqb (lan sub) "zh-CN" || String.eqb (lan sub) "zh-Hans"
  || Str.includes (lan_doc sub) "中文".

End Tracks.

(* ================================================================== *)
(** * Facts about strings and the matcher *)

Section StringFacts.

Lemma suffix_app_r (p s : string) : Str.suffix s (p ++ s).
Proof. induction p as [|c p IH]; simpl; [constructor | constructor 2; exact IH]. Qed.




(** A literal that extends an absent literal is absent too. *)
Lemma strip_app_none ceq (l l' s : string) :
  Str.strip ceq l s = None -> Str.strip ceq (l ++ l') s = None.
Proof.
  revert s. induction l as [|c l IH]; intros s; simpl; [discriminate|].
  destruct s as [|x s]; [reflexivity|]. destruct (ceq c x); [apply IH | reflexivity].
Qed.

Lemma occurs_app_false ceq (l l' s : string) :
  Str.occurs ceq l s = false -> Str.occurs ceq (l ++ l') s = false.
Proof.
  induction s as [|x s IH]; simpl; intros H.
  - destruct (Str.strip ceq l "") eqn:E; [discriminate|].
    now rewrite (strip_app_none _ _ l' _ E).
  - destruct (Str.strip ceq l (String x s)) eqn:E; [discriminate|].
    rewrite (strip_app_none _ _ l' _ E). now apply IH.
Qed.







Lemma length_app (a b : string) :
  String.length (a ++ b) = String.length a + String.length b.
Proof. induction a as [|c a IH]; simpl; [reflexivity | now rewrite IH]. Qed.

Lemma substring_app_l (a b : string) :
  substring 0 (String.length a) (a ++ b) = a.
Proof. induction a as [|c a IH]; simpl; [now destruct b | now rewrite IH]. Qed.

Lemma consumed_app (a b : string) : Str.consumed (a ++ b) b = a.
Proof.
  unfold Str.consumed. rewrite length_app.
  replace (String.length a + String.length b - String.length b) with (String.length a) by lia.
  apply substring_app_l.
Qed.

Lemma app_assoc_s (a b c : string) : (a ++ b) ++ c = a ++ (b ++ c).
Proof. induction a as [|x a IH]; simpl; [reflexivity | now rewrite IH]. Qed.

End StringFacts.

Section RegexFacts.
Import Regex.
Context {A : Type}.
Implicit Types (k : string -> option string -> option A) (r : regex).







End RegexFacts.

Section SearchFacts.
Import Regex.







End SearchFacts.

Section UrlFacts.
Import Regex Urls Shapes.

(** *** Characters *)




Ltac by_cases c := destruct c as [[] [] [] [] [] [] [] []]; vm_compute; auto.



Lemma id_char_dot c : id_char c = true -> dot c = true.
Proof. by_cases c. Qed.

Lemma cls_alnum c : cls_in true alnum c = alnum c.
Proof. destruct c as [[] [] [] [] [] [] [] []]; reflexivity. Qed.

Lemma cls_digit c : cls_in true digit c = digit c.
Proof. destruct c as [[] [] [] [] [] [] [] []]; reflexivity. Qed.


(** *** The YouTube expression *)

Section Youtube.
Context {A : Type}.
Implicit Types (k : string -> option string -> option A).









End Youtube.







(** *** Searching *)











(** *** The Bilibili patterns *)









(** *** [extractVideoId] on the supported shapes *)

















End UrlFacts.

(* ================================================================== *)
(** * Video identifiers *)

Section UrlClaims.
Import Regex Urls Shapes.


(** The conditions on the tail of a YouTube URL cannot be dropped: the
    expression prefers a path, and the last [v=], to the identifier that
    follows [watch?v=]. *)
Lemma extractVideoId_takes_later_path :
  extractVideoId "https://www.youtube.com/watch?v=dQw4w9WgXcQ&next=/a/ccccccccccc"
  = Some "ccccccccccc"
  /\ extractVideoId "https://www.youtube.com/watch?v=dQw4w9WgXcQ&v=ccccccccccc"
     = Some "ccccccccccc".
Proof. split; reflexivity. Qed.






End UrlClaims.

(* ================================================================== *)
(** * The analysis cache *)

Section CacheFacts.
Import Json Cache.

Lemma coalesce_idem {A} (a b : option A) : coalesce a (coalesce a b) = coalesce a b.
Proof. now destruct a. Qed.


Lemma proposed_check fresh now p new :
  proposed fresh now p = inr new -> bvid_aid_check (bvid new) (aid new) = true.
Proof.
  unfold proposed. destruct (p_title p), (p_duration p), (p_transcript p); try discriminate.
  destruct (bvid_aid_check (p_bvid p) (p_aid p)) eqn:E; [|discriminate].
  intros [= <-]. exact E.
Qed.

Lemma proposed_fields fresh now p new :
  proposed fresh now p = inr new ->
  bvid new = p_bvid p /\ topics new = p_topics p /\ summary new = p_summary p
  /\ suggested_questions new = p_suggested_questions p.
Proof.
  unfold proposed. destruct (p_title p), (p_duration p), (p_transcript p); try discriminate.
  destruct (bvid_aid_check (p_bvid p) (p_aid p)); [|discriminate].
  intros [= <-]. now repeat split.
Qed.

(** A call that supplies the required columns and a [bvid] proposes a row. *)
Lemma proposed_ok fresh now p b :
  p_bvid p = Some b ->
  is_null (p_title p) = false -> is_null (p_duration p) = false ->
  is_null (p_transcript p) = false ->
  exists new, proposed fresh now p = inr new.
Proof.
  intros Hb Ht Hd Htr. unfold proposed.
  destruct (p_title p), (p_duration p), (p_transcript p); try discriminate.
  rewrite Hb. destruct (p_aid p); eexists; reflexivity.
Qed.

Lemma find_map_preserved (f : row -> bool) (g : row -> row) (t : table) :
  (forall r, f (g r) = f r) ->
  find f (map g t) = option_map g (find f t).
Proof.
  intros Hf. induction t as [|r t IH]; [reflexivity|].
  cbn [map find]. rewrite Hf. destruct (f r); [reflexivity | exact IH].
Qed.

Lemma conflicts_do_update b now new r :
  conflicts b (do_update now new r) = conflicts b r.
Proof. reflexivity. Qed.

Lemma conflicts_update_if b b' now new r :
  conflicts b (if conflicts b' r then do_update now new r else r) = conflicts b r.
Proof. now destruct (conflicts b' r). Qed.

(** A call of the function keeps the check constraint satisfied. *)
Lemma upsert_check fresh now p (t t' : table) i :
  Forall (fun r => bvid_aid_check (bvid r) (aid r) = true) t ->
  upsert_bilibili_video_analysis fresh now p t = inr (t', i) ->
  Forall (fun r => bvid_aid_check (bvid r) (aid r) = true) t'.
Proof.
  intros IH Hup. unfold upsert_bilibili_video_analysis in Hup.
  destruct (is_null (p_bvid p) && is_null (p_aid p)); [discriminate|].
  destruct (proposed fresh now p) as [e|new] eqn:Hnew; [discriminate|].
  destruct (find (conflicts (bvid new)) t) as [old|].
  - injection Hup as <- _. rewrite List.Forall_forall in *. intros r Hr.
    apply List.in_map_iff in Hr as (r0 & <- & Hr0).
    destruct (conflicts (bvid new) r0); [cbn|]; now apply IH.
  - destruct (existsb _ t); [discriminate|]. injection Hup as <- _.
    apply Forall_app. split; [exact IH|].
    constructor; [|constructor]. exact (proposed_check _ _ _ _ Hnew).
Qed.

(** Every table the function produces satisfies the check constraint. *)
Lemma reachable_check (t : table) :
  reachable t -> Forall (fun r => bvid_aid_check (bvid r) (aid r) = true) t.
Proof.
  induction 1 as [|fresh now p t t' i _ IH Hup]; [constructor|].
  exact (upsert_check _ _ _ _ _ _ IH Hup).
Qed.




Lemma upsert_on_conflict fresh now p t b old new :
  p_bvid p = Some b -> lookup_bvid b t = Some old ->
  proposed fresh now p = inr new ->
  upsert_bilibili_video_analysis fresh now p t
  = inr (map (fun r => if conflicts (Some b) r then do_update now new r else r) t,
         id old).
Proof.
  intros Hb Hold Hnew. unfold upsert_bilibili_video_analysis.
  rewrite Hb, Hnew. cbn [is_null andb].
  destruct (proposed_fields _ _ _ _ Hnew) as (-> & _). rewrite Hb.
  unfold lookup_bvid in Hold. now rewrite Hold.
Qed.

Lemma lookup_after_update b now new (t : table) :
  lookup_bvid b (map (fun r => if conflicts (Some b) r then do_update now new r else r) t)
  = option_map (do_update now new) (lookup_bvid b t).
Proof.
  unfold lookup_bvid. induction t as [|r t IH]; [reflexivity|].
  cbn [map find]. rewrite conflicts_update_if.
  destruct (conflicts (Some b) r) eqn:E; [reflexivity | exact IH].
Qed.

Lemma update_twice b n1 n2 new1 new2 (t : table) :
  topics new1 = topics new2 -> summary new1 = summary new2 ->
  suggested_questions new1 = suggested_questions new2 ->
  map (fun r => if conflicts (Some b) r then do_update n2 new2 r else r)
      (map (fun r => if conflicts (Some b) r then do_update n1 new1 r else r) t)
  = map (fun r => if conflicts (Some b) r then do_update n2 new2 r else r) t.
Proof.
  intros Ht Hs Hq. rewrite map_map. apply map_ext. intros r.
  rewrite conflicts_update_if. destruct (conflicts (Some b) r); [|reflexivity].
  unfold do_update. cbn. now rewrite Ht, Hs, Hq, !coalesce_idem.
Qed.

End CacheFacts.

Section CacheClaims.
Import Json Cache.

(** Claim C1, as the specification states it, fails for the columns that
    the conflict clause does not list: a call with a new, non-null [title]
    leaves the stored title in place. *)
Lemma upsert_keeps_stored_title :
  let old := Row 1 (Some "BV1xx411c7mD") None "stored title" None 60 None (JArr [])
                 (Some (JArr [JStr "topic"])) None None None 10 10 in
  let p := Params (Some "BV1xx411c7mD") None (Some "new title") None (Some 60%Z) None
                  (Some (JArr [])) None None None None in
  p_title p = Some "new title"
  /\ upsert_bilibili_video_analysis 2 20 p [old]
     = inr ([Row 1 (Some "BV1xx411c7mD") None "stored title" None 60 None (JArr [])
                 (Some (JArr [JStr "topic"])) None None None 10 20], 1).
Proof. split; reflexivity. Qed.

(** Claim C1, amended: for an existing row with the same [bvid] and a call
    that supplies the required columns, the call succeeds and returns the
    id of that row; in the row stored afterwards each of [topics],
    [summary] and [suggested_questions] is the parameter when it is not
    null and the stored value when it is null; every other column but
    [updated_at] keeps its stored value whatever is passed; and a second,
    identical call gives the table that a single call gives, so that
    [(topics = null, summary = X)] applied twice leaves [summary = X] and
    the stored topics. *)
Theorem upsert_merges_generated_columns fresh now p t b old :
  p_bvid p = Some b ->
  lookup_bvid b t = Some old ->
  is_null (p_title p) = false ->
  is_null (p_duration p) = false ->
  is_null (p_transcript p) = false ->
  exists t' new,
    upsert_bilibili_video_analysis fresh now p t = inr (t', id old)
    /\ lookup_bvid b t' = Some new
    /\ topics new = coalesce (p_topics p) (topics old)
    /\ summary new = coalesce (p_summary p) (summary old)
    /\ suggested_questions new
       = coalesce (p_suggested_questions p) (suggested_questions old)
    /\ untouched old new
    /\ updated_at new = now
    /\ (forall fresh2 now2,
           upsert_bilibili_video_analysis fresh2 now2 p t'
           = upsert_bilibili_video_analysis fresh2 now2 p t)
    /\ (forall X fresh2 now2,
           p_topics p = None -> p_summary p = Some X ->
           exists t'' new2,
             upsert_bilibili_video_analysis fresh2 now2 p t' = inr (t'', id old)
             /\ lookup_bvid b t'' = Some new2
             /\ summary new2 = Some X /\ topics new2 = topics old).
Proof.
  intros Hb Hold Ht Hd Htr.
  destruct (proposed_ok fresh now p b Hb Ht Hd Htr) as [new Hnew].
  destruct (proposed_fields _ _ _ _ Hnew) as (_ & Htop & Hsum & Hq).
  exists (map (fun r => if conflicts (Some b) r then do_update now new r else r) t),
         (do_update now new old).
  assert (Hlook : lookup_bvid b
                    (map (fun r => if conflicts (Some b) r then do_update now new r else r) t)
                  = Some (do_update now new old))
    by (now rewrite lookup_after_update, Hold).
  assert (Hsame : forall fresh2 now2,
             upsert_bilibili_video_analysis fresh2 now2 p
               (map (fun r => if conflicts (Some b) r then do_update now new r else r) t)
             = upsert_bilibili_video_analysis fresh2 now2 p t).
  { intros fresh2 now2.
    destruct (proposed_ok fresh2 now2 p b Hb Ht Hd Htr) as [new2 Hnew2].
    destruct (proposed_fields _ _ _ _ Hnew2) as (_ & Htop2 & Hsum2 & Hq2).
    rewrite (upsert_on_conflict _ _ _ _ b _ new2 Hb Hlook Hnew2).
    rewrite (upsert_on_conflict _ _ _ _ b _ new2 Hb Hold Hnew2).
    rewrite update_twice by congruence. reflexivity. }
  split; [exact (upsert_on_conflict _ _ _ _ _ _ _ Hb Hold Hnew)|].
  split; [exact Hlook|].
  cbn [do_update topics summary suggested_questions updated_at].
  rewrite Htop, Hsum, Hq.
  repeat (split; [reflexivity|]).
  split; [unfold untouched; now repeat split|].
  split; [reflexivity|]. split; [exact Hsame|].
  intros X fresh2 now2 HtopN HsumX.
  destruct (proposed_ok fresh2 now2 p b Hb Ht Hd Htr) as [new2 Hnew2].
  destruct (proposed_fields _ _ _ _ Hnew2) as (_ & Htop2 & Hsum2 & _).
  exists (map (fun r => if conflicts (Some b) r then do_update now2 new2 r else r) t),
         (do_update now2 new2 old).
  rewrite Hsame. split; [exact (upsert_on_conflict _ _ _ _ _ _ _ Hb Hold Hnew2)|].
  split; [now rewrite lookup_after_update, Hold|].
  cbn [do_update topics summary]. now rewrite Htop2, Hsum2, HtopN, HsumX.
Qed.

Lemma upsert_merges_generated_columns_witness :
  let old := Row 1 (Some "BV1xx411c7mD") None "title" None 60 None (JArr [])
                 (Some (JArr [JStr "topic"])) None None None 10 10 in
  let p := Params (Some "BV1xx411c7mD") None (Some "title") None (Some 60%Z) None
                  (Some (JArr [])) None (Some (JStr "X")) None None in
  exists t' new,
    upsert_bilibili_video_analysis 2 20 p [old] = inr (t', 1)
    /\ lookup_bvid "BV1xx411c7mD" t' = Some new
    /\ topics new = Some (JArr [JStr "topic"])
    /\ summary new = Some (JStr "X").
Proof.
  intros old p.
  destruct (upsert_merges_generated_columns 2 20 p [old] "BV1xx411c7mD" old
              eq_refl eq_refl eq_refl eq_refl eq_refl)
    as (t' & new & H1 & H2 & H3 & H4 & _).
  exists t', new. repeat split; assumption.
Defined.


(** The tables the function produces are states of the table. *)
Lemma reachable_stored (t : table) : reachable t -> stored t.
Proof.
  induction 1 as [|fresh now p t t' i _ IH Hup]; [constructor|].
  exact (stored_upsert _ _ _ _ _ _ IH Hup).
Qed.




End CacheClaims.

(* ================================================================== *)
(** * The transcript endpoint *)

Section TranscriptClaims.
Import Urls Transcript.
Local Open Scope Q_scope.

(** What the endpoint makes of one subtitle entry. *)
Lemma bilibili_entry_segment (e : subtitle_entry) :
  let seg := transform (of_segment (Segment (content e) (from e) (to e - from e))) in
  text seg = content e
  /\ start seg == from e
  /\ duration seg == (to e - from e) / 1000.
Proof.
  cbn. repeat split.
  - now destruct (String.eqb (content e) "") eqn:E;
      [apply String.eqb_eq in E|].
  - unfold num_or_zero. destruct (Qeq_bool (from e) 0) eqn:E; [|reflexivity].
    symmetry. now apply Qeq_bool_iff.
  - unfold num_or_zero. destruct (Qeq_bool ((to e - from e) / 1000) 0) eqn:E; [|reflexivity].
    symmetry. now apply Qeq_bool_iff.
Qed.

Lemma bilibili_branch_items (up : upstream) (videoId : string) (items : list item) :
  bilibili_branch up videoId = inr items ->
  exists subtitleContent,
    items = map of_segment (convertSubtitlesToTranscript subtitleContent).
Proof.
  unfold bilibili_branch. intros H.
  destruct (view_cids up videoId) as [[|cid pages]|]; try discriminate.
  destruct (cid =? 0)%Z; [discriminate|].
  destruct (player_subtitles up videoId cid) as [subs|]; [|discriminate].
  destruct (getPreferredSubtitle subs) as [sub|]; [|discriminate].
  destruct (subtitle_body up (subtitle_url sub)) as [c|]; [|discriminate].
  injection H as <-. now exists c.
Qed.

(** Claim C3 on the code: for the subtitle entry [{from: 1, to: 3,
    content: "hello"}] the endpoint answers a segment whose duration is
    [2/1000], not [to - from = 2]: the final mapping of the handler
    divides every defined [duration] by 1000, and so does it for the
    segments [convertSubtitlesToTranscript] has already put in seconds. *)
Theorem bilibili_duration_divided_by_1000 :
  convertSubtitlesToTranscript [SubtitleEntry 1 3 "hello" 2] = [Segment "hello" 1 (3 - 1)]
  /\ handler one_entry_upstream "https://www.bilibili.com/video/BV1xx411c7mD"
     = TranscriptOk "BV1xx411c7mD" [Segment "hello" 1 (2 # 1000)] bilibili
  /\ ~ (2 # 1000 == 3 - 1).
Proof.
  split; [reflexivity|]. split; [vm_compute; reflexivity|].
  intros H. vm_compute in H. discriminate H.
Qed.

End TranscriptClaims.

(* ================================================================== *)
(** * The cache-check endpoint *)

Section CheckCacheClaims.
Import Json Urls CheckCache.

Lemma handler_found db user now url p videoId :
  String.eqb url "" = false ->
  detectPlatform url = Some p ->
  extractVideoId url = Some videoId ->
  handler db user now (request_for url) =
  let calls := [AuthGetUser;
                DbSelect (match p with
                          | youtube => "video_analyses"
                          | bilibili => "bilibili_video_analyses"
                          end)] in
  match single (select p db videoId) with
  | Some v =>
      if truthy_opt (cv_topics v) then
        (Cached videoId p (cv_topics v) (cv_transcript v)
                (VideoInfo (cv_title v) (cv_author v) (cv_duration v) (cv_thumbnail_url v))
                (cv_summary v) (cv_suggested_questions v) (cv_created_at v),
         match user with
         | Some user_id =>
             Database (video_analyses db) (bilibili_video_analyses db)
                      (<[(user_id, cv_id v) := now]> (user_videos db))
         | None => db
         end,
         match user with
         | Some _ => (calls ++ [DbUpsert "user_videos"])%list
         | None => calls
         end)
      else (NotCached videoId p, db, calls)
  | None => (NotCached videoId p, db, calls)
  end.
Proof.
  intros Hurl Hp Hid. unfold handler, request_for.
  change (field "url" (JObj [("url", JStr url)])) with (Some (JStr url)).
  cbn [truthy]. rewrite Hurl, Hp, Hid. cbn [negb].
  destruct p; cbn [select];
    (match goal with |- context [single ?l] => destruct (single l) as [v|] end;
     [destruct (truthy_opt (cv_topics v)); [destruct user|]|]; reflexivity).
Qed.

(** Claim C9 on the code: when two stored records match the identifier
    the endpoint answers [cached: false] although both have their topics
    populated, because [.single()] yields no row unless exactly one
    matches. The two rows below are what two calls of the upsert function
    with the same [aid] and no [bvid] leave in the table: [aid] is not
    unique and the function looks for a conflict on [bvid] only. *)
Lemma duplicate_rows_are_not_served :
  let p := Cache.Params None (Some "170001") (Some "title") None (Some 60%Z) None
                        (Some (JArr [])) (Some (JArr [JStr "topic"])) None None None in
  let r1 := Cache.Row 1 None (Some "170001") "title" None 60 None (JArr [])
                      (Some (JArr [JStr "topic"])) None None None 10 10 in
  let r2 := Cache.Row 2 None (Some "170001") "title" None 60 None (JArr [])
                      (Some (JArr [JStr "topic"])) None None None 20 20 in
  Cache.upsert_bilibili_video_analysis 1 10 p [] = inr ([r1], 1)
  /\ Cache.upsert_bilibili_video_analysis 2 20 p [r1] = inr ([r1; r2], 2)
  /\ truthy_opt (Cache.topics r1) = true
  /\ truthy_opt (Cache.topics r2) = true
  /\ select bilibili (Database [] [r1; r2] ∅) "170001" = [of_bilibili r1; of_bilibili r2]
  /\ fst (fst (handler (Database [] [r1; r2] ∅) None 30
                       (request_for "https://www.bilibili.com/video/av170001")))
     = NotCached "170001" bilibili.
Proof. repeat split. Qed.

(** What the endpoint does serve: when the query for the identifier
    returns exactly one stored record and its topics are populated, it
    answers [cached: true] with the stored transcript, topics, summary,
    suggested questions and video info as they are persisted, and calls
    nothing but the database and the session; when no stored record for
    the identifier has populated topics it answers [cached: false]. *)
Theorem cached_analysis_is_served db user now url p videoId :
  String.eqb url "" = false ->
  detectPlatform url = Some p ->
  extractVideoId url = Some videoId ->
  (forall v,
      select p db videoId = [v] -> truthy_opt (cv_topics v) = true ->
      fst (fst (handler db user now (request_for url)))
      = Cached videoId p (cv_topics v) (cv_transcript v)
               (VideoInfo (cv_title v) (cv_author v) (cv_duration v) (cv_thumbnail_url v))
               (cv_summary v) (cv_suggested_questions v) (cv_created_at v)
      /\ existsb is_provider_request (snd (handler db user now (request_for url))) = false
      /\ video_analyses (snd (fst (handler db user now (request_for url)))) = video_analyses db
      /\ bilibili_video_analyses (snd (fst (handler db user now (request_for url))))
         = bilibili_video_analyses db)
  /\ ((forall v, In v (select p db videoId) -> truthy_opt (cv_topics v) = false) ->
      fst (fst (handler db user now (request_for url))) = NotCached videoId p
      /\ existsb is_provider_request (snd (handler db user now (request_for url))) = false).
Proof.
  intros Hurl Hp Hid. rewrite (handler_found db user now url p videoId Hurl Hp Hid).
  split.
  - intros v Hsel Htop. rewrite Hsel. cbn [single]. rewrite Htop.
    destruct user; repeat split.
  - intros Hnone. destruct (select p db videoId) as [|v [|v' l]] eqn:Hsel; cbn [single];
      try (split; reflexivity).
    rewrite (Hnone v) by (left; reflexivity). split; reflexivity.
Qed.

Lemma cached_analysis_is_served_witness :
  let r := Cache.Row 1 (Some "BV1xx411c7mD") None "title" None 60 None
                     (JArr [JStr "segment"]) (Some (JArr [JStr "topic"]))
                     (Some (JStr "summary")) None None 10 10 in
  fst (fst (handler (Database [] [r] ∅) None 30
                    (request_for "https://www.bilibili.com/video/BV1xx411c7mD")))
  = Cached "BV1xx411c7mD" bilibili (Some (JArr [JStr "topic"])) (JArr [JStr "segment"])
           (VideoInfo "title" None 60 None) (Some (JStr "summary")) None 10.
Proof.
  intros r.
  apply (proj1 (cached_analysis_is_served (Database [] [r] ∅) None 30
                  "https://www.bilibili.com/video/BV1xx411c7mD" bilibili "BV1xx411c7mD"
                  eq_refl eq_refl eq_refl) (of_bilibili r)); reflexivity.
Defined.

End CheckCacheClaims.

(* ================================================================== *)
(** * The page: limits, failures and theme requests *)

Section PageFacts.
Import Json Http Urls Page.
Variable normalizeTranscript : option json -> json.
Variable hydrateTopicsWithTranscript : json -> json -> json.
Variable normalizeWhitespace : string -> string.
Variable Number : string -> Q.

#[local] Arguments with_view _ _ /.
#[local] Arguments with_redirected _ _ /.
#[local] Arguments with_selectedThemeRef _ _ /.
#[local] Arguments with_nextThemeRequestId _ _ /.
#[local] Arguments with_activeThemeRequestId _ _ /.
#[local] Arguments with_pending _ _ /.
#[local] Arguments with_storage _ _ /.
#[local] Arguments with_event _ _ /.

Ltac run_m :=
  unfold bind, ret, emit, setState, setItem, modify, get, when, early_return,
    throw_error, throw, prop;
  cbn -[Qeq_bool Qle_bool].

Ltac run_np :=
  unfold bind, ret, emit, setState, setItem, modify, get, when, early_return,
    throw_error, throw;
  cbn -[Qeq_bool Qle_bool prop].

Lemma prop_nonnull x o : o <> JNull -> prop x o = ret (field x o).
Proof. destruct o; [congruence|reflexivity..]. Qed.

(** An event that was appended is in the trace. *)
Ltac in_trace :=
  repeat match goal with
         | |- In _ (_ ++ _) => apply in_or_app; first [right; left; reflexivity | left]
         end.

(** Case analysis on whatever the run branches on next. *)
Ltac branch :=
  match goal with
  | |- context [match ?x with _ => _ end] =>
      lazymatch x with
      | context [World] => fail
      | (_, _) => fail
      | _ => destruct x eqn:?
      end
  end.
Ltac crunch := run_m; repeat (branch; run_m).

(** The keys a step leaves alone keep their values. *)
Ltac lookup_through :=
  repeat (rewrite lookup_insert_ne by discriminate);
  first [rewrite lookup_insert_eq; reflexivity | reflexivity].

Lemma extends_ret {A} (a : A) : extends (ret a).
Proof. intros w. exists []. cbn. now rewrite app_nil_r. Qed.

Lemma extends_throw {A} err : extends (@throw A err).
Proof. intros w. exists []. cbn. now rewrite app_nil_r. Qed.

Lemma extends_early_return {A} : extends (@early_return A).
Proof. intros w. exists []. cbn. now rewrite app_nil_r. Qed.

Lemma extends_get : extends get.
Proof. intros w. exists []. cbn. now rewrite app_nil_r. Qed.

Lemma extends_modify f :
  (forall w, exists evs, trace (f w) = (trace w ++ evs)%list) -> extends (modify f).
Proof. intros H w. exact (H w). Qed.

Lemma extends_bind {A B} (m : M A) (k : A -> M B) :
  extends m -> (forall a, extends (k a)) -> extends (bind m k).
Proof.
  intros Hm Hk w. unfold bind. destruct (Hm w) as [evs Hevs].
  destruct (m w) as [[a|err|] w1]; cbn in *; try (now exists evs).
  destruct (Hk a w1) as [evs' Hevs']. exists (evs ++ evs')%list.
  now rewrite Hevs', Hevs, List.app_assoc.
Qed.

Lemma completes_modify f : completes (modify f).
Proof. intros w. now exists tt. Qed.

Lemma sends_emit ev : sends ev (emit ev).
Proof. intros w. cbn. apply in_or_app. right. now left. Qed.

Lemma sends_bind_l {A B} ev (m : M A) (k : A -> M B) :
  sends ev m -> (forall a, extends (k a)) -> sends ev (bind m k).
Proof.
  intros Hm Hk w. unfold bind. specialize (Hm w).
  destruct (m w) as [[a|err|] w1]; cbn in *; try assumption.
  destruct (Hk a w1) as [evs Hevs]. rewrite Hevs. apply in_or_app. now left.
Qed.

Lemma sends_bind_r {A B} ev (m : M A) (k : A -> M B) :
  completes m -> (forall a, sends ev (k a)) -> sends ev (bind m k).
Proof.
  intros Hm Hk w. unfold bind. destruct (Hm w) as [a Ha].
  destruct (m w) as [r w1]; cbn in Ha; subst r. apply Hk.
Qed.

Lemma sends_In {A} ev (m : M A) w : sends ev m -> In ev (trace (snd (m w))).
Proof. intros H. apply H. Qed.

(** The steps of a computation only add to the trace. *)
Ltac extends_steps :=
  repeat first
    [ apply extends_ret | apply extends_throw | apply extends_early_return
    | apply extends_get
    | apply extends_modify; intros ?;
      first [ exists (@nil event); cbn; now rewrite app_nil_r
            | eexists [_]; reflexivity ]
    | apply extends_bind; [|intros ?]
    | match goal with
      | |- extends (match ?x with _ => _ end) => destruct x
      end ].

(** Walk down to the [emit] of the event. *)
Ltac find_send :=
  repeat first
    [ apply sends_bind_l;
      [ apply sends_emit
      | intros ?; unfold setState, setItem, emit, throw_error; extends_steps ]
    | apply sends_bind_r; [apply completes_modify|intros ?] ].

Lemma reset_analysis_spec c id p w :
  exists w1,
    reset_analysis c id p w = (Val tt, w1)
    /\ trace w1 = (trace w ++ [Cleanup None])%list
    /\ hasRedirectedForLimit w1 = hasRedirectedForLimit w
    /\ sessionStorage w1
       = match user c with
         | None => if nonempty id then <["pendingVideoId" := id]> (sessionStorage w)
                   else sessionStorage w
         | Some _ => sessionStorage w
         end
    /\ view w1 !! "error" = Some (JStr "")
    /\ view w1 !! "isRateLimitError" = Some (JBool false)
    /\ view w1 !! "takeawaysContent" = Some JNull
    /\ view w1 !! "takeawaysError" = Some (JStr "")
    /\ view w1 !! "topics" = Some (JArr []).
Proof.
  unfold reset_analysis, storeCurrentVideoForAuth.
  destruct (user c) as [u|], (videoId c) as [v0|], (nonempty id); cbn;
    try destruct (String.eqb v0 id); cbn;
    (eexists; split; [reflexivity|]; cbn; repeat split; lookup_through).
Qed.

Lemma bind_val {A B} (m : M A) (k : A -> M B) w a w' :
  m w = (Val a, w') -> bind m k w = k a w'.
Proof. unfold bind. now intros ->. Qed.

Lemma bind_throw {A B} (m : M A) (k : A -> M B) w err w' :
  m w = (Throw err, w') -> bind m k w = (Throw err, w').
Proof. unfold bind. now intros ->. Qed.

Lemma bind_return {A B} (m : M A) (k : A -> M B) w w' :
  m w = (Return, w') -> bind m k w = (Return, w').
Proof. unfold bind. now intros ->. Qed.

Lemma check_cache_miss c e url id mode w :
  cache_miss (cache_fetch e) = true ->
  check_cache normalizeTranscript hydrateTopicsWithTranscript normalizeWhitespace Number
              c e url id mode w
  = (Val tt, with_event (Fetch "/api/check-video-cache" (JObj [("url", JStr url)])) w).
Proof.
  unfold check_cache, cache_miss. destruct (cache_fetch e) as [err|r]; [discriminate|].
  destruct (ok r); [|reflexivity].
  destruct (body r) as [[]|]; try discriminate; cbn;
    intros H; try (apply negb_true_iff in H; rewrite H); reflexivity.
Qed.




Abbreviation processVideo' :=
  (processVideo normalizeTranscript hydrateTopicsWithTranscript normalizeWhitespace Number).
Abbreviation processVideo_try' :=
  (processVideo_try normalizeTranscript hydrateTopicsWithTranscript normalizeWhitespace
                    Number).

(** The run up to the limit check, on the miss path. *)
Lemma processVideo_try_miss c e url mode w id p :
  extractVideoId url = Some id -> detectPlatform url = Some p -> nonempty id = true ->
  cache_miss (cache_fetch e) = true ->
  exists w1,
    reset_analysis c id p w = (Val tt, w1)
    /\ processVideo_try' c e url mode w
       = bind (limit_gate c e id)
              (fun _ => bind (fetch_inputs normalizeTranscript Number e url)
                 (fun inputs => generate hydrateTopicsWithTranscript normalizeWhitespace
                                         c e id mode (fst inputs) (snd inputs)))
              (with_event (Fetch "/api/check-video-cache" (JObj [("url", JStr url)])) w1).
Proof.
  intros Hid Hp Hne Hmiss.
  destruct (reset_analysis_spec c id p w) as (w1 & E1 & _).
  exists w1. split; [exact E1|].
  unfold processVideo_try. rewrite Hid, Hp, Hne. cbn [negb].
  rewrite (bind_val _ _ _ _ _ E1).
  now rewrite (bind_val _ _ _ _ _ (check_cache_miss c e url id mode w1 Hmiss)).
Qed.




(** The run passes the limit check. *)
Lemma limit_gate_open c e id w :
  limit_allows c (limit_fetch e) = true ->
  exists w',
    limit_gate c e id w = (Val tt, w')
    /\ trace w'
       = (trace w ++ match user c with
                     | Some _ => []
                     | None => [Fetch "/api/check-limit" JNull]
                     end)%list
    /\ hasRedirectedForLimit w' = hasRedirectedForLimit w
    /\ sessionStorage w' = sessionStorage w
    /\ (forall k, k <> "authLimitReached" -> k <> "rateLimitInfo" ->
                  view w' !! k = view w !! k).
Proof.
  unfold limit_allows, limit_gate, checkRateLimit, checkGenerationLimit.
  destruct (user c) as [u|] eqn:Hu.
  - intros Ha. apply negb_true_iff in Ha. rewrite Ha. run_m.
    eexists; split; [reflexivity|]. repeat split. now rewrite app_nil_r.
  - destruct (limit_fetch e) as [err|[st [data|]]].
    + run_m. rewrite Hu. destruct (remaining c) as [n|]; run_m;
        [intros Hn; apply negb_true_iff in Hn; rewrite Hn|intros _]; run_m;
        (eexists; split; [reflexivity|]; repeat split; cbn;
         intros k H1 H2; now rewrite lookup_insert_ne).
    + run_m. rewrite Hu.
      destruct (field "remaining" data) as [[| |n| | |]|] eqn:Hr; run_m; rewrite ?Hr; run_m;
        try (destruct (remaining c) as [n'|]; run_m);
        (intros Hn; try (apply negb_true_iff in Hn; rewrite Hn); run_m;
         eexists; split; [reflexivity|]; repeat split; cbn;
         intros k H1 H2; now rewrite ?lookup_insert_ne).
    + run_m. rewrite Hu. destruct (remaining c) as [n|]; run_m;
        [intros Hn; apply negb_true_iff in Hn; rewrite Hn|intros _]; run_m;
        (eexists; split; [reflexivity|]; repeat split; cbn;
         intros k H1 H2; now rewrite lookup_insert_ne).
Qed.

Lemma normalizeErrorMessage_nonempty m fallback :
  fallback <> "" -> normalizeErrorMessage m fallback <> "".
Proof.
  intros Hf. unfold normalizeErrorMessage.
  match goal with |- context [if ?b then _ else _] => destruct b end; [discriminate|].
  destruct (match m with Some m0 => Str.trim m0 | None => "" end) as [|ch t];
    [exact Hf | discriminate].
Qed.

(** The four events with which the two requests are started. *)
Lemma fetch_inputs_failed e url w :
  transcript_failed (transcript_fetch e) = true ->
  exists err w',
    fetch_inputs normalizeTranscript Number e url w = (Throw err, w')
    /\ trace w'
       = (trace w ++ [CreateController "transcript" (Some 300000%Z);
                      CreateController "videoInfo" (Some 100000%Z);
                      Fetch "/api/transcript" (JObj [("url", JStr url)]);
                      Fetch "/api/video-info" (JObj [("url", JStr url)])])%list
    /\ (forall k, k <> "pageState" -> k <> "loadingStage" -> view w' !! k = view w !! k)
    /\ (forall e0, transcript_fetch e = Rejected e0 -> is_abort e0 = true ->
                   message err = "字幕请求超时，请重试。").
Proof.
  unfold fetch_inputs, transcript_failed. destruct (transcript_fetch e) as [e0|r]; run_m.
  - intros _. destruct (is_abort e0) eqn:Ha; run_m;
      (do 2 eexists; split; [reflexivity|]; cbn; split;
       [now rewrite <- !List.app_assoc|]);
      (split; [intros; now rewrite !lookup_insert_ne by congruence|]);
      intros e1 [= <-] H; congruence.
  - intros Hok. apply negb_true_iff in Hok. rewrite Hok. run_m.
    do 2 eexists; split; [reflexivity|]; cbn. split; [now rewrite <- !List.app_assoc|].
    split; [intros; now rewrite !lookup_insert_ne by congruence|].
    intros e1 H. discriminate H.
Qed.

Lemma fetch_inputs_ready e url w r data :
  transcript_fetch e = Responded r -> ok r = true -> body r = Some data ->
  data <> JNull ->
  exists info w',
    fetch_inputs normalizeTranscript Number e url w
    = (Val (normalizeTranscript (field "transcript" data), info), w')
    /\ trace w'
       = (trace w ++ [CreateController "transcript" (Some 300000%Z);
                      CreateController "videoInfo" (Some 100000%Z);
                      Fetch "/api/transcript" (JObj [("url", JStr url)]);
                      Fetch "/api/video-info" (JObj [("url", JStr url)])])%list
    /\ hasRedirectedForLimit w' = hasRedirectedForLimit w
    /\ sessionStorage w' = sessionStorage w
    /\ (forall k, k <> "pageState" -> k <> "loadingStage" -> k <> "transcript" ->
                  k <> "videoInfo" -> k <> "videoDuration" ->
                  view w' !! k = view w !! k)
    /\ (metadata_failed (videoInfo_fetch e) = true ->
        info = None /\ view w' !! "videoInfo" = view w !! "videoInfo").
Proof.
  intros Hf Hok Hb Hnn. unfold fetch_inputs, setVideoDurationFrom, metadata_failed.
  rewrite Hf. run_m. rewrite Hok, Hb. run_m.
  assert (Hd : match data with
               | JNull => @None (option json)
               | _ => Some (field "transcript" data)
               end = Some (field "transcript" data)) by (destruct data; congruence).
  destruct data; try congruence; clear Hd; crunch.
  all: do 2 eexists; split; [reflexivity|]; cbn.
  all: split; [now rewrite <- !List.app_assoc|].
  all: repeat split; try discriminate.
  all: intros; try now rewrite ?lookup_insert_ne by congruence.
  all: exfalso;
    match goal with
    | H1 : truthy ?j && negb ?t = true, H2 : negb (truthy ?j) || ?t = true |- _ =>
        destruct (truthy j), t; discriminate
    end.
Qed.

Abbreviation generate' :=
  (generate hydrateTopicsWithTranscript normalizeWhitespace).

Lemma generate_topics_rejected c e id mode t info w err :
  topics_fetch e = Rejected err ->
  exists evs payload w',
    generate' c e id mode t info w = (Throw (JsError "Error" (topics_rejection err)), w')
    /\ trace w'
       = (trace w ++ evs ++ [Fetch "/api/generate-summary" payload; Abort "takeaways"])%list
    /\ (forall k, k <> "loadingStage" -> k <> "generationStartTime" ->
                  k <> "showChatTab" -> k <> "isGeneratingTakeaways" ->
                  view w' !! k = view w !! k).
Proof.
  intros Ht. unfold generate. rewrite Ht. run_m.
  all: eexists [_; _; _; _], _, _; split; [reflexivity|]; cbn.
  all: split; [now rewrite <- !List.app_assoc|].
  all: intros; now rewrite ?lookup_insert_ne by congruence.
Qed.

(** With no metadata, a run that gets its topics saves the placeholder. *)
Lemma generate_saves_placeholder c e id mode t w rt td cands :
  topics_fetch e = Responded rt -> ok rt = true -> body rt = Some td -> td <> JNull ->
  with_keys normalizeWhitespace
            (match field "topicCandidates" td with Some (JArr l) => l | _ => [] end)
  = Some cands ->
  summary_readable (takeaways_fetch e) = true ->
  exists summary w',
    generate' c e id mode t None w = (Val tt, w')
    /\ In (Fetch "/api/video-analysis"
                 (JObj [("videoId", JStr id); ("videoInfo", JNull); ("transcript", t);
                        ("model", JStr "gemini-2.5-flash"); ("mode", JStr mode)]))
          (trace w')
    /\ In (Background "save-complete-analysis" "/api/save-analysis"
                      (JObj [("videoId", JStr id);
                             ("videoInfo", placeholder_info id);
                             ("transcript", t);
                             ("topics",
                              hydrateTopicsWithTranscript
                                (array_or_empty (field "topics" td)) t);
                             ("summary", summary);
                             ("model", JStr "gemini-2.5-flash")]))
          (trace w')
    /\ view w' !! "error" = view w !! "error"
    /\ view w' !! "topics"
       = Some (hydrateTopicsWithTranscript (array_or_empty (field "topics" td)) t).
Proof.
  intros Ht Hok Hb Hnn Hk Hs. unfold generate, summary_readable in *.
  rewrite Ht.
  destruct (takeaways_fetch e) as [e0|r2]; [|destruct (ok r2), (body r2) as [sd|]];
    try discriminate.
  all: run_np; rewrite Hok, Hb; run_np.
  all: rewrite (prop_nonnull _ _ Hnn); run_np; rewrite Hk; run_np.
  all: try (rewrite prop_nonnull by (destruct sd; congruence); run_np).
  all: repeat (branch; run_np).
  all: do 2 eexists; split; [reflexivity|]; cbn.
  all: repeat split; try in_trace; lookup_through.
Qed.


Abbreviation begin' := (handleThemeSelect_begin hydrateTopicsWithTranscript normalizeWhitespace).
Abbreviation resume' := (handleThemeSelect_resume hydrateTopicsWithTranscript normalizeWhitespace).

Lemma begin_issues tc label w T r :
  fst (begin' tc label w) = Val (Some (T, r)) ->
  let w' := snd (begin' tc label w) in
  selectedThemeRef w' = Some T
  /\ activeThemeRequestIdRef w' = Some r
  /\ r = S (nextThemeRequestIdRef w)
  /\ nextThemeRequestIdRef w' = r
  /\ pendingThemeRequestsRef w !! T = None
  /\ pendingThemeRequestsRef w' = <[T := r]> (pendingThemeRequestsRef w)
  /\ view w' !! "topics" = view w !! "topics".
Proof.
  unfold handleThemeSelect_begin, resetToDefault, show_theme, update_entry.
  crunch.
  all: try discriminate.
  all: intros [= <- <-]; repeat split; auto; lookup_through.
Qed.


Abbreviation theme_try' := (theme_try hydrateTopicsWithTranscript normalizeWhitespace).
Abbreviation theme_catch' := (theme_catch normalizeWhitespace).

(** The [try] block touches three maps of the view and none of the refs;
    it does not leave the callback. *)
Lemma theme_try_frame tc T f w :
  exists r1 w1,
    theme_try' tc T f w = (r1, w1)
    /\ r1 <> Return
    /\ selectedThemeRef w1 = selectedThemeRef w
    /\ activeThemeRequestIdRef w1 = activeThemeRequestIdRef w
    /\ nextThemeRequestIdRef w1 = nextThemeRequestIdRef w
    /\ (forall k, k <> "themeCandidateMap" -> k <> "usedTopicKeys" ->
                  k <> "themeTopicsMap" -> view w1 !! k = view w !! k).
Proof.
  unfold theme_try, update_entry.
  destruct f as [err|rsp]; run_m;
    [|destruct (ok rsp); run_m; [destruct (body rsp) as [[]|]; run_m|]].
  all: do 2 eexists; split; [reflexivity|]; cbn.
  all: repeat split; try discriminate.
  all: intros; now rewrite ?lookup_insert_ne by congruence.
Qed.

Lemma theme_try_ok tc T rsp data w :
  ok rsp = true -> body rsp = Some data -> data <> JNull ->
  exists w1,
    theme_try' tc T (Responded rsp) w
    = (Val (hydrateTopicsWithTranscript (array_or_empty (field "topics" data))
                                        (t_transcript tc)), w1)
    /\ selectedThemeRef w1 = selectedThemeRef w
    /\ activeThemeRequestIdRef w1 = activeThemeRequestIdRef w.
Proof.
  intros Hok Hb Hn. unfold theme_try, update_entry. run_np. rewrite Hok, Hb. run_np.
  rewrite (prop_nonnull _ _ Hn). run_np. eexists. split; [reflexivity|]. now cbn.
Qed.

Lemma theme_catch_superseded tc T err w :
  selected_is w T = false -> theme_catch' tc T err w = (Return, w).
Proof.
  intros Hs. unfold theme_catch. destruct (is_abort err); [reflexivity|].
  run_m. now rewrite Hs.
Qed.

(** The [finally] block keeps the selected theme and, of the view, touches
    only the loading flag; for a theme that is not selected it keeps the
    active request too. *)
Lemma theme_finally_frame T r w :
  exists w',
    theme_finally T r w = (Val tt, w')
    /\ selectedThemeRef w' = selectedThemeRef w
    /\ nextThemeRequestIdRef w' = nextThemeRequestIdRef w
    /\ (forall k, k <> "isLoadingThemeTopics" -> view w' !! k = view w !! k)
    /\ (selected_is w T = false ->
        activeThemeRequestIdRef w' = activeThemeRequestIdRef w
        /\ view w' = view w).
Proof.
  unfold theme_finally, selected_is. run_m.
  match goal with |- context [if ?b then _ else _] => destruct b eqn:Hb end; run_m.
  all: eexists; split; [reflexivity|]; cbn; repeat split; auto.
  all: try (intros; now rewrite ?lookup_insert_ne by congruence).
  all: exfalso;
    match goal with H : _ = false |- _ => rewrite H, andb_false_r in Hb end;
    discriminate.
Qed.

Lemma show_theme_superseded T topics w :
  selected_is w T = false ->
  exists w',
    show_theme T topics w = (Return, w')
    /\ selectedThemeRef w' = selectedThemeRef w
    /\ activeThemeRequestIdRef w' = activeThemeRequestIdRef w
    /\ nextThemeRequestIdRef w' = nextThemeRequestIdRef w
    /\ (forall k, k <> "themeCandidateMap" -> view w' !! k = view w !! k).
Proof.
  intros Hs. unfold show_theme, update_entry, selected_is in *.
  destruct topics as [| | | |[|t0 l]|]; run_m; rewrite Hs; run_m.
  all: eexists; split; [reflexivity|]; cbn; repeat split.
  all: intros; now rewrite ?lookup_insert_ne by congruence.
Qed.

Lemma show_theme_current T topics w :
  selected_is w T = true ->
  exists w',
    show_theme T topics w = (Val tt, w')
    /\ selectedThemeRef w' = selectedThemeRef w
    /\ activeThemeRequestIdRef w' = activeThemeRequestIdRef w
    /\ view w' !! "topics" = Some topics.
Proof.
  intros Hs. unfold show_theme, update_entry, selected_is in *.
  destruct topics as [| | | |[|t0 l]|]; run_m; rewrite Hs; run_m.
  all: eexists; split; [reflexivity|]; cbn; repeat split; lookup_through.
Qed.

(** A response for a theme that is no longer the selected one changes
    neither what is shown nor which request is the active one. *)
Lemma resume_superseded tc T r f w :
  selected_is w T = false ->
  let w' := resume' tc T r f w in
  view w' !! "topics" = view w !! "topics"
  /\ view w' !! "selectedTopic" = view w !! "selectedTopic"
  /\ view w' !! "themeError" = view w !! "themeError"
  /\ view w' !! "selectedTheme" = view w !! "selectedTheme"
  /\ view w' !! "isLoadingThemeTopics" = view w !! "isLoadingThemeTopics"
  /\ selectedThemeRef w' = selectedThemeRef w
  /\ activeThemeRequestIdRef w' = activeThemeRequestIdRef w
  /\ nextThemeRequestIdRef w' = nextThemeRequestIdRef w.
Proof.
  intros Hs w'. subst w'. unfold handleThemeSelect_resume.
  destruct (theme_try_frame tc T f w) as (r1 & w1 & E1 & Hr1 & Hs1 & Ha1 & Hn1 & Hv1).
  rewrite E1.
  assert (Hsel1 : selected_is w1 T = false) by (unfold selected_is in *; now rewrite Hs1).
  destruct r1 as [topics|err|]; [| |congruence].
  - destruct (theme_finally_frame T r w1) as (w3 & E3 & Hs3 & Hn3 & _ & Hsup).
    destruct (Hsup Hsel1) as [Ha3 Hv3]. rewrite E3. cbn [snd].
    assert (Hsel3 : selected_is w3 T = false) by (unfold selected_is in *; now rewrite Hs3).
    destruct (show_theme_superseded T (if truthy topics then topics else JArr []) w3 Hsel3)
      as (w4 & E4 & Hs4 & Ha4 & Hn4 & Hv4).
    rewrite E4. cbn [snd].
    rewrite Hs4, Ha4, Hn4, Hs3, Ha3, Hn3, Hs1, Ha1, Hn1, !Hv4, Hv3, !Hv1 by discriminate.
    repeat split.
  - rewrite (theme_catch_superseded tc T err w1 Hsel1).
    destruct (theme_finally_frame T r w1) as (w3 & E3 & Hs3 & Hn3 & _ & Hsup).
    destruct (Hsup Hsel1) as [Ha3 Hv3]. rewrite E3. cbn [snd].
    rewrite Hs3, Ha3, Hn3, Hs1, Ha1, Hn1, Hv3, !Hv1 by discriminate.
    repeat split.
Qed.

(** The response for the selected theme is what is shown. *)
Lemma resume_current tc T r rsp data w :
  selected_is w T = true ->
  ok rsp = true -> body rsp = Some data -> data <> JNull ->
  let w' := resume' tc T r (Responded rsp) w in
  view w' !! "topics" = Some (shown_topics hydrateTopicsWithTranscript tc data)
  /\ selectedThemeRef w' = selectedThemeRef w.
Proof.
  intros Hs Hok Hb Hn w'. subst w'. unfold handleThemeSelect_resume.
  destruct (theme_try_ok tc T rsp data w Hok Hb Hn) as (w1 & E1 & Hs1 & _).
  rewrite E1.
  destruct (theme_finally_frame T r w1) as (w3 & E3 & Hs3 & _).
  rewrite E3. cbn [snd].
  assert (Hsel3 : selected_is w3 T = true)
    by (unfold selected_is in *; now rewrite Hs3, Hs1).
  destruct (show_theme_current T
              (if truthy (hydrateTopicsWithTranscript
                            (array_or_empty (field "topics" data)) (t_transcript tc))
               then hydrateTopicsWithTranscript
                      (array_or_empty (field "topics" data)) (t_transcript tc)
               else JArr []) w3 Hsel3) as (w4 & E4 & Hs4 & _ & Hv4).
  rewrite E4. cbn [snd]. split; [exact Hv4|]. now rewrite Hs4, Hs3, Hs1.
Qed.


(** Whatever comes of them, the two generation requests are sent. *)
Lemma generate_requests c e id mode t info w :
  let w' := snd (generate' c e id mode t info w) in
  In (Fetch "/api/video-analysis"
            (JObj [("videoId", JStr id); ("videoInfo", or_null info); ("transcript", t);
                   ("model", JStr "gemini-2.5-flash"); ("mode", JStr mode)]))
     (trace w')
  /\ In (Fetch "/api/generate-summary"
               (JObj [("transcript", t); ("videoInfo", or_null info);
                      ("videoId", JStr id)]))
        (trace w').
Proof.
  split; apply sends_In;
    unfold generate, redirectToAuthForLimit, storeCurrentVideoForAuth, when, prop;
    cbv zeta; find_send.
Qed.


(** A run on the miss path that passes the limit check, up to the two
    input requests. *)
Lemma processVideo_try_inputs c e url mode w id p :
  extractVideoId url = Some id -> detectPlatform url = Some p -> nonempty id = true ->
  cache_miss (cache_fetch e) = true ->
  limit_allows c (limit_fetch e) = true ->
  exists w2,
    processVideo_try' c e url mode w
    = bind (fetch_inputs normalizeTranscript Number e url)
           (fun inputs => generate' c e id mode (fst inputs) (snd inputs)) w2
    /\ trace w2
       = (trace w ++ [Cleanup None;
                      Fetch "/api/check-video-cache" (JObj [("url", JStr url)])]
                  ++ gate_events c)%list
    /\ view w2 !! "error" = Some (JStr "")
    /\ view w2 !! "takeawaysContent" = Some JNull
    /\ view w2 !! "takeawaysError" = Some (JStr "")
    /\ view w2 !! "topics" = Some (JArr []).
Proof.
  intros Hid Hp Hne Hmiss Hallow.
  destruct (processVideo_try_miss c e url mode w id p Hid Hp Hne Hmiss) as (w1 & E1 & Etry).
  destruct (reset_analysis_spec c id p w)
    as (w1' & E1' & Ht1 & _ & _ & Hv1 & _ & Hv2 & Hv3 & Hv4).
  rewrite E1 in E1'. injection E1' as <-.
  destruct (limit_gate_open c e id
              (with_event (Fetch "/api/check-video-cache" (JObj [("url", JStr url)])) w1)
              Hallow) as (w2 & E2 & Ht2 & _ & _ & Hv).
  exists w2. rewrite Etry, (bind_val _ _ _ _ _ E2). split; [reflexivity|].
  rewrite Ht2, !Hv by discriminate. cbn. rewrite Ht1.
  repeat split; try assumption. unfold gate_events. now rewrite <- !List.app_assoc.
Qed.

Lemma topics_rejection_kept err :
  normalizeErrorMessage (Some (topics_rejection err)) "An error occurred"
  = topics_rejection err.
Proof. unfold topics_rejection. destruct (is_abort err); vm_compute; reflexivity. Qed.

(** Claim C6. On the miss path, when the request for the topics is
    rejected, the run aborts the summary request, which is the last thing
    it does, and ends with the error of the topics request as the error of
    the page; however the summary request would have settled, no summary
    and no summary error is shown. *)
Theorem topics_rejection_aborts_summary c e url mode w id p r data err :
  extractVideoId url = Some id -> detectPlatform url = Some p -> nonempty id = true ->
  cache_miss (cache_fetch e) = true ->
  limit_allows c (limit_fetch e) = true ->
  transcript_fetch e = Responded r -> ok r = true -> body r = Some data ->
  data <> JNull ->
  topics_fetch e = Rejected err ->
  let w' := processVideo' c e url mode w in
  (exists evs payload,
     trace w' = (trace w ++ evs ++ [Fetch "/api/generate-summary" payload;
                                    Abort "takeaways"])%list)
  /\ view w' !! "error" = Some (JStr (topics_rejection err))
  /\ view w' !! "takeawaysContent" = Some JNull
  /\ view w' !! "takeawaysError" = Some (JStr "")
  /\ view w' !! "topics" = Some (JArr [])
  /\ view w' !! "isGeneratingTakeaways" = Some (JBool false)
  /\ view w' !! "pageState" = Some (JStr "IDLE").
Proof.
  intros Hid Hp Hne Hmiss Hallow Hf Hok Hb Hnn Ht w'. subst w'.
  destruct (processVideo_try_inputs c e url mode w id p Hid Hp Hne Hmiss Hallow)
    as (w2 & Etry & Ht2 & Hv1 & Hv2 & Hv3 & Hv4).
  destruct (fetch_inputs_ready e url w2 r data Hf Hok Hb Hnn)
    as (info & w3 & E3 & Ht3 & _ & _ & Hv & _).
  destruct (generate_topics_rejected c e id mode
              (normalizeTranscript (field "transcript" data)) info w3 err Ht)
    as (evs & payload & w4 & E4 & Ht4 & Hv').
  unfold processVideo. rewrite Etry, (bind_val _ _ _ _ _ E3). cbn [fst snd].
  rewrite E4. cbn [message]. rewrite topics_rejection_kept.
  cbn [view trace with_view].
  split.
  - rewrite Ht4, Ht3, Ht2. rewrite <- !List.app_assoc.
    eexists (_ :: _ :: gate_events c ++ _ :: _ :: _ :: _ :: evs)%list, payload.
    cbn [List.app]. now rewrite <- !List.app_assoc.
  - repeat split; repeat (rewrite lookup_insert_ne by discriminate);
      rewrite ?lookup_insert_eq; try reflexivity;
      rewrite Hv', Hv by discriminate; assumption.
Qed.


Lemma route_placeholder up url p vid :
  url <> "" -> detectPlatform url = Some p -> extractVideoId url = Some vid ->
  VideoInfoRoute.provider_failed up p vid = true ->
  VideoInfoRoute.handler up url = VideoInfoRoute.json_response (VideoInfoRoute.placeholder p vid).
Proof.
  intros Hu Hp Hid. unfold VideoInfoRoute.handler, VideoInfoRoute.provider_failed, VideoInfoRoute.placeholder.
  destruct (String.eqb_spec url ""); [contradiction|]. rewrite Hp, Hid.
  destruct p.
  - destruct (VideoInfoRoute.supadata_attempt up vid); [discriminate|].
    unfold VideoInfoRoute.oembed_fallback.
    destruct (VideoInfoRoute.oembed up vid) as [err|r]; [reflexivity|].
    destruct (ok r); [|reflexivity]. destruct (body r) as [d|]; [|reflexivity].
    destruct (VideoInfoRoute.throws_on_read d); [reflexivity | discriminate].
  - destruct (VideoInfoRoute.bilibili_view up vid); [discriminate|reflexivity].
Qed.

(** Claim C7. On the miss path a transcript request that fails (it is
    rejected, by a network error or by the timeout, or answers an error
    status) ends the run: the two input requests are the last ones sent,
    an error that is not empty is shown and there are no topics. A
    metadata request that fails does not end it: with a transcript at
    hand both generation requests are sent, with no video information,
    and when the topics arrive they are shown, no error is shown, and the
    analysis is saved with placeholder values in place of the video
    information: the title [YouTube Video] followed by the identifier, the
    author [Unknown], the duration 0 and an empty thumbnail. The metadata
    route itself answers 200 with placeholder values when its providers
    fail: for YouTube the title [YouTube Video], the author [Unknown] and
    the thumbnail address made from the identifier, for Bilibili the title
    and the author it has for an unknown video and an empty thumbnail, and
    for both a [null] duration. *)
Theorem transcript_failure_ends_run_metadata_failure_does_not
        c e url mode w id p :
  extractVideoId url = Some id -> detectPlatform url = Some p -> nonempty id = true ->
  cache_miss (cache_fetch e) = true ->
  limit_allows c (limit_fetch e) = true ->
  let w' := processVideo' c e url mode w in
  (transcript_failed (transcript_fetch e) = true ->
   trace w'
   = (trace w ++ [Cleanup None;
                  Fetch "/api/check-video-cache" (JObj [("url", JStr url)])]
              ++ gate_events c
              ++ [CreateController "transcript" (Some 300000%Z);
                  CreateController "videoInfo" (Some 100000%Z);
                  Fetch "/api/transcript" (JObj [("url", JStr url)]);
                  Fetch "/api/video-info" (JObj [("url", JStr url)])])%list
   /\ (exists m, view w' !! "error" = Some (JStr m) /\ m <> "")
   /\ view w' !! "topics" = Some (JArr [])
   /\ view w' !! "pageState" = Some (JStr "IDLE"))
  /\ (forall r data,
        transcript_fetch e = Responded r -> ok r = true -> body r = Some data ->
        data <> JNull ->
        metadata_failed (videoInfo_fetch e) = true ->
        let t := normalizeTranscript (field "transcript" data) in
        In (Fetch "/api/video-analysis"
                  (JObj [("videoId", JStr id); ("videoInfo", JNull); ("transcript", t);
                         ("model", JStr "gemini-2.5-flash"); ("mode", JStr mode)]))
           (trace w')
        /\ In (Fetch "/api/generate-summary"
                     (JObj [("transcript", t); ("videoInfo", JNull);
                            ("videoId", JStr id)]))
              (trace w')
        /\ (forall rt td cands,
              topics_fetch e = Responded rt -> ok rt = true -> body rt = Some td ->
              td <> JNull ->
              with_keys normalizeWhitespace
                        (match field "topicCandidates" td with
                         | Some (JArr l) => l
                         | _ => []
                         end) = Some cands ->
              summary_readable (takeaways_fetch e) = true ->
              let topics :=
                hydrateTopicsWithTranscript (array_or_empty (field "topics" td)) t in
              (exists summary,
                 In (Background "save-complete-analysis" "/api/save-analysis"
                       (JObj [("videoId", JStr id);
                              ("videoInfo",
                               JObj [("title", JStr ("YouTube Video " ++ id));
                                     ("author", JStr "Unknown");
                                     ("duration", JNum 0);
                                     ("thumbnail", JStr "")]);
                              ("transcript", t);
                              ("topics", topics);
                              ("summary", summary);
                              ("model", JStr "gemini-2.5-flash")]))
                    (trace w'))
              /\ view w' !! "error" = Some (JStr "")
              /\ view w' !! "topics" = Some topics))
  /\ (forall up,
        url <> "" -> VideoInfoRoute.provider_failed up p id = true ->
        VideoInfoRoute.handler up url
        = Response 200
            (Some (match p with
                   | youtube =>
                       JObj [("videoId", JStr id); ("title", JStr "YouTube Video");
                             ("author", JStr "Unknown");
                             ("thumbnail",
                              JStr ("https://img.youtube.com/vi/" ++ id
                                    ++ "/maxresdefault.jpg"));
                             ("duration", JNull); ("platform", JStr "youtube")]
                   | bilibili =>
                       JObj [("videoId", JStr id); ("title", JStr "Bilibili视频");
                             ("author", JStr "未知"); ("thumbnail", JStr "");
                             ("duration", JNull); ("platform", JStr "bilibili")]
                   end))).
Proof.
  intros Hid Hp Hne Hmiss Hallow w'. subst w'.
  destruct (processVideo_try_inputs c e url mode w id p Hid Hp Hne Hmiss Hallow)
    as (w2 & Etry & Ht2 & Hv1 & Hv2 & Hv3 & Hv4).
  split; [|split].
  - intros Hfail. unfold processVideo. rewrite Etry.
    destruct (fetch_inputs_failed e url w2 Hfail) as (err & w3 & E3 & Ht3 & Hv & _).
    rewrite (bind_throw _ _ _ _ _ E3). cbn [view trace with_view].
    rewrite Ht3, Ht2. repeat split.
    + now rewrite <- !List.app_assoc.
    + eexists. split; [lookup_through|].
      apply normalizeErrorMessage_nonempty. discriminate.
    + repeat (rewrite lookup_insert_ne by discriminate). now rewrite Hv by discriminate.
    + lookup_through.
  - intros r data Hf Hok Hb Hnn Hmeta t.
    destruct (fetch_inputs_ready e url w2 r data Hf Hok Hb Hnn)
      as (info & w3 & E3 & Ht3 & _ & _ & Hv & Hinfo).
    destruct (Hinfo Hmeta) as [-> _]. fold t in E3.
    unfold processVideo. rewrite Etry, (bind_val _ _ _ _ _ E3). cbn [fst snd].
    pose proof (generate_requests c e id mode t None w3) as Hreq.
    destruct (generate' c e id mode t None w3) as [res w4] eqn:E4.
    cbn [snd or_null] in Hreq.
    assert (Htr : forall w5 f, trace (with_view f w5) = trace w5) by reflexivity.
    split; [|split].
    + rewrite Htr. destruct res; apply Hreq.
    + rewrite Htr. destruct res; apply Hreq.
    + intros rt td cands Hrt Hokt Hbt Hnt Hk Hs. cbv zeta.
      destruct (generate_saves_placeholder c e id mode t w3 rt td cands
                  Hrt Hokt Hbt Hnt Hk Hs) as (summary & w4' & E4' & _ & Hsave & He & Htop).
      rewrite E4 in E4'. injection E4' as -> ->.
      cbn [view trace with_view]. split; [|split].
      * exists summary. exact Hsave.
      * repeat (rewrite lookup_insert_ne by discriminate).
        now rewrite He, Hv by discriminate.
      * repeat (rewrite lookup_insert_ne by discriminate). exact Htop.
  - intros up Hu Hfailed. rewrite (route_placeholder up url p id Hu Hp Hid Hfailed).
    now destruct p.
Qed.



(** Claim C8. When a request is issued for theme A and then, before it is
    answered, one for theme B, the two themes differ, B's request has the
    larger number and is the active one; the answer to A's request,
    whatever it is, leaves the topics on display as they are; and the
    answer to B's request puts B's topics on display, whether A's answer
    comes before it or after it. *)
Theorem superseded_theme_response_is_discarded
        tcA tcB la lb w0 a ra b rb fA rspB data :
  fst (begin' tcA la w0) = Val (Some (a, ra)) ->
  let w1 := snd (begin' tcA la w0) in
  fst (begin' tcB lb w1) = Val (Some (b, rb)) ->
  let w2 := snd (begin' tcB lb w1) in
  ok rspB = true -> body rspB = Some data -> data <> JNull ->
  a <> b /\ ra < rb
  /\ activeThemeRequestIdRef w2 = Some rb
  /\ view (resume' tcA a ra fA w2) !! "topics" = view w2 !! "topics"
  /\ view (resume' tcB b rb (Responded rspB) (resume' tcA a ra fA w2)) !! "topics"
     = Some (shown_topics hydrateTopicsWithTranscript tcB data)
  /\ view (resume' tcA a ra fA (resume' tcB b rb (Responded rspB) w2)) !! "topics"
     = Some (shown_topics hydrateTopicsWithTranscript tcB data).
Proof.
  intros HA w1 HB w2 Hok Hb Hn.
  destruct (begin_issues tcA la w0 a ra HA) as (_ & _ & Hra & Hn1 & _ & Hp1 & _).
  destruct (begin_issues tcB lb w1 b rb HB) as (Hs2 & Ha2 & Hrb & _ & Hp2 & _ & _).
  fold w1 in Hn1, Hp1. fold w2 in Hs2, Ha2.
  assert (Hab : a <> b).
  { intros ->. rewrite Hp1, lookup_insert_eq in Hp2. discriminate. }
  assert (HselA : selected_is w2 a = false).
  { unfold selected_is. rewrite Hs2. apply String.eqb_neq. congruence. }
  assert (HselB : selected_is w2 b = true).
  { unfold selected_is. rewrite Hs2. apply String.eqb_refl. }
  destruct (resume_superseded tcA a ra fA w2 HselA)
    as (Ht & _ & _ & _ & _ & Hs & _ & _).
  repeat split; try assumption.
  - lia.
  - apply resume_current; try assumption.
    unfold selected_is in *. now rewrite Hs.
  - destruct (resume_current tcB b rb rspB data w2 HselB Hok Hb Hn) as [Ht' Hs'].
    destruct (resume_superseded tcA a ra fA (resume' tcB b rb (Responded rspB) w2))
      as (Ht'' & _).
    + unfold selected_is in *. now rewrite Hs'.
    + now rewrite Ht''.
Qed.

End PageFacts.

Section PageWitnesses.
Import Json Http Urls Page.


Lemma topics_rejection_aborts_summary_witness :
  let e := sample_env unreachable (answer (JObj [("transcript", JArr [JStr "hello"])]))
                      unreachable unreachable
                      (answer (JObj [("summaryContent", JStr "a late summary")])) in
  (exists evs payload,
     trace (sample_run member e)
     = (evs ++ [Fetch "/api/generate-summary" payload; Abort "takeaways"])%list)
  /\ view (sample_run member e) !! "error"
     = Some (JStr "网络错误：无法生成主题。请检查您的连接。")
  /\ view (sample_run member e) !! "takeawaysContent" = Some JNull.
Proof.
  intros e.
  unshelve epose proof
    (topics_rejection_aborts_summary
       or_null (fun topics _ => topics) (fun s => s) (fun _ => 0%Q)
       member e sample_url "smart" idle "BV1xx411c7mD" bilibili
       (Response 200 (Some (JObj [("transcript", JArr [JStr "hello"])])))
       (JObj [("transcript", JArr [JStr "hello"])])
       (JsError "TypeError" "Failed to fetch")
       _ _ _ _ _ _ _ _ _ _) as H; try (vm_compute; reflexivity); try discriminate.
  destruct H as (H1 & H2 & H3 & _).
  exact (conj H1 (conj H2 H3)).
Defined.

Lemma transcript_failure_ends_run_metadata_failure_does_not_witness :
  let lost := sample_env unreachable unreachable unreachable unreachable unreachable in
  let bare := sample_env unreachable
                         (answer (JObj [("transcript", JArr [JStr "hello"])]))
                         unreachable
                         (answer (JObj [("topics", JArr [JStr "a topic"])]))
                         (answer (JObj [("summaryContent", JStr "a summary")])) in
  let down := VideoInfoRoute.Upstream (fun _ => None) false
                                      (fun _ => unreachable) (fun _ => unreachable) in
  (trace (sample_run member lost)
   = [Cleanup None;
      Fetch "/api/check-video-cache" (JObj [("url", JStr sample_url)]);
      CreateController "transcript" (Some 300000%Z);
      CreateController "videoInfo" (Some 100000%Z);
      Fetch "/api/transcript" (JObj [("url", JStr sample_url)]);
      Fetch "/api/video-info" (JObj [("url", JStr sample_url)])]
   /\ view (sample_run member lost) !! "topics" = Some (JArr []))
  /\ (In (Fetch "/api/video-analysis"
                (JObj [("videoId", JStr "BV1xx411c7mD"); ("videoInfo", JNull);
                       ("transcript", JArr [JStr "hello"]);
                       ("model", JStr "gemini-2.5-flash"); ("mode", JStr "smart")]))
         (trace (sample_run member bare))
      /\ (exists summary,
            In (Background "save-complete-analysis" "/api/save-analysis"
                  (JObj [("videoId", JStr "BV1xx411c7mD");
                         ("videoInfo",
                          JObj [("title", JStr "YouTube Video BV1xx411c7mD");
                                ("author", JStr "Unknown"); ("duration", JNum 0);
                                ("thumbnail", JStr "")]);
                         ("transcript", JArr [JStr "hello"]);
                         ("topics", JArr [JStr "a topic"]);
                         ("summary", summary);
                         ("model", JStr "gemini-2.5-flash")]))
               (trace (sample_run member bare)))
      /\ view (sample_run member bare) !! "error" = Some (JStr "")
      /\ view (sample_run member bare) !! "topics" = Some (JArr [JStr "a topic"]))
  /\ VideoInfoRoute.handler down sample_url
     = Response 200
         (Some (JObj [("videoId", JStr "BV1xx411c7mD"); ("title", JStr "Bilibili视频");
                      ("author", JStr "未知"); ("thumbnail", JStr "");
                      ("duration", JNull); ("platform", JStr "bilibili")])).
Proof.
  intros lost bare down.
  unshelve epose proof
    (transcript_failure_ends_run_metadata_failure_does_not
       or_null (fun topics _ => topics) (fun s => s) (fun _ => 0%Q)
       member lost sample_url "smart" idle "BV1xx411c7mD" bilibili
       _ _ _ _ _) as HL; try (vm_compute; reflexivity).
  unshelve epose proof
    (transcript_failure_ends_run_metadata_failure_does_not
       or_null (fun topics _ => topics) (fun s => s) (fun _ => 0%Q)
       member bare sample_url "smart" idle "BV1xx411c7mD" bilibili
       _ _ _ _ _) as HB; try (vm_compute; reflexivity).
  destruct HL as (HL & _ & HR). destruct HB as (_ & HB & _).
  destruct (HL eq_refl) as (HL1 & _ & HL3 & _).
  unshelve epose proof
    (HB (Response 200 (Some (JObj [("transcript", JArr [JStr "hello"])])))
        (JObj [("transcript", JArr [JStr "hello"])]) _ _ _ _ _) as (HB1 & _ & HB3);
    try (vm_compute; reflexivity); try discriminate.
  unshelve epose proof
    (HB3 (Response 200 (Some (JObj [("topics", JArr [JStr "a topic"])])))
         (JObj [("topics", JArr [JStr "a topic"])]) [] _ _ _ _ _ _) as (HB6 & HB4 & HB5);
    try (vm_compute; reflexivity); try discriminate.
  refine (conj (conj HL1 HL3) (conj (conj HB1 (conj HB6 (conj HB4 HB5))) (HR down _ _)));
    [discriminate | vm_compute; reflexivity].
Defined.

Lemma superseded_theme_response_is_discarded_witness :
  let tc := ThemeClosure (Some "BV1xx411c7mD") JNull (JArr []) None (JArr [])
                         (JObj []) [] "smart" in
  let begin := handleThemeSelect_begin (fun topics _ => topics) (fun s => s) tc in
  let resume := handleThemeSelect_resume (fun topics _ => topics) (fun s => s) tc in
  let w2 := snd (begin (Some "Science") (snd (begin (Some "History") idle))) in
  let answerA := answer (JObj [("topics", JArr [JStr "a history topic"])]) in
  let answerB := answer (JObj [("topics", JArr [JStr "a science topic"])]) in
  view (resume "History" 1 answerA w2) !! "topics" = view w2 !! "topics"
  /\ view (resume "Science" 2 answerB (resume "History" 1 answerA w2)) !! "topics"
     = Some (JArr [JStr "a science topic"])
  /\ view (resume "History" 1 answerA (resume "Science" 2 answerB w2)) !! "topics"
     = Some (JArr [JStr "a science topic"]).
Proof.
  intros tc begin resume w2 answerA answerB.
  unshelve epose proof
    (superseded_theme_response_is_discarded
       (fun topics _ => topics) (fun s => s) tc tc (Some "History") (Some "Science")
       idle "History" 1 "Science" 2 answerA
       (Response 200 (Some (JObj [("topics", JArr [JStr "a science topic"])])))
       (JObj [("topics", JArr [JStr "a science topic"])])
       _ _ _ _ _) as H; try (vm_compute; reflexivity); try discriminate.
  destruct H as (_ & _ & _ & H1 & H2 & H3).
  exact (conj H1 (conj H2 H3)).
Defined.

End PageWitnesses.

(* ================================================================== *)
(** * What the patterns match *)

Section LangFacts.
Import Regex Urls Lang.

Lemma star_loop_sound {A} p (k : string -> option A) s a :
  star_loop p k s = Some a ->
  exists w s', s = w ++ s' /\ Str.all p w = true /\ k s' = Some a.
Proof.
  revert a. induction s as [|c s IH]; intros a; simpl.
  - intros H. now exists "", "".
  - destruct (p c) eqn:Hc.
    + destruct (star_loop p k s) as [r|] eqn:E.
      * intros [= <-]. destruct (IH r eq_refl) as (w & s' & -> & Hw & Hk).
        exists (String c w), s'. simpl. now rewrite Hc, Hw.
      * intros H. now exists "", (String c s).
    + intros H. now exists "", (String c s).
Qed.

(** What the matcher accepts is in the language: the continuation is
    called on what is left after a word of the language. *)
Lemma run_sound {A} ci r : forall s cap (k : string -> option string -> option A) a,
  run ci r s cap k = Some a ->
  exists w s' cap', s = w ++ s' /\ lang ci r w /\ k s' cap' = Some a.
Proof.
  induction r as [|c|p|r1 IH1 r2 IH2|r1 IH1 r2 IH2|p|r1 IH1]; intros s cap k a; simpl.
  - intros H. now exists "", s, cap.
  - destruct s as [|x s]; [discriminate|]. destruct (chr_eq ci c x) eqn:E; [|discriminate].
    intros H. exists (String x ""), s, cap. repeat split; eauto.
  - destruct s as [|x s]; [discriminate|]. destruct (cls_in ci p x) eqn:E; [|discriminate].
    intros H. exists (String x ""), s, cap. repeat split; eauto.
  - intros H. destruct (IH1 _ _ _ _ H) as (w1 & s1 & c1 & -> & L1 & H1).
    destruct (IH2 _ _ _ _ H1) as (w2 & s2 & c2 & -> & L2 & H2).
    exists (w1 ++ w2), s2, c2. rewrite app_assoc_s. repeat split; eauto.
  - destruct (run ci r1 s cap k) as [a'|] eqn:E.
    + intros [= <-]. destruct (IH1 _ _ _ _ E) as (w & s' & c' & -> & L & H).
      exists w, s', c'. repeat split; auto.
    + intros H. destruct (IH2 _ _ _ _ H) as (w & s' & c' & -> & L & H').
      exists w, s', c'. repeat split; auto.
  - intros H. destruct (star_loop_sound _ _ _ _ H) as (w & s' & -> & Hw & Hk).
    now exists w, s', cap.
  - intros H. destruct (IH1 _ _ _ _ H) as (w & s' & c' & -> & L & H').
    exists w, s', (Some (Str.consumed (w ++ s') s')). repeat split; auto.
Qed.

(** A match of [prefix(group)]: the group is a word of the group's
    language that stands in the string right after a word of the prefix. *)
Lemma group_sound ci pre body s m :
  match_here ci (Seq pre (Cap body)) s = Some m ->
  exists w1 w2 rest,
    s = w1 ++ w2 ++ rest /\ lang ci pre w1 /\ lang ci body w2 /\ group1 m = Some w2.
Proof.
  unfold match_here. cbn [run]. intros H.
  destruct (run_sound _ _ _ _ _ _ H) as (w1 & s1 & c1 & -> & L1 & H1).
  destruct (run_sound _ _ _ _ _ _ H1) as (w2 & s2 & c2 & -> & L2 & H2).
  injection H2 as <-. exists w1, w2, s2. repeat split; auto.
  cbn [group1]. f_equal. apply consumed_app.
Qed.

Lemma search_sound ci r s m :
  search ci r s = Some m -> exists skipped s0, s = skipped ++ s0 /\ match_here ci r s0 = Some m.
Proof.
  induction s as [|c s IH]; simpl.
  - destruct (match_here ci r "") eqn:E; [|discriminate]. intros [= <-]. now exists "", "".
  - destruct (match_here ci r (String c s)) eqn:E.
    + intros [= <-]. now exists "", (String c s).
    + intros H. destruct (IH H) as (sk & s0 & -> & Hm). now exists (String c sk), s0.
Qed.

End LangFacts.

Section ShapeFacts.
Import Regex Urls Lang.

Lemma chr_eq_false_eq c x : chr_eq false c x = true -> x = c.
Proof. unfold chr_eq. intros H. apply Ascii.eqb_eq in H. congruence. Qed.

Lemma lang_lit_exact l w : lang false (lit l) w -> w = l.
Proof.
  revert w. induction l as [|c l IH]; intros w; simpl.
  - auto.
  - intros (w1 & w2 & -> & (x & -> & Hx) & H2).
    apply chr_eq_false_eq in Hx. subst x. simpl. f_equal. now apply IH.
Qed.

(** A word of a literal read with the [i] flag starts with it, letter
    case apart. *)
Lemma lang_lit_strip ci l w rest :
  lang ci (lit l) w -> Str.strip (chr_eq ci) l (w ++ rest) = Some rest.
Proof.
  revert w. induction l as [|c l IH]; intros w; simpl.
  - now intros ->.
  - intros (w1 & w2 & -> & (x & -> & Hx) & H2). simpl. rewrite Hx. now apply IH.
Qed.

Lemma lang_rep_cls n p w :
  lang false (rep n (Cls p)) w -> String.length w = n /\ Str.all p w = true.
Proof.
  revert w. induction n as [|n IH]; intros w; simpl.
  - now intros ->.
  - intros (w1 & w2 & -> & (x & -> & Hx) & H2). destruct (IH _ H2) as [Hl Ha].
    simpl. unfold cls_in in Hx. now rewrite Hl, Hx, Ha.
Qed.

Lemma lang_plus ci p w :
  lang ci (plus p) w -> w <> "" /\ Str.all (cls_in ci p) w = true.
Proof.
  unfold plus. simpl. intros (w1 & w2 & -> & (x & -> & Hx) & H2). simpl.
  split; [discriminate|]. now rewrite Hx, H2.
Qed.

Lemma all_ext p q (s : string) :
  (forall c, p c = q c) -> Str.all p s = Str.all q s.
Proof. intros H. induction s as [|c s IH]; simpl; [reflexivity|]. now rewrite H, IH. Qed.

Lemma lang_bv_group w : lang true (Seq (lit "BV") (plus alnum)) w -> bv_id w = true.
Proof.
  intros (w1 & w2 & -> & H1 & H2).
  cbn [lit lang] in H1.
  destruct H1 as (a & b & -> & (x & -> & Hx) & (a' & b' & -> & (y & -> & Hy) & ->)).
  apply lang_plus in H2 as [Hne Hall]. cbn -[chr_eq Str.all String.eqb]. rewrite Hx, Hy.
  rewrite (all_ext _ _ _ cls_alnum) in Hall. rewrite (all_ext _ Str.is_alnum) in Hall by reflexivity.
  rewrite Hall. destruct w2; [contradiction|reflexivity].
Qed.

Lemma lang_av_group w : lang true (plus digit) w -> av_id w = true.
Proof.
  intros H. apply lang_plus in H as [Hne Hall]. unfold av_id.
  rewrite (all_ext _ _ _ cls_digit) in Hall.
  rewrite (all_ext _ Str.is_digit) in Hall by reflexivity. rewrite Hall.
  destruct w; [contradiction|reflexivity].
Qed.

Lemma occurs_tail ceq c l (s : string) :
  Str.occurs ceq (String c l) s = true -> Str.occurs ceq l s = true.
Proof.
  induction s as [|x s IH]; cbn [Str.occurs Str.strip]; [discriminate|].
  destruct (ceq c x).
  - destruct (Str.strip ceq l s) eqn:E.
    + intros _. destruct (Str.strip ceq l (String x s)); [reflexivity|].
      destruct s; simpl in *; now rewrite E.
    + intros H. rewrite (IH H). now destruct (Str.strip ceq l (String x s)).
  - intros H. rewrite (IH H). now destruct (Str.strip ceq l (String x s)).
Qed.

(** A match of one of the Bilibili patterns: where it stands, and the
    shape of its group. *)
Lemma bilibili_pattern_sound host body url m :
  search true (Seq (lit host) (Cap body)) url = Some m ->
  exists before id after,
    url = before ++ id ++ after
    /\ Str.occurs (chr_eq true) host url = true
    /\ lang true body id /\ group1 m = Some id.
Proof.
  intros H. destruct (search_sound _ _ _ _ H) as (sk & s0 & -> & Hm).
  destruct (group_sound _ _ _ _ _ Hm) as (w1 & w2 & rest & -> & L1 & L2 & Hg).
  exists (sk ++ w1), w2, rest. repeat split; auto.
  - now rewrite app_assoc_s.
  - clear H Hm. induction sk as [|c sk IH].
    + cbn [String.append]. pose proof (lang_lit_strip _ _ _ (w2 ++ rest) L1) as Hs.
      destruct (w1 ++ w2 ++ rest); simpl; now rewrite Hs.
    + change (String c sk ++ ?x) with (String c (sk ++ x)). cbn [Str.occurs].
      rewrite IH. now destruct (Str.strip _ _ _).
Qed.

Lemma first_match_sound url id :
  first_match bilibiliPatterns url = Some id ->
  (exists before after, url = before ++ id ++ after)
  /\ (bv_id id = true \/ av_id id = true)
  /\ (Str.occurs (chr_eq true) "bilibili.com/video/" url = true
      \/ Str.occurs (chr_eq true) "b23.tv/" url = true).
Proof.
  unfold bilibiliPatterns. cbn [first_match].
  destruct (search true bvPattern url) as [m|] eqn:E1.
  { intros Hg. destruct (bilibili_pattern_sound _ _ _ _ E1) as (b & i & a & -> & Ho & L & Hg').
    rewrite Hg in Hg'. injection Hg' as ->. repeat split; eauto.
    left. now apply lang_bv_group. }
  destruct (search true avPattern url) as [m|] eqn:E2.
  { intros Hg. destruct (bilibili_pattern_sound _ _ _ _ E2) as (b & i & a & -> & Ho & L & Hg').
    rewrite Hg in Hg'. injection Hg' as ->. repeat split; eauto.
    - right. now apply lang_av_group.
    - left. change "bilibili.com/video/av" with ("bilibili.com/video/" ++ "av") in Ho.
      destruct (Str.occurs (chr_eq true) "bilibili.com/video/" _) eqn:E; [reflexivity|].
      now rewrite (occurs_app_false _ _ "av" _ E) in Ho. }
  destruct (search true shortPattern url) as [m|] eqn:E3.
  { intros Hg. destruct (bilibili_pattern_sound _ _ _ _ E3) as (b & i & a & -> & Ho & L & Hg').
    rewrite Hg in Hg'. injection Hg' as ->. repeat split; eauto.
    left. now apply lang_bv_group. }
  destruct (search true mobilePattern url) as [m|] eqn:E4; [|discriminate].
  intros Hg. destruct (bilibili_pattern_sound _ _ _ _ E4) as (b & i & a & -> & Ho & L & Hg').
  rewrite Hg in Hg'. injection Hg' as ->. repeat split; eauto.
  - left. now apply lang_bv_group.
  - left. now apply occurs_tail, occurs_tail in Ho.
Qed.

End ShapeFacts.

Section IdentifierShape.
Import Regex Urls Lang.

(** Decide a statement about one character by trying them all. *)
Ltac each_char c :=
  destruct c as [[] [] [] [] [] [] [] []]; vm_compute; intros; congruence.

Lemma occurs_at ceq l (a b t : string) :
  Str.strip ceq l b = Some t -> Str.occurs ceq l (a ++ b) = true.
Proof.
  intros Hs. induction a as [|c a IH].
  - cbn [String.append]. destruct b; cbn [Str.occurs]; now rewrite Hs.
  - change (String c a ++ b) with (String c (a ++ b)). cbn [Str.occurs].
    rewrite IH. now destruct (Str.strip ceq l (String c _)).
Qed.

(** A match of the YouTube expression: where it stands and what its
    group holds. *)
Lemma youtube_sound url m :
  search false youtubeRegex url = Some m ->
  exists before id after,
    url = before ++ id ++ after
    /\ group1 m = Some id
    /\ String.length id = 11 /\ Str.all id_char id = true
    /\ (Str.includes url "youtube.com" = true \/ Str.includes url "youtu.be" = true).
Proof.
  intros H. destruct (search_sound _ _ _ _ H) as (sk & s0 & -> & Hm).
  unfold youtubeRegex, yt_id_group in Hm.
  destruct (group_sound _ _ _ _ _ Hm) as (w1 & w2 & rest & -> & L1 & L2 & Hg).
  destruct (lang_rep_cls _ _ _ L2) as [Hl Ha].
  exists (sk ++ w1), w2, rest. rewrite app_assoc_s. repeat split; auto.
  unfold Str.includes. destruct L1 as [(a & b & -> & La & _)|L1].
  - left. apply lang_lit_exact in La. subst a.
    apply (occurs_at _ _ sk _ ("/" ++ b ++ w2 ++ rest)). reflexivity.
  - right. apply lang_lit_exact in L1. subst w1.
    apply (occurs_at _ _ sk _ ("/" ++ w2 ++ rest)). reflexivity.
Qed.

Lemma bv_id_nonempty id : bv_id id = true -> id <> "".
Proof. destruct id; [discriminate|discriminate]. Qed.

Lemma av_id_nonempty id : av_id id = true -> id <> "".
Proof. destruct id; [discriminate|discriminate]. Qed.

(** The identifier [extractVideoId] returns is a piece of the URL, is not
    empty, and is either eleven characters none of which is a double
    quote, [&], [?], [/] or white space, or [BV] (in either case) followed
    by letters and digits, or a run of digits. *)
Theorem extractVideoId_returns_token url id :
  extractVideoId url = Some id ->
  (exists before after, url = before ++ id ++ after)
  /\ id <> ""
  /\ ((String.length id = 11 /\ Str.all id_char id = true)
      \/ bv_id id = true \/ av_id id = true).
Proof.
  unfold extractVideoId. destruct (search false youtubeRegex url) as [m|] eqn:E.
  - intros Hg. destruct (youtube_sound _ _ E) as (b & i & a & -> & Hg' & Hl & Ha & _).
    rewrite Hg in Hg'. injection Hg' as ->. repeat split; eauto.
    intros ->. discriminate Hl.
  - intros H. destruct (first_match_sound _ _ H) as (Hin & Hs & _).
    repeat split; auto. destruct Hs; [now apply bv_id_nonempty | now apply av_id_nonempty].
Qed.

Lemma extractVideoId_returns_token_witness :
  (exists before after,
      "https://www.bilibili.com/video/av170001?p=2" = before ++ "170001" ++ after)
  /\ "170001" <> ""
  /\ ((String.length "170001" = 11 /\ Str.all id_char "170001" = true)
      \/ bv_id "170001" = true \/ av_id "170001" = true).
Proof.
  apply (extractVideoId_returns_token "https://www.bilibili.com/video/av170001?p=2").
  vm_compute. reflexivity.
Defined.

Lemma off_youtube_no_match url :
  detectPlatform url <> Some youtube -> search false youtubeRegex url = None.
Proof.
  intros Hp. destruct (search false youtubeRegex url) as [m|] eqn:E; [|reflexivity].
  exfalso. apply Hp. destruct (youtube_sound _ _ E) as (_ & _ & _ & _ & _ & _ & _ & Hi).
  unfold detectPlatform. destruct Hi as [-> | ->]; [reflexivity|].
  now rewrite orb_true_r.
Qed.

(** Whenever the YouTube expression finds an identifier, [detectPlatform]
    says [youtube]; so for a URL of any other platform [extractVideoId]
    of [utils.ts] and [extractBilibiliVideoId] of the Bilibili client
    return the same. *)
Theorem extractors_agree_off_youtube url :
  detectPlatform url <> Some youtube ->
  search false youtubeRegex url = None
  /\ extractVideoId url = extractBilibiliVideoId url.
Proof.
  intros Hp. pose proof (off_youtube_no_match url Hp) as Hn.
  split; [exact Hn|]. unfold extractVideoId. now rewrite Hn.
Qed.

Lemma extractors_agree_off_youtube_witness :
  search false youtubeRegex "https://b23.tv/BV1xx411c7mD" = None
  /\ extractVideoId "https://b23.tv/BV1xx411c7mD"
     = extractBilibiliVideoId "https://b23.tv/BV1xx411c7mD".
Proof.
  apply (extractors_agree_off_youtube "https://b23.tv/BV1xx411c7mD").
  vm_compute. discriminate.
Defined.

(** The identifier of a URL of the Bilibili platform never starts with
    [av], so the player embeds it with [bvid=], also when the URL is of
    the [av] form and the identifier is a number. *)
Theorem bilibili_embed_is_always_bvid url id :
  detectPlatform url = Some bilibili ->
  extractVideoId url = Some id ->
  Str.starts_with id "av" = false
  /\ Player.getBilibiliEmbedUrl id
     = "https://player.bilibili.com/player.html?bvid=" ++ id
       ++ "&page=1&high_quality=1&danmaku=0".
Proof.
  intros Hp Hid.
  unfold extractVideoId in Hid.
  rewrite (off_youtube_no_match url) in Hid by congruence.
  destruct (first_match_sound _ _ Hid) as (_ & Hs & _).
  assert (Hav : Str.starts_with id "av" = false).
  { destruct Hs as [Hs|Hs].
    - destruct id as [|b [|v rest]]; try discriminate. cbn [bv_id] in Hs.
      apply andb_prop in Hs as [Hs _]. apply andb_prop in Hs as [Hs _].
      apply andb_prop in Hs as [Hb _]. revert Hb. clear. each_char b.
    - destruct id as [|d rest]; [discriminate|]. unfold av_id in Hs. cbn in Hs.
      apply andb_prop in Hs as [Hd _]. revert Hd. clear. each_char d. }
  split; [exact Hav|]. unfold Player.getBilibiliEmbedUrl. rewrite Hav.
  now destruct (Str.starts_with id "BV").
Qed.

Lemma bilibili_embed_is_always_bvid_witness :
  Str.starts_with "170001" "av" = false
  /\ Player.getBilibiliEmbedUrl "170001"
     = "https://player.bilibili.com/player.html?bvid=170001&page=1&high_quality=1&danmaku=0".
Proof.
  apply (bilibili_embed_is_always_bvid "https://www.bilibili.com/video/av170001");
    vm_compute; reflexivity.
Defined.

End IdentifierShape.


(* ================================================================== *)
(** * Colours and durations *)

Section HashFacts.
Import Colors.
Local Open Scope Z_scope.

Lemma toInt32_congr a b : a mod 2 ^ 32 = b mod 2 ^ 32 -> toInt32 a = toInt32 b.
Proof.
  intros H. unfold toInt32. f_equal.
  rewrite (Z.add_mod a), (Z.add_mod b) by discriminate. now rewrite H.
Qed.

Lemma toInt32_mod a : toInt32 a mod 2 ^ 32 = a mod 2 ^ 32.
Proof.
  unfold toInt32. rewrite Zminus_mod_idemp_l. f_equal. lia.
Qed.

Lemma toInt32_range a : - 2 ^ 31 <= toInt32 a < 2 ^ 31.
Proof.
  unfold toInt32. pose proof (Z.mod_pos_bound (a + 2 ^ 31) (2 ^ 32) eq_refl). lia.
Qed.

Lemma toInt32_idem a : toInt32 (toInt32 a) = toInt32 a.
Proof. apply toInt32_congr, toInt32_mod. Qed.

Lemma hash_step_spec h c : hash_step (toInt32 h) c = toInt32 (31 * h + c).
Proof.
  unfold hash_step. rewrite Z.land_diag, !toInt32_idem. apply toInt32_congr.
  rewrite Z.shiftl_mul_pow2 by lia.
  rewrite <- Z.add_sub_swap, Zminus_mod, Z.add_mod, toInt32_mod by discriminate.
  rewrite <- Z.add_mod, <- Zminus_mod by discriminate.
  rewrite Zminus_mod, (Z.add_mod (_ * _)), Z.mul_mod, toInt32_mod by discriminate.
  rewrite <- Z.mul_mod, <- Z.add_mod, <- Zminus_mod by discriminate.
  f_equal. lia.
Qed.

Lemma fold_left_through {A B} (f : A -> Z -> A) (h : B -> Z -> B) (g : B -> A) l :
  (forall p c, f (g p) c = g (h p c)) ->
  forall p, fold_left f l (g p) = g (fold_left h l p).
Proof.
  intros H. induction l as [|c l IH]; intros p; [reflexivity|].
  simpl. now rewrite H, IH.
Qed.

(** [simpleHash] is the polynomial hash in 31 of the code units, taken
    modulo 2^32 as a signed 32-bit number, without its sign; it lies
    between 0 and 2^31, both included. *)
Theorem simpleHash_is_wrapped_polynomial units0 :
  simpleHash units0 = Z.abs (toInt32 (polynomial units0))
  /\ 0 <= simpleHash units0 <= 2 ^ 31.
Proof.
  assert (H : simpleHash units0 = Z.abs (toInt32 (polynomial units0))).
  { unfold simpleHash, polynomial. f_equal.
    exact (fold_left_through hash_step (fun h c => 31 * h + c) toInt32 units0
                             hash_step_spec 0). }
  split; [exact H|]. rewrite H. pose proof (toInt32_range (polynomial units0)). lia.
Qed.

End HashFacts.

Section FormatFacts.
Import Format.

Lemma floor_unique (q : Q) (z : Z) :
  (inject_Z z <= q)%Q -> (q < inject_Z (z + 1))%Q -> Qfloor q = z.
Proof.
  intros Hl Hu.
  pose proof (Qfloor_le q) as Fl. pose proof (Qlt_floor q) as Fu.
  assert (H1 : (inject_Z z < inject_Z (Qfloor q + 1))%Q) by (eapply Qle_lt_trans; eauto).
  assert (H2 : (inject_Z (Qfloor q) < inject_Z (z + 1))%Q) by (eapply Qle_lt_trans; eauto).
  rewrite <- Zlt_Qlt in H1, H2. lia.
Qed.

(** An integer split into sixties, in the rationals. *)
Lemma split_60 (n : Z) :
  (inject_Z n == 60 * inject_Z (n / 60) + inject_Z (n mod 60))%Q
  /\ (0 <= inject_Z (n mod 60))%Q /\ (inject_Z (n mod 60) <= 59)%Q.
Proof.
  pose proof (Z.mod_pos_bound n 60 eq_refl) as Hm. repeat split.
  - rewrite (Z.div_mod n 60) at 1 by discriminate.
    now rewrite inject_Z_plus, inject_Z_mult.
  - change 0%Q with (inject_Z 0). rewrite <- Zle_Qle. lia.
  - change 59%Q with (inject_Z 59). rewrite <- Zle_Qle. lia.
Qed.

(** The floor of a sixtieth, and of what is left of the seconds. *)
Lemma floor_div_60 (q : Q) :
  (0 <= q)%Q -> Qfloor (q / 60) = (Qfloor q / 60)%Z.
Proof.
  intros Hq. set (n := Qfloor q).
  pose proof (Qfloor_le q) as Fl. pose proof (Qlt_floor q) as Fu. fold n in Fl, Fu.
  rewrite inject_Z_plus in Fu. destruct (split_60 n) as (E & H0 & H59).
  apply floor_unique.
  - apply Qle_shift_div_l; [reflexivity|]. lra.
  - apply Qlt_shift_div_r; [reflexivity|]. rewrite inject_Z_plus.
    change (inject_Z 1) with 1%Q in *. lra.
Qed.

Lemma trunc_nonneg (q : Q) : (0 <= q)%Q -> trunc q = Qfloor q.
Proof. intros H. unfold trunc. apply Qle_bool_iff in H. now rewrite H. Qed.

Lemma floor_rem_60 (q : Q) :
  (0 <= q)%Q -> Qfloor (js_rem q 60) = (Qfloor q mod 60)%Z.
Proof.
  intros Hq. unfold js_rem.
  assert (H60 : (0 <= q / 60)%Q).
  { apply Qle_shift_div_l; [reflexivity|]. now rewrite Qmult_0_l. }
  rewrite (trunc_nonneg _ H60), (floor_div_60 _ Hq).
  set (n := Qfloor q).
  pose proof (Qfloor_le q) as Fl. pose proof (Qlt_floor q) as Fu. fold n in Fl, Fu.
  rewrite inject_Z_plus in Fu. destruct (split_60 n) as (E & H0 & H59).
  change (inject_Z 1) with 1%Q in *.
  apply floor_unique.
  - lra.
  - rewrite inject_Z_plus. change (inject_Z 1) with 1%Q. lra.
Qed.

Lemma two_digits (m : Z) :
  (0 <= m < 60)%Z -> String.length (padStart 2 (to_string m)) = 2.
Proof.
  intros H. replace m with (Z.of_nat (Z.to_nat m)) by lia.
  assert (Hk : Z.to_nat m < 60) by lia. revert Hk. generalize (Z.to_nat m). clear.
  intros k Hk. do 60 (destruct k as [|k]; [reflexivity|]). lia.
Qed.

(** For a time that is not negative, [formatDuration] prints the whole
    minutes, a colon and the whole seconds of the last minute, the
    seconds always with two digits; fractions of a second are dropped and
    hours are not split off. *)
Theorem formatDuration_minutes_and_two_digits (seconds : Q) :
  (0 <= seconds)%Q ->
  let n := Qfloor seconds in
  formatDuration seconds
  = to_string (n / 60) ++ ":" ++ padStart 2 (to_string (n mod 60))
  /\ String.length (padStart 2 (to_string (n mod 60))) = 2
  /\ (n = 60 * (n / 60) + n mod 60 /\ 0 <= n mod 60 < 60)%Z.
Proof.
  intros H n. unfold formatDuration.
  rewrite (floor_div_60 _ H), (floor_rem_60 _ H). fold n.
  pose proof (Z.mod_pos_bound n 60 eq_refl) as Hm.
  pose proof (Z.div_mod n 60 ltac:(discriminate)) as Hdm.
  repeat split; try lia. now apply two_digits.
Qed.

Lemma formatDuration_minutes_and_two_digits_witness :
  formatDuration (3725 # 10) = "6:12".
Proof.
  apply (proj1 (formatDuration_minutes_and_two_digits (3725 # 10) ltac:(discriminate))).
Defined.

(** For a time that is not negative, [formatTopicDuration] prints whole
    minutes below one hour, and from one hour on the whole hours followed
    by the minutes of the last hour when there are any; seconds are
    dropped. *)
Theorem formatTopicDuration_by_range (seconds : Q) :
  (0 <= seconds)%Q ->
  let n := Qfloor seconds in
  formatTopicDuration seconds
  = if (n <? 3600)%Z then to_string (n / 60) ++ " min"
    else if (0 <? (n / 60) mod 60)%Z
         then to_string (n / 3600) ++ "h " ++ to_string ((n / 60) mod 60) ++ "m"
         else to_string (n / 3600) ++ "h".
Proof.
  intros H n. unfold formatTopicDuration. rewrite (floor_div_60 _ H). fold n.
  assert (Hn : (0 <= n)%Z).
  { subst n. change 0%Z with (Qfloor 0). now apply Qfloor_resp_le. }
  assert (Hlt : (n / 60 <? 60)%Z = (n <? 3600)%Z).
  { destruct (Z.ltb_spec (n / 60) 60), (Z.ltb_spec n 3600); try reflexivity; exfalso.
    - apply (Z.div_le_mono 3600 n 60) in H1; [|lia]. change (3600 / 60)%Z with 60%Z in H1. lia.
    - apply (Z.div_lt_upper_bound n 60 60) in H1; lia. }
  rewrite Hlt. destruct (n <? 3600)%Z; [reflexivity|].
  rewrite Z.rem_mod_nonneg by (try apply Z.div_pos; lia).
  rewrite Z.div_div by lia. reflexivity.
Qed.

Lemma formatTopicDuration_by_range_witness :
  formatTopicDuration 3725 = "1h 2m".
Proof.
  apply (formatTopicDuration_by_range 3725 ltac:(discriminate)).
Defined.

End FormatFacts.

Section ShuffleFacts.
Import Colors.
Variable seededRandom : Z -> Q.
Hypothesis seededRandom_range : forall seed, (0 <= seededRandom seed)%Q /\ (seededRandom seed < 1)%Q.

Lemma lookup_map_Some (l : list string) i :
  map Some l !! i = match l !! i with Some x => Some (Some x) | None => None end.
Proof. revert i. induction l as [|a l IH]; intros [|i]; simpl; auto. Qed.

Lemma insert_map_Some (l : list string) i x :
  <[i := Some x]> (map Some l) = map Some (<[i := x]> l).
Proof. revert i. induction l as [|a l IH]; intros [|i]; simpl; auto. now rewrite IH. Qed.

Lemma read_map (l : list string) i x :
  l !! i = Some x -> read (map Some l) (Z.of_nat i) = Some x.
Proof.
  intros H. unfold read. destruct (Z.ltb_spec (Z.of_nat i) 0); [lia|].
  now rewrite Nat2Z.id, lookup_map_Some, H.
Qed.

Lemma write_in_range (a : list (option string)) i v :
  i < length a -> write a (Z.of_nat i) v = <[i := v]> a.
Proof.
  intros H. unfold write. destruct (Z.ltb_spec (Z.of_nat i) 0); [lia|].
  rewrite Nat2Z.id. apply Nat.ltb_lt in H. now rewrite H.
Qed.

Lemma insert_head_perm (l : list string) j (a y : string) :
  l !! j = Some y -> y :: <[j := a]> l ≡ₚ a :: l.
Proof.
  revert j. induction l as [|b l IH]; intros [|j]; simpl; intros H; try discriminate.
  - injection H as ->. constructor.
  - rewrite perm_swap. rewrite (IH j H). apply perm_swap.
Qed.

(** Exchanging two elements of a list gives a permutation of it. *)
Lemma swap_perm (l : list string) i j (x y : string) :
  l !! i = Some x -> l !! j = Some y -> <[j := x]> (<[i := y]> l) ≡ₚ l.
Proof.
  revert i j. induction l as [|a l IH]; intros [|i] [|j]; simpl; intros Hi Hj;
    try discriminate.
  - injection Hi as ->. reflexivity.
  - injection Hi as ->. now apply insert_head_perm.
  - injection Hj as ->. now apply insert_head_perm.
  - constructor. now apply IH.
Qed.

(** The index the loop draws lies between 0 and [i]. *)
Lemma drawn_index hashValue (i : nat) :
  let j := Qfloor (seededRandom (hashValue + Z.of_nat i) * inject_Z (Z.of_nat i + 1)) in
  (0 <= j <= Z.of_nat i)%Z.
Proof.
  intros j. destruct (seededRandom_range (hashValue + Z.of_nat i)%Z) as [H0 H1].
  set (r := seededRandom (hashValue + Z.of_nat i)) in *.
  assert (Hi : (0 < inject_Z (Z.of_nat i + 1))%Q).
  { change 0%Q with (inject_Z 0). rewrite <- Zlt_Qlt. lia. }
  split.
  - change 0%Z with (Qfloor 0). apply Qfloor_resp_le. now apply Qmult_le_0_compat, Qlt_le_weak.
  - pose proof (Qfloor_le (r * inject_Z (Z.of_nat i + 1))) as Fl. fold j in Fl.
    assert (Hlt : (inject_Z j < inject_Z (Z.of_nat i + 1))%Q).
    { eapply Qle_lt_trans; [exact Fl|].
      rewrite <- (Qmult_1_l (inject_Z (Z.of_nat i + 1))) at 2.
      now apply Qmult_lt_compat_r. }
    rewrite <- Zlt_Qlt in Hlt. lia.
Qed.

Lemma shuffle_step_perm hashValue i (l : list string) :
  i < length l ->
  exists l', shuffle_step seededRandom hashValue i (map Some l) = map Some l' /\ l' ≡ₚ l.
Proof.
  intros Hi. unfold shuffle_step.
  pose proof (drawn_index hashValue i) as Hj. cbv zeta in Hj.
  set (j := Qfloor _) in *.
  assert (Ej : j = Z.of_nat (Z.to_nat j)) by lia.
  assert (Hjl : Z.to_nat j < length l) by lia.
  destruct (lookup_lt_is_Some_2 l i Hi) as [x Hx].
  destruct (lookup_lt_is_Some_2 l _ Hjl) as [y Hy].
  rewrite Ej, (read_map _ _ _ Hx), (read_map _ _ _ Hy).
  rewrite (write_in_range (map Some l) i) by now rewrite List.length_map.
  rewrite write_in_range by now rewrite length_insert, List.length_map.
  exists (<[Z.to_nat j := x]> (<[i := y]> l)). split.
  - now rewrite !insert_map_Some.
  - now apply swap_perm.
Qed.

Lemma shuffle_from_perm hashValue i : forall l : list string,
  i < length l \/ i = 0 ->
  exists l', shuffle_from seededRandom hashValue i (map Some l) = map Some l' /\ l' ≡ₚ l.
Proof.
  induction i as [|i IH]; intros l Hi; cbn [shuffle_from].
  - now exists l.
  - destruct Hi as [Hi|Hi]; [|discriminate].
    destruct (shuffle_step_perm hashValue (S i) l Hi) as (l1 & -> & P1).
    destruct (IH l1) as (l2 & -> & P2).
    + left. rewrite (Permutation_length P1). lia.
    + exists l2. split; [reflexivity|]. now rewrite P2.
Qed.

Lemma seededShuffle_perm (arr : list string) seed :
  exists shuffled,
    seededShuffle seededRandom arr seed = map Some shuffled /\ shuffled ≡ₚ arr.
Proof.
  unfold seededShuffle. apply shuffle_from_perm.
  destruct arr; [now right|left; simpl; lia].
Qed.

(** The colours [getTopicHSLColor] chooses from. *)
Lemma palette_perm (videoId : option (list Z)) :
  exists l,
    match videoId with
    | Some (u :: rest) => getShuffledTopicColors seededRandom (u :: rest)
    | _ => map Some TOPIC_COLORS
    end = map Some l
    /\ l ≡ₚ TOPIC_COLORS.
Proof.
  destruct videoId as [[|u rest]|]; try (now exists TOPIC_COLORS).
  apply seededShuffle_perm.
Qed.

Lemma palette_NoDup : NoDup TOPIC_COLORS.
Proof. apply (bool_decide_unpack _). vm_compute. exact I. Qed.

Lemma read_map_inv (l : list string) i x :
  read (map Some l) (Z.of_nat i) = Some x -> l !! i = Some x.
Proof.
  unfold read. destruct (Z.ltb_spec (Z.of_nat i) 0); [lia|].
  rewrite Nat2Z.id, lookup_map_Some. now destruct (l !! i).
Qed.

(** Whatever numbers in [[0, 1)] the generator returns, [seededShuffle]
    returns the elements of the array in another order: none is lost,
    none is repeated and none is [undefined]; so [getTopicHSLColor]
    returns a colour of the palette for every index that is not
    negative. *)
Theorem seededShuffle_permutes arr seed :
  (exists shuffled,
      seededShuffle seededRandom arr seed = map Some shuffled /\ shuffled ≡ₚ arr)
  /\ (forall index videoId,
         (0 <= index)%Z ->
         exists colour,
           getTopicHSLColor seededRandom index videoId = Some colour
           /\ In colour TOPIC_COLORS).
Proof.
  split; [apply seededShuffle_perm|].
  intros index videoId Hindex. unfold getTopicHSLColor.
  destruct (palette_perm videoId) as (l & -> & P).
  rewrite List.length_map, (Permutation_length P).
  change (Z.of_nat (length TOPIC_COLORS)) with 7%Z.
  pose proof (Z.rem_bound_pos index 7 Hindex eq_refl) as Hr.
  assert (Hlt : Z.to_nat (Z.rem index 7) < length l).
  { rewrite (Permutation_length P). change (length TOPIC_COLORS) with 7. lia. }
  destruct (lookup_lt_is_Some_2 l _ Hlt) as [c Hc].
  exists c. split.
  - rewrite <- (Z2Nat.id (Z.rem index 7)) by lia. now apply read_map.
  - apply (Permutation_in _ P). apply list_elem_of_In. eapply list_elem_of_lookup_2. exact Hc.
Qed.

(** Two topics of a video get the same colour only when their indices
    are the same modulo seven, the size of the palette: the first seven
    topics all have different colours. *)
Theorem topic_colours_repeat_every_seven (i j : Z) videoId :
  (0 <= i)%Z -> (0 <= j)%Z ->
  getTopicHSLColor seededRandom i videoId = getTopicHSLColor seededRandom j videoId
  <-> (i mod 7 = j mod 7)%Z.
Proof.
  intros Hi Hj. unfold getTopicHSLColor.
  destruct (palette_perm videoId) as (l & -> & P).
  rewrite List.length_map, (Permutation_length P).
  change (Z.of_nat (length TOPIC_COLORS)) with 7%Z.
  rewrite !Z.rem_mod_nonneg by lia.
  split; [|now intros ->].
  pose proof (Z.mod_pos_bound i 7 eq_refl) as Bi.
  pose proof (Z.mod_pos_bound j 7 eq_refl) as Bj.
  assert (Hlen : length l = 7) by now rewrite (Permutation_length P).
  assert (Hlt : Z.to_nat (i mod 7) < length l) by lia.
  destruct (lookup_lt_is_Some_2 l _ Hlt) as [c Hc].
  rewrite <- (Z2Nat.id (i mod 7)), <- (Z2Nat.id (j mod 7)) by lia.
  rewrite (read_map _ _ _ Hc). intros H. symmetry in H. apply read_map_inv in H.
  assert (Hnd : NoDup l) by (rewrite P; apply palette_NoDup).
  pose proof (NoDup_lookup l _ _ c Hnd Hc H). lia.
Qed.

End ShuffleFacts.

Lemma seededShuffle_permutes_witness :
  exists shuffled,
    Colors.seededShuffle (fun _ => 1 # 2) Colors.TOPIC_COLORS [66%Z; 86%Z]
    = map Some shuffled
    /\ shuffled ≡ₚ Colors.TOPIC_COLORS.
Proof.
  apply (proj1 (seededShuffle_permutes (fun _ => 1 # 2)
                  ltac:(intros; split; [discriminate | reflexivity])
                  Colors.TOPIC_COLORS [66%Z; 86%Z])).
Defined.

Lemma topic_colours_repeat_every_seven_witness :
  Colors.getTopicHSLColor (fun _ => 1 # 2) 1 (Some [66%Z; 86%Z])
  = Colors.getTopicHSLColor (fun _ => 1 # 2) 8 (Some [66%Z; 86%Z]).
Proof.
  apply (topic_colours_repeat_every_seven (fun _ => 1 # 2)
           ltac:(intros; split; [discriminate | reflexivity])
           1 8 (Some [66%Z; 86%Z]) ltac:(lia) ltac:(lia)).
  reflexivity.
Defined.


(* ================================================================== *)
(** * The table of analyses and the endpoints *)

Section TableFacts.
Import Json Cache.

(** What a successful call does to the table: it rewrites the rows that
    carry the given [bvid], or appends the proposed row. *)
Lemma upsert_cases fresh now p t t' i :
  upsert_bilibili_video_analysis fresh now p t = inr (t', i) ->
  exists new,
    proposed fresh now p = inr new
    /\ ((exists old,
            find (conflicts (bvid new)) t = Some old /\ i = id old
            /\ t' = map (fun r => if conflicts (bvid new) r then do_update now new r
                                  else r) t)
        \/ (find (conflicts (bvid new)) t = None
            /\ existsb (fun r => id r =? fresh) t = false
            /\ i = fresh /\ t' = (t ++ [new])%list)).
Proof.
  unfold upsert_bilibili_video_analysis.
  destruct (is_null (p_bvid p) && is_null (p_aid p)); [discriminate|].
  destruct (proposed fresh now p) as [e|new]; [discriminate|].
  destruct (find (conflicts (bvid new)) t) as [old|] eqn:Ef.
  - intros [= <- <-]. exists new. split; [reflexivity|]. left. now exists old.
  - destruct (existsb _ t) eqn:Ee; [discriminate|].
    intros [= <- <-]. exists new. split; [reflexivity|]. now right.
Qed.

Lemma proposed_id fresh now p new : proposed fresh now p = inr new -> id new = fresh.
Proof.
  unfold proposed. destruct (p_title p), (p_duration p), (p_transcript p); try discriminate.
  destruct (bvid_aid_check (p_bvid p) (p_aid p)); [|discriminate]. now intros [= <-].
Qed.

Lemma update_keeps_id b now new (t : table) :
  map id (map (fun r => if conflicts b r then do_update now new r else r) t) = map id t.
Proof. rewrite map_map. apply map_ext. intros r. now destruct (conflicts b r). Qed.

Lemma find_none_bvid b (t : table) :
  find (conflicts (Some b)) t = None -> ~ In (Some b) (map bvid t).
Proof.
  induction t as [|r t IH]; cbn [find map In]; [tauto|].
  destruct (conflicts (Some b) r) eqn:E; [discriminate|]. intros H [Hr|Hr].
  - unfold conflicts in E. rewrite Hr, String.eqb_refl in E. discriminate.
  - now apply IH.
Qed.

Lemma existsb_id_false fresh (t : table) :
  existsb (fun r => id r =? fresh) t = false -> ~ In fresh (map id t).
Proof.
  induction t as [|r t IH]; cbn [existsb map In]; [tauto|].
  intros H [Hr|Hr]; apply orb_false_iff in H as [H1 H2].
  - apply Nat.eqb_neq in H1. contradiction.
  - now apply IH.
Qed.

Lemma bvids_update b now new (t : table) :
  Lookup.bvids (map (fun r => if conflicts b r then do_update now new r else r) t)
  = Lookup.bvids t.
Proof.
  induction t as [|r t IH]; [reflexivity|]. cbn [map Lookup.bvids flat_map].
  fold (Lookup.bvids t). fold (Lookup.bvids (map (fun r => if conflicts b r then do_update now new r else r) t)).
  rewrite IH. now destruct (conflicts b r).
Qed.

Lemma bvids_app (t u : table) : Lookup.bvids (t ++ u)%list = (Lookup.bvids t ++ Lookup.bvids u)%list.
Proof. apply flat_map_app. Qed.

Lemma in_bvids b (t : table) : In b (Lookup.bvids t) <-> In (Some b) (map bvid t).
Proof.
  induction t as [|r t IH]; [reflexivity|]. cbn [Lookup.bvids flat_map map In].
  fold (Lookup.bvids t). rewrite in_app_iff, IH. destruct (bvid r) as [b'|]; cbn [In].
  - split; intros [H|H]; auto; [destruct H as [->|[]]; auto | injection H as ->; auto].
  - split; intros [H|H]; auto; [destruct H | discriminate].
Qed.

(** The primary key and the [UNIQUE] constraint on [bvid] hold in every
    table the function produces. *)
Lemma reachable_unique (t : table) :
  reachable t -> NoDup (map id t) /\ NoDup (Lookup.bvids t).
Proof.
  induction 1 as [|fresh now p t t' i _ [IHi IHb] Hup]; [split; constructor|].
  destruct (upsert_cases _ _ _ _ _ _ Hup) as (new & Hnew & [(old & Hf & -> & ->)|(Hf & He & -> & ->)]).
  - now rewrite update_keeps_id, bvids_update.
  - rewrite map_app, bvids_app. split.
    + apply NoDup_app. repeat split; [exact IHi| |repeat constructor; intros []%elem_of_nil].
      intros x Hx Hx'. apply list_elem_of_In in Hx. cbn in Hx'.
      apply list_elem_of_singleton in Hx'. subst x. rewrite (proposed_id _ _ _ _ Hnew) in Hx.
      exact (existsb_id_false _ _ He Hx).
    + apply NoDup_app. repeat split; [exact IHb| |].
      * intros x Hx Hx'. apply list_elem_of_In in Hx, Hx'. cbn in Hx'.
        destruct (bvid new) as [b|] eqn:Eb; [|destruct Hx'].
        destruct Hx' as [->|[]]. apply in_bvids in Hx. exact (find_none_bvid _ _ Hf Hx).
      * cbn. destruct (bvid new); repeat constructor; intros []%elem_of_nil.
Qed.

Lemma unique_row b (t : table) r1 r2 :
  NoDup (Lookup.bvids t) -> In r1 t -> In r2 t ->
  bvid r1 = Some b -> bvid r2 = Some b -> r1 = r2.
Proof.
  induction t as [|r t IH]; [intros _ []|]. cbn [Lookup.bvids flat_map]. fold (Lookup.bvids t).
  intros Hn [->|H1] [->|H2] E1 E2; auto.
  - exfalso. rewrite E1 in Hn. apply NoDup_cons in Hn as [Hn _].
    apply Hn, list_elem_of_In, in_bvids. rewrite <- E2. now apply in_map.
  - exfalso. rewrite E2 in Hn. apply NoDup_cons in Hn as [Hn _].
    apply Hn, list_elem_of_In, in_bvids. rewrite <- E1. now apply in_map.
  - apply IH; auto. destruct (bvid r); [now apply NoDup_cons in Hn as [_ Hn]|exact Hn].
Qed.

(** In every table the upsert function can produce, no two rows have the
    same [id] and no two rows have the same [bvid]. *)
Theorem reachable_tables_keep_keys_unique (t : table) :
  reachable t ->
  NoDup (map id t)
  /\ (forall r1 r2 b, In r1 t -> In r2 t -> bvid r1 = Some b -> bvid r2 = Some b -> r1 = r2).
Proof.
  intros H. destruct (reachable_unique t H) as [Hi Hb]. split; [exact Hi|].
  intros r1 r2 b. now apply unique_row.
Qed.

Lemma find_conflict_in b (t : table) old :
  find (conflicts b) t = Some old -> In old t /\ conflicts b old = true.
Proof. apply find_some. Qed.

Lemma conflicts_bvid b r : conflicts (Some b) r = true -> bvid r = Some b.
Proof.
  unfold conflicts. destruct (bvid r) as [y|]; [|discriminate].
  intros H. apply String.eqb_eq in H. now subst.
Qed.

(** What is stored under a [bvid] can be read back: after a successful
    call with [bvid = b] in a table the function produced, the table has
    exactly one row with that [bvid], its [id] is the one the call
    returned, and [get_video_analysis_by_platform('bilibili', b)] returns
    it. *)
Theorem upsert_then_get_by_platform youtube fresh now p t t' i b :
  reachable t ->
  upsert_bilibili_video_analysis fresh now p t = inr (t', i) ->
  p_bvid p = Some b ->
  exists r rows,
    In r t' /\ id r = i /\ bvid r = Some b
    /\ (forall r', In r' t' -> bvid r' = Some b -> r' = r)
    /\ Lookup.get_video_analysis_by_platform youtube t' "bilibili" b = inr rows
    /\ In (Lookup.of_bilibili r) rows.
Proof.
  intros Hr Hup Hb.
  assert (Hr' : reachable t') by (eapply reach_upsert; eauto).
  destruct (reachable_unique t' Hr') as [_ Hu].
  destruct (upsert_cases _ _ _ _ _ _ Hup) as (new & Hnew & Hcase).
  destruct (proposed_fields _ _ _ _ Hnew) as (Hbn & _). rewrite Hb in Hbn.
  assert (Hex : exists r, In r t' /\ id r = i /\ bvid r = Some b).
  { destruct Hcase as [(old & Hf & -> & ->)|(Hf & He & -> & ->)].
    - rewrite Hbn in *. apply find_conflict_in in Hf as [Hin Hc].
      exists (do_update now new old). repeat split.
      + apply in_map_iff. exists old. now rewrite Hc.
      + cbn. now apply conflicts_bvid.
    - exists new. repeat split; [apply in_or_app; right; now left| |exact Hbn].
      exact (proposed_id _ _ _ _ Hnew). }
  destruct Hex as (r & Hin & Hid & Hbr).
  exists r, (map Lookup.of_bilibili (List.filter (Lookup.matches b) t')).
  repeat split; auto.
  - intros r' Hin' Hb'. exact (unique_row b t' r' r Hu Hin' Hin Hb' Hbr).
  - apply in_map. apply filter_In. split; [exact Hin|].
    unfold Lookup.matches, CheckCache.eq_opt. now rewrite Hbr, String.eqb_refl.
Qed.

(** A successful call loses nothing: the rows keep their [id]s and
    their order, at most one row is added, the rows with another [bvid]
    are left as they are, and the [id] returned is in the table. *)
Theorem upsert_loses_no_row fresh now p t t' i :
  upsert_bilibili_video_analysis fresh now p t = inr (t', i) ->
  (map id t' = map id t \/ map id t' = (map id t ++ [fresh])%list)
  /\ In i (map id t')
  /\ (forall r, In r t -> conflicts (p_bvid p) r = false -> In r t').
Proof.
  intros Hup. destruct (upsert_cases _ _ _ _ _ _ Hup) as (new & Hnew & Hcase).
  destruct (proposed_fields _ _ _ _ Hnew) as (Hbn & _). rewrite Hbn in Hcase.
  destruct Hcase as [(old & Hf & -> & ->)|(Hf & He & -> & ->)].
  - rewrite update_keeps_id. repeat split; [now left| |].
    + apply find_conflict_in in Hf as [Hin _]. now apply in_map.
    + intros r Hin Hc. apply in_map_iff. exists r. now rewrite Hc.
  - rewrite map_app. cbn [map]. rewrite (proposed_id _ _ _ _ Hnew). repeat split.
    + now right.
    + apply in_or_app. right. now left.
    + intros r Hin _. apply in_or_app. now left.
Qed.

(** A call without a [bvid] never finds a conflict: when it succeeds it
    adds a row, with a new [id], so that each such call for the same
    [aid] leaves one more row that the lookup by that [aid] matches. *)
Theorem upsert_by_aid_always_inserts fresh now p t t' i a :
  p_bvid p = None -> p_aid p = Some a ->
  upsert_bilibili_video_analysis fresh now p t = inr (t', i) ->
  i = fresh
  /\ (exists new, t' = (t ++ [new])%list /\ id new = fresh /\ bvid new = None
                  /\ aid new = Some a)
  /\ length (List.filter (Lookup.matches a) t')
     = S (length (List.filter (Lookup.matches a) t)).
Proof.
  intros Hb Ha Hup. destruct (upsert_cases _ _ _ _ _ _ Hup) as (new & Hnew & Hcase).
  destruct (proposed_fields _ _ _ _ Hnew) as (Hbn & _). rewrite Hb in Hbn.
  assert (Han : aid new = Some a).
  { revert Hnew. unfold proposed.
    destruct (p_title p), (p_duration p), (p_transcript p); try discriminate.
    destruct (bvid_aid_check _ _); [|discriminate]. now intros [= <-]. }
  destruct Hcase as [(old & Hf & _)|(Hf & He & -> & ->)].
  - exfalso. rewrite Hbn in Hf. apply find_conflict_in in Hf as [_ Hc]. discriminate Hc.
  - split; [reflexivity|]. split.
    + exists new. repeat split; auto. exact (proposed_id _ _ _ _ Hnew).
    + rewrite List.filter_app, List.length_app. cbn [List.filter].
      unfold Lookup.matches at 2, CheckCache.eq_opt. rewrite Han, String.eqb_refl, orb_true_r.
      cbn. lia.
Qed.

Lemma sample_table_reachable :
  reachable [Lookup.sample_row 1 (Some "BV1xx411c7mD") None 10; Lookup.sample_row 2 None (Some "170001") 20].
Proof.
  apply (reach_upsert 2 20 (Lookup.sample_call None (Some "170001"))
                      [Lookup.sample_row 1 (Some "BV1xx411c7mD") None 10] _ 2); [|reflexivity].
  exact (reach_upsert 1 10 (Lookup.sample_call (Some "BV1xx411c7mD") None) [] _ 1
                      reach_empty eq_refl).
Qed.

Lemma reachable_tables_keep_keys_unique_witness :
  let t := [Lookup.sample_row 1 (Some "BV1xx411c7mD") None 10;
            Lookup.sample_row 2 None (Some "170001") 20] in
  NoDup (map id t)
  /\ (forall r1 r2 b, In r1 t -> In r2 t -> bvid r1 = Some b -> bvid r2 = Some b -> r1 = r2).
Proof.
  intros t. exact (reachable_tables_keep_keys_unique t sample_table_reachable).
Defined.

Lemma upsert_then_get_by_platform_witness :
  let t := [Lookup.sample_row 1 (Some "BV1xx411c7mD") None 10;
            Lookup.sample_row 2 None (Some "170001") 20] in
  let t' := [Lookup.sample_row 1 (Some "BV1xx411c7mD") None 10;
             Lookup.sample_row 2 None (Some "170001") 20;
             Lookup.sample_row 3 (Some "BV1GJ411x7h7") None 30] in
  exists r rows,
    In r t' /\ id r = 3 /\ bvid r = Some "BV1GJ411x7h7"
    /\ (forall r', In r' t' -> bvid r' = Some "BV1GJ411x7h7" -> r' = r)
    /\ Lookup.get_video_analysis_by_platform (fun _ => []) t' "bilibili" "BV1GJ411x7h7"
       = inr rows
    /\ In (Lookup.of_bilibili r) rows.
Proof.
  intros t t'.
  exact (upsert_then_get_by_platform (fun _ => []) 3 30
           (Lookup.sample_call (Some "BV1GJ411x7h7") None) t t' 3 "BV1GJ411x7h7"
           sample_table_reachable eq_refl eq_refl).
Defined.

Lemma upsert_loses_no_row_witness :
  let t := [Lookup.sample_row 1 (Some "BV1xx411c7mD") None 10;
            Lookup.sample_row 2 None (Some "170001") 20] in
  let t' := [Row 1 (Some "BV1xx411c7mD") None "title" None 60 None (JArr []) None None None
                 None 10 30;
             Lookup.sample_row 2 None (Some "170001") 20] in
  (map id t' = map id t \/ map id t' = (map id t ++ [3])%list)
  /\ In 1 (map id t')
  /\ (forall r, In r t -> conflicts (Some "BV1xx411c7mD") r = false -> In r t').
Proof.
  intros t t'.
  exact (upsert_loses_no_row 3 30 (Lookup.sample_call (Some "BV1xx411c7mD") None) t t' 1 eq_refl).
Defined.

Lemma upsert_by_aid_always_inserts_witness :
  let t := [Lookup.sample_row 1 (Some "BV1xx411c7mD") None 10;
            Lookup.sample_row 2 None (Some "170001") 20] in
  let t' := (t ++ [Lookup.sample_row 3 None (Some "170001") 30])%list in
  3 = 3
  /\ (exists new, t' = (t ++ [new])%list /\ id new = 3 /\ bvid new = None
                  /\ aid new = Some "170001")
  /\ length (List.filter (Lookup.matches "170001") t')
     = S (length (List.filter (Lookup.matches "170001") t)).
Proof.
  intros t t'.
  exact (upsert_by_aid_always_inserts 3 30 (Lookup.sample_call None (Some "170001")) t t' 3
           "170001" eq_refl eq_refl eq_refl).
Defined.

End TableFacts.

Section EndpointFacts.
Import Json Http Urls.

(** As long as the Supabase client does not throw, the cache-check
    endpoint answers an error only for a request without a usable URL, and
    then before it asks the database or the session anything: 400 when
    [url] is missing or falsy, when it is a string of no known platform or
    without an identifier, or an array that names no platform; 500 when
    the body is not JSON or is [null], and when [url] is any other value
    that is not a string (the outer [catch]). Otherwise [url] is a string
    that is not empty and the endpoint answers [cached: true] or
    [cached: false] with the identifier and the platform of the URL. *)
Theorem cache_check_refuses_only_bad_requests db user now body :
  let '(resp, db', calls) := CheckCache.handler db user now body in
  match resp with
  | CheckCache.ErrorResponse st _ =>
      calls = [] /\ db' = db
      /\ match CheckCache.requested_url body with
         | Some (JStr url) =>
             st = 400
             /\ (url = "" \/ detectPlatform url = None \/ extractVideoId url = None)
         | Some (JArr elements) =>
             st = if CheckCache.names_platform elements then 500 else 400
         | Some j => st = if truthy j then 500 else 400
         | None => st = match body with None | Some JNull => 500 | Some _ => 400 end
         end
  | CheckCache.Cached videoId p _ _ _ _ _ _ | CheckCache.NotCached videoId p =>
      exists url,
        CheckCache.requested_url body = Some (JStr url)
        /\ url <> "" /\ detectPlatform url = Some p /\ extractVideoId url = Some videoId
  end.
Proof.
  unfold CheckCache.handler, CheckCache.requested_url.
  destruct body as [data|]; [|now repeat split].
  destruct data as [ | | | | | fields]; try (now repeat split).
  cbn [field]. destruct (assoc "url" fields) as [u|]; [|now repeat split].
  destruct u as [ | b | q | url | elements | o]; cbn [truthy negb].
  - now repeat split.
  - destruct b; now repeat split.
  - destruct (Qeq_bool q 0); now repeat split.
  - destruct (String.eqb_spec url ""); cbn [negb]; [repeat split; auto|].
    destruct (detectPlatform url) as [p|] eqn:Hp; [|repeat split; auto].
    destruct (extractVideoId url) as [id|] eqn:Hid; [|repeat split; auto].
    destruct p.
    + destruct (CheckCache.single _) as [v|]; [|now exists url].
      destruct (truthy_opt _); [|now exists url]. destruct user; now exists url.
    + destruct (CheckCache.single _) as [v|]; [|now exists url].
      destruct (truthy_opt _); [|now exists url]. destruct user; now exists url.
  - destruct (CheckCache.names_platform elements); now repeat split.
  - now repeat split.
Qed.

(** The cache-check endpoint writes one thing only: when it serves a
    cached analysis to a signed-in user it records, under that user and
    the [id] of the record, the time of the request; the other entries of
    [user_videos] and the two tables of analyses are never touched, and
    nothing at all is written for a guest or on a miss. *)
Theorem cache_check_records_access db user now body :
  let '(resp, db', calls) := CheckCache.handler db user now body in
  CheckCache.video_analyses db' = CheckCache.video_analyses db
  /\ CheckCache.bilibili_video_analyses db' = CheckCache.bilibili_video_analyses db
  /\ match resp, user with
     | CheckCache.Cached videoId p _ _ _ _ _ _, Some user_id =>
         exists v,
           CheckCache.single (CheckCache.select p db videoId) = Some v
           /\ CheckCache.user_videos db'
              = <[(user_id, CheckCache.cv_id v) := now]> (CheckCache.user_videos db)
           /\ CheckCache.user_videos db' !! (user_id, CheckCache.cv_id v) = Some now
           /\ (forall k, k <> (user_id, CheckCache.cv_id v) ->
                         CheckCache.user_videos db' !! k
                         = CheckCache.user_videos db !! k)
     | _, _ => db' = db /\ ~ In (CheckCache.DbUpsert "user_videos") calls
     end.
Proof.
  unfold CheckCache.handler.
  destruct body as [data|]; [|now repeat split].
  destruct data as [ | | | | | fields]; try (now repeat split).
  cbn [field]. destruct (assoc "url" fields) as [u|]; [|now repeat split].
  destruct (truthy u); cbn [negb]; [|now repeat split].
  destruct u as [ | b | q | url | elements | o]; try (now repeat split);
    [|destruct (CheckCache.names_platform elements); now repeat split].
  destruct (detectPlatform url) as [p|]; [|now repeat split; auto].
  destruct (extractVideoId url) as [id|]; [|now repeat split; auto].
  assert (Hno : ~ In (CheckCache.DbUpsert "user_videos")
                     [CheckCache.AuthGetUser; CheckCache.DbSelect "video_analyses"]).
  { intros [H|[H|[]]]; discriminate. }
  assert (Hno' : ~ In (CheckCache.DbUpsert "user_videos")
                      [CheckCache.AuthGetUser; CheckCache.DbSelect "bilibili_video_analyses"]).
  { intros [H|[H|[]]]; discriminate. }
  destruct p; cbn [CheckCache.select].
  - destruct (CheckCache.single _) as [v|] eqn:Es; [|now repeat split].
    destruct (truthy_opt _); [|now repeat split].
    destruct user as [u|]; [|now repeat split].
    split; [reflexivity|]. split; [reflexivity|]. exists v. cbn.
    split; [exact Es|]. split; [reflexivity|].
    split; [apply lookup_insert_eq|]. intros k Hk. now apply lookup_insert_ne.
  - destruct (CheckCache.single _) as [v|] eqn:Es; [|now repeat split].
    destruct (truthy_opt _); [|now repeat split].
    destruct user as [u|]; [|now repeat split].
    split; [reflexivity|]. split; [reflexivity|]. exists v. cbn.
    split; [exact Es|]. split; [reflexivity|].
    split; [apply lookup_insert_eq|]. intros k Hk. now apply lookup_insert_ne.
Qed.

Lemma js_or_truthy a b : truthy b = true -> truthy (VideoInfoRoute.js_or a b) = true.
Proof.
  intros Hb. unfold VideoInfoRoute.js_or. destruct a as [j|]; [|exact Hb].
  destruct (truthy j) eqn:E; [exact E | exact Hb].
Qed.

(** Once the URL is accepted the video-info endpoint always answers 200,
    whatever its providers do, with the identifier and the platform of
    the URL; and for YouTube the title, the author and the thumbnail it
    answers are never empty. *)
Theorem video_info_always_answers up url p id :
  url <> "" -> detectPlatform url = Some p -> extractVideoId url = Some id ->
  exists info,
    VideoInfoRoute.handler up url = Response 200 (Some (JObj info))
    /\ assoc "videoId" info = Some (JStr id)
    /\ assoc "platform" info = Some (JStr (Page.platform_name p))
    /\ (p = youtube ->
        truthy_opt (assoc "title" info) = true
        /\ truthy_opt (assoc "author" info) = true
        /\ truthy_opt (assoc "thumbnail" info) = true).
Proof.
  intros Hu Hp Hid. unfold VideoInfoRoute.handler.
  destruct (String.eqb_spec url ""); [contradiction|]. rewrite Hp, Hid.
  destruct p.
  - destruct (VideoInfoRoute.supadata_attempt up id) as [r|] eqn:Es.
    + unfold VideoInfoRoute.supadata_attempt in Es.
      destruct (VideoInfoRoute.api_key up); [|discriminate].
      destruct (VideoInfoRoute.supadata_video up id) as [e|r0]; [discriminate|].
      destruct (ok r0); [|discriminate].
      destruct (body r0) as [d|]; [|discriminate].
      destruct (VideoInfoRoute.throws_on_read d); [discriminate|]. injection Es as <-.
      unfold VideoInfoRoute.optional.
      destruct (field "description" d) as [dj|]; [destruct (truthy dj)|];
        destruct (truthy (VideoInfoRoute.js_or (field "tags" d) _));
        (eexists; split; [reflexivity|]); repeat split; intros;
        cbn -[VideoInfoRoute.js_or VideoInfoRoute.thumbnail_of truthy];
        repeat apply js_or_truthy; reflexivity.
    + unfold VideoInfoRoute.oembed_fallback.
      destruct (VideoInfoRoute.oembed up id) as [e|r0];
        [|destruct (ok r0); cbn [negb];
          [destruct (body r0) as [d|]; [destruct (VideoInfoRoute.throws_on_read d)|]|]];
        (eexists; split; [reflexivity|]); repeat split; intros;
        cbn -[VideoInfoRoute.js_or VideoInfoRoute.thumbnail_of truthy];
        repeat apply js_or_truthy; reflexivity.
  - destruct (VideoInfoRoute.bilibili_view up id) as [b|];
      (eexists; split; [reflexivity|]); repeat split; intros; try discriminate;
      reflexivity.
Qed.

Lemma video_info_always_answers_witness :
  let down := VideoInfoRoute.Upstream (fun _ => None) false
                                      (fun _ => Page.unreachable)
                                      (fun _ => Page.unreachable) in
  exists info,
    VideoInfoRoute.handler down "https://youtu.be/dQw4w9WgXcQ"
    = Response 200 (Some (JObj info))
    /\ assoc "videoId" info = Some (JStr "dQw4w9WgXcQ")
    /\ truthy_opt (assoc "title" info) = true.
Proof.
  intros down.
  destruct (video_info_always_answers down "https://youtu.be/dQw4w9WgXcQ" youtube
              "dQw4w9WgXcQ" ltac:(discriminate) ltac:(vm_compute; reflexivity)
              ltac:(vm_compute; reflexivity)) as (info & H1 & H2 & _ & H4).
  exists info. exact (conj H1 (conj H2 (proj1 (H4 eq_refl)))).
Defined.

End EndpointFacts.

Section TranscriptFacts.
Import Json Http Urls Transcript.

(** The transcript endpoint never answers success with an empty
    transcript, and a successful answer carries the identifier and the
    platform of the URL. (The answers the YouTube branch gives by itself
    are its error answers.) *)
Theorem transcript_answer_is_never_empty up url id segs p :
  (forall v r, youtube_branch up v = inl r -> exists st msg, r = ErrorResponse st msg) ->
  handler up url = TranscriptOk id segs p ->
  segs <> [] /\ url <> "" /\ detectPlatform url = Some p /\ extractVideoId url = Some id.
Proof.
  intros Hy. unfold handler. destruct (String.eqb_spec url ""); [discriminate|].
  destruct (detectPlatform url) as [p0|]; [|discriminate].
  destruct (extractVideoId url) as [id0|]; [|destruct p0; discriminate].
  destruct p0.
  - destruct (youtube_branch up id0) as [r|[|it items]] eqn:E; try discriminate.
    + destruct (Hy _ _ E) as (st & msg & ->). discriminate.
    + intros [= <- <- <-]. repeat split; auto; discriminate.
  - destruct (bilibili_branch up id0) as [r|[|it items]] eqn:E; try discriminate.
    + intros ->. exfalso. revert E. unfold bilibili_branch.
      destruct (view_cids up id0) as [[|cid pages]|]; try discriminate.
      destruct (cid =? 0)%Z; [discriminate|].
      destruct (player_subtitles up id0 cid) as [subs|]; [|discriminate].
      destruct (getPreferredSubtitle subs) as [sub|]; [|discriminate].
      destruct (subtitle_body up (subtitle_url sub)); discriminate.
    + intros [= <- <- <-]. repeat split; auto; discriminate.
Qed.

Lemma transcript_answer_is_never_empty_witness :
  [Segment "hello" 1 (2 # 1000)] <> []
  /\ "https://www.bilibili.com/video/BV1xx411c7mD" <> ""
  /\ detectPlatform "https://www.bilibili.com/video/BV1xx411c7mD" = Some bilibili
  /\ extractVideoId "https://www.bilibili.com/video/BV1xx411c7mD" = Some "BV1xx411c7mD".
Proof.
  apply (transcript_answer_is_never_empty one_entry_upstream).
  - intros v r [= <-]. now exists 500, "API配置错误".
  - vm_compute. reflexivity.
Defined.

Lemma transform_of_entry (e : subtitle_entry) :
  let seg := transform (of_segment (Segment (content e) (from e) (to e - from e))) in
  text seg = content e /\ (start seg == from e)%Q
  /\ (duration seg == (to e - from e) / 1000)%Q.
Proof.
  cbn. repeat split.
  - destruct (content e); reflexivity.
  - destruct (Qeq_bool (from e) 0) eqn:E; [|reflexivity].
    apply Qeq_bool_iff in E. now rewrite E.
  - destruct (Qeq_bool ((to e - from e) / 1000) 0) eqn:E; [|reflexivity].
    apply Qeq_bool_iff in E. now rewrite E.
Qed.

Lemma segments_of_body (body : list subtitle_entry) :
  Forall2 (fun e seg =>
             text seg = content e /\ (start seg == from e)%Q
             /\ (duration seg == (to e - from e) / 1000)%Q)
          body (map transform (map of_segment (convertSubtitlesToTranscript body))).
Proof.
  induction body as [|e body IH]; cbn [map convertSubtitlesToTranscript].
  - constructor.
  - constructor; [apply transform_of_entry | exact IH].
Qed.

(** For a Bilibili video a successful answer follows the body of the
    preferred subtitle entry by entry, in its order: the text is the
    content, the start is [from], and the duration is [to - from] divided
    by 1000. *)
Theorem bilibili_segments_follow_body up url id segs :
  (forall v r, youtube_branch up v = inl r -> exists st msg, r = ErrorResponse st msg) ->
  handler up url = TranscriptOk id segs bilibili ->
  exists cid pages subtitles preferred body,
    view_cids up id = Some (cid :: pages)
    /\ player_subtitles up id cid = Some subtitles
    /\ getPreferredSubtitle subtitles = Some preferred
    /\ subtitle_body up (subtitle_url preferred) = Some body
    /\ Forall2 (fun e seg =>
                  text seg = content e /\ (start seg == from e)%Q
                  /\ (duration seg == (to e - from e) / 1000)%Q)
               body segs.
Proof.
  intros Hy. unfold handler. destruct (String.eqb_spec url ""); [discriminate|].
  destruct (detectPlatform url) as [p0|]; [|discriminate].
  destruct (extractVideoId url) as [id0|]; [|destruct p0; discriminate].
  destruct p0.
  { destruct (youtube_branch up id0) as [r|[|it items]] eqn:E; try discriminate.
    destruct (Hy _ _ E) as (st & msg & ->). discriminate. }
  unfold bilibili_branch.
  destruct (view_cids up id0) as [[|cid pages]|] eqn:Ev; try discriminate.
  destruct (cid =? 0)%Z; [discriminate|].
  destruct (player_subtitles up id0 cid) as [subs|] eqn:Ep; [|discriminate].
  destruct (getPreferredSubtitle subs) as [sub|] eqn:Eg; [|discriminate].
  destruct (subtitle_body up (subtitle_url sub)) as [body|] eqn:Eb; [|discriminate].
  pose proof (segments_of_body body) as HF.
  destruct body as [|e body]; [discriminate|].
  cbn [map convertSubtitlesToTranscript] in *.
  intros [= <- <-]. exists cid, pages, subs, sub, (e :: body). repeat split; auto.
Qed.

Lemma bilibili_segments_follow_body_witness :
  exists cid pages subtitles preferred body,
    view_cids one_entry_upstream "BV1xx411c7mD" = Some (cid :: pages)
    /\ player_subtitles one_entry_upstream "BV1xx411c7mD" cid = Some subtitles
    /\ getPreferredSubtitle subtitles = Some preferred
    /\ subtitle_body one_entry_upstream (subtitle_url preferred) = Some body
    /\ Forall2 (fun e seg =>
                  text seg = content e /\ (start seg == from e)%Q
                  /\ (duration seg == (to e - from e) / 1000)%Q)
               body [Segment "hello" 1 (2 # 1000)].
Proof.
  apply (bilibili_segments_follow_body one_entry_upstream
           "https://www.bilibili.com/video/BV1xx411c7mD").
  - intros v r [= <-]. now exists 500, "API配置错误".
  - vm_compute. reflexivity.
Defined.

Lemma filter_first {A} (f : A -> bool) (l : list A) x rest :
  List.filter f l = x :: rest ->
  exists before after,
    l = (before ++ x :: after)%list /\ f x = true /\ forallb (fun y => negb (f y)) before = true.
Proof.
  induction l as [|a l IH]; cbn [List.filter]; [discriminate|].
  destruct (f a) eqn:E.
  - intros [= <- <-]. now exists [], l.
  - intros H. destruct (IH H) as (b & c & -> & Hx & Hb).
    exists (a :: b), c. cbn. now rewrite E, Hb.
Qed.

(** [getPreferredSubtitle] returns [null] only for an empty list;
    otherwise it returns a track of the list: the first Chinese one when
    there is one, and the first track when there is none. *)
Theorem getPreferredSubtitle_prefers_chinese subtitles :
  match getPreferredSubtitle subtitles with
  | None => subtitles = []
  | Some sub =>
      exists before after,
        subtitles = (before ++ sub :: after)%list
        /\ forallb (fun s => negb (Tracks.is_chinese s)) before = true
        /\ (Tracks.is_chinese sub = true
            \/ (before = [] /\ forallb (fun s => negb (Tracks.is_chinese s)) subtitles = true))
  end.
Proof.
  unfold getPreferredSubtitle. fold Tracks.is_chinese.
  destruct (List.filter Tracks.is_chinese subtitles) as [|c l] eqn:Ef.
  - destruct subtitles as [|s rest]; [reflexivity|]. exists [], rest. repeat split. right.
    split; [reflexivity|]. clear -Ef. revert Ef. generalize (s :: rest). clear.
    intros l. induction l as [|a l IH]; cbn; [reflexivity|].
    destruct (Tracks.is_chinese a); [discriminate|]. exact IH.
  - destruct (filter_first _ _ _ _ Ef) as (b & a & -> & Hc & Hb). exists b, a. auto.
Qed.

End TranscriptFacts.


(* ================================================================== *)
(** * The behaviour of the page *)

Section PageLogicFacts.
Import Json Http Page PageLogic.

Lemma completes_ret {A} (a : A) : completes (ret a).
Proof. intros w. now exists a. Qed.

Lemma completes_get : completes get.
Proof. intros w. now exists w. Qed.

Lemma completes_step f : completes (modify f).
Proof. intros w. now exists tt. Qed.

Lemma completes_bind {A B} (m : M A) (k : A -> M B) :
  completes m -> (forall a, completes (k a)) -> completes (bind m k).
Proof.
  intros Hm Hk w. unfold bind. destruct (Hm w) as [a Ha].
  destruct (m w) as [r w1]. cbn in Ha. subst r. apply Hk.
Qed.

Lemma adds_ret P {A} (a : A) : adds P (ret a).
Proof. intros w. exists []. cbn. now rewrite app_nil_r. Qed.

Lemma adds_get P : adds P get.
Proof. intros w. exists []. cbn. now rewrite app_nil_r. Qed.

Lemma adds_throw P {A} err : adds P (@throw A err).
Proof. intros w. exists []. cbn. now rewrite app_nil_r. Qed.

Lemma adds_early_return P {A} : adds P (@early_return A).
Proof. intros w. exists []. cbn. now rewrite app_nil_r. Qed.

Lemma adds_step P f :
  (forall w, exists evs, trace (f w) = (trace w ++ evs)%list /\ Forall P evs) ->
  adds P (modify f).
Proof. intros H w. exact (H w). Qed.

Lemma adds_bind P {A B} (m : M A) (k : A -> M B) :
  adds P m -> (forall a, adds P (k a)) -> adds P (bind m k).
Proof.
  intros Hm Hk w. unfold bind. destruct (Hm w) as (evs & Hevs & HP).
  destruct (m w) as [[a|err|] w1]; cbn in *; try (now exists evs).
  destruct (Hk a w1) as (evs' & Hevs' & HP'). exists (evs ++ evs')%list.
  rewrite Hevs', Hevs, List.app_assoc. split; [reflexivity|]. now apply Forall_app.
Qed.

Lemma adds_bind_stops P {A B} (m : M A) (k : A -> M B) :
  adds P m -> stops m -> adds P (bind m k).
Proof.
  intros Hm Hs w. unfold bind. destruct (Hm w) as (evs & Hevs & HP). specialize (Hs w).
  destruct (m w) as [[a|err|] w1]; cbn in *; try (now exists evs).
  now destruct (Hs a).
Qed.

Lemma keeps_ret k {A} (a : A) : keeps k (ret a).
Proof. now intros w. Qed.

Lemma keeps_get k : keeps k get.
Proof. now intros w. Qed.

Lemma keeps_throw k {A} err : keeps k (@throw A err).
Proof. now intros w. Qed.

Lemma keeps_early_return k {A} : keeps k (@early_return A).
Proof. now intros w. Qed.

Lemma keeps_step k f :
  (forall w, view (f w) !! k = view w !! k) -> keeps k (modify f).
Proof. intros H w. exact (H w). Qed.

Lemma keeps_bind k {A B} (m : M A) (f : A -> M B) :
  keeps k m -> (forall a, keeps k (f a)) -> keeps k (bind m f).
Proof.
  intros Hm Hf w. unfold bind. specialize (Hm w).
  destruct (m w) as [[a|err|] w1]; cbn in *; try exact Hm.
  now rewrite Hf.
Qed.

Lemma preserves_ret {S} (part : world -> S) {A} (a : A) : preserves part (ret a).
Proof. now intros w. Qed.

Lemma preserves_get {S} (part : world -> S) : preserves part get.
Proof. now intros w. Qed.

Lemma preserves_throw {S} (part : world -> S) {A} err : preserves part (@throw A err).
Proof. now intros w. Qed.

Lemma preserves_early_return {S} (part : world -> S) {A} :
  preserves part (@early_return A).
Proof. now intros w. Qed.

Lemma preserves_step {S} (part : world -> S) f :
  (forall w, part (f w) = part w) -> preserves part (modify f).
Proof. intros H w. exact (H w). Qed.

Lemma preserves_bind {S} (part : world -> S) {A B} (m : M A) (f : A -> M B) :
  preserves part m -> (forall a, preserves part (f a)) -> preserves part (bind m f).
Proof.
  intros Hm Hf w. unfold bind. specialize (Hm w).
  destruct (m w) as [[a|err|] w1]; cbn in *; try exact Hm.
  now rewrite Hf.
Qed.

Lemma ends_with_setState k v : ends_with k v (setState k v).
Proof. intros w. cbn. apply lookup_insert_eq. Qed.

Lemma ends_with_bind_l k v {A B} (m : M A) (f : A -> M B) :
  ends_with k v m -> (forall a, keeps k (f a)) -> ends_with k v (bind m f).
Proof.
  intros Hm Hf w. unfold bind. specialize (Hm w).
  destruct (m w) as [[a|err|] w1]; cbn in *; try exact Hm.
  now rewrite Hf.
Qed.

Lemma ends_with_bind_r k v {A B} (m : M A) (f : A -> M B) :
  completes m -> (forall a, ends_with k v (f a)) -> ends_with k v (bind m f).
Proof.
  intros Hm Hf w. unfold bind. destruct (Hm w) as [a Ha].
  destruct (m w) as [r w1]. cbn in Ha. subst r. apply Hf.
Qed.

End PageLogicFacts.

(** The steps of a computation, one after the other. *)
Ltac open_steps :=
  unfold Page.setState, Page.setItem, Page.emit, Page.throw_error, Page.when, Page.prop.

Ltac case_steps :=
  match goal with
  | |- Page.completes (match ?x with _ => _ end) => destruct x
  | |- PageLogic.adds _ (match ?x with _ => _ end) => destruct x
  | |- PageLogic.keeps _ (match ?x with _ => _ end) => destruct x
  | |- PageLogic.preserves _ (match ?x with _ => _ end) => destruct x
  end.

Ltac completes_steps :=
  open_steps;
  repeat first
    [ apply completes_ret | apply completes_get | apply completes_step
    | apply completes_bind; [|intros ?]
    | case_steps ].

Ltac adds_steps :=
  open_steps;
  repeat first
    [ apply adds_ret | apply adds_get | apply adds_throw | apply adds_early_return
    | apply adds_step; intros ?;
      first [ exists (@nil Page.event); cbn; split; [now rewrite app_nil_r | constructor]
            | eexists [_]; split; [reflexivity|];
              constructor; [first [solve [repeat eexists] | reflexivity] | constructor] ]
    | apply adds_bind; [|intros ?]
    | case_steps ].

Ltac keeps_steps :=
  open_steps;
  repeat first
    [ apply keeps_ret | apply keeps_get | apply keeps_throw | apply keeps_early_return
    | apply keeps_step; intros ?; cbn;
      first [ reflexivity | now rewrite ?lookup_insert_ne by discriminate ]
    | apply keeps_bind; [|intros ?]
    | case_steps ].

Ltac preserves_steps :=
  open_steps;
  repeat first
    [ apply preserves_ret | apply preserves_get | apply preserves_throw
    | apply preserves_early_return
    | apply preserves_step; intros ?; reflexivity
    | apply preserves_bind; [|intros ?]
    | case_steps ].

(** Walk down to the last [setState] of the variable. *)
Ltac ends_with_steps :=
  repeat first
    [ apply ends_with_bind_l; [apply ends_with_setState | intros ?; solve [keeps_steps]]
    | apply ends_with_bind_r; [solve [completes_steps] | intros ?] ].

Section PageBehaviour.
Import Json Http Urls Page.
Variable normalizeTranscript : option json -> json.
Variable hydrateTopicsWithTranscript : json -> json -> json.
Variable normalizeWhitespace : string -> string.
Variable Number : string -> Q.

#[local] Arguments with_view _ _ /.
#[local] Arguments with_redirected _ _ /.
#[local] Arguments with_selectedThemeRef _ _ /.
#[local] Arguments with_nextThemeRequestId _ _ /.
#[local] Arguments with_activeThemeRequestId _ _ /.
#[local] Arguments with_pending _ _ /.
#[local] Arguments with_storage _ _ /.
#[local] Arguments with_event _ _ /.

(** Run the steps of a computation that do not depend on a case
    analysis. *)
Ltac step :=
  unfold bind, ret, emit, setState, setItem, modify, get, when, early_return,
    throw_error, throw, prop;
  cbn -[Qeq_bool Qle_bool normalizeErrorMessage buildApiErrorMessage load_cached].

Ltac step_np :=
  unfold bind, ret, emit, setState, setItem, modify, get, when, early_return,
    throw_error, throw;
  cbn -[Qeq_bool Qle_bool prop normalizeErrorMessage buildApiErrorMessage load_cached].

(** Case analysis on whatever the computation branches on next. *)
Ltac branch :=
  match goal with
  | |- context [match ?x with _ => _ end] =>
      lazymatch x with
      | context [World] => fail
      | (_, _) => fail
      | _ => destruct x eqn:?
      end
  end.

(** A key that the later updates leave alone. *)
Ltac through :=
  repeat (rewrite lookup_insert_ne by discriminate);
  first [rewrite lookup_insert_eq; reflexivity | reflexivity].

Abbreviation run := (processVideo normalizeTranscript hydrateTopicsWithTranscript
                                  normalizeWhitespace Number).
Abbreviation try_block := (processVideo_try normalizeTranscript hydrateTopicsWithTranscript
                                            normalizeWhitespace Number).

(** A URL without an identifier or of no known platform is refused
    before anything is done: nothing is requested, nothing of the earlier
    analysis is reset, and the page shows the error for an invalid
    URL. *)
Theorem invalid_url_sends_nothing c e url mode w :
  extractVideoId url = None \/ detectPlatform url = None ->
  let w' := run c e url mode w in
  trace w' = trace w
  /\ view w' !! "error" = Some (JStr "无效的视频URL。请提供YouTube或Bilibili链接。")
  /\ view w' !! "pageState" = Some (JStr "IDLE")
  /\ view w' !! "topics" = view w !! "topics"
  /\ sessionStorage w' = sessionStorage w.
Proof.
  intros H w'. subst w'.
  assert (E : try_block c e url mode w
              = (Throw (JsError "Error" "无效的视频URL。请提供YouTube或Bilibili链接。"), w)).
  { unfold processVideo_try. destruct H as [-> | ->]; [reflexivity|].
    now destruct (extractVideoId url). }
  unfold processVideo. rewrite E. cbn [message].
  replace (normalizeErrorMessage _ _) with "无效的视频URL。请提供YouTube或Bilibili链接。"
    by (vm_compute; reflexivity).
  cbn. repeat split; through.
Qed.

Abbreviation load := (load_cached normalizeTranscript hydrateTopicsWithTranscript
                                  normalizeWhitespace Number).

(** What the cache holds is loaded without a failure, with background
    work only, and ends with the cached topics on display. *)
Lemma load_cached_spec c id mode data :
  let transcript := normalizeTranscript (field "transcript" data) in
  let topics := hydrateTopicsWithTranscript (array_or_empty (field "topics" data))
                                            transcript in
  completes (load c id mode data)
  /\ PageLogic.adds PageLogic.is_background (load c id mode data)
  /\ PageLogic.ends_with "topics" topics (load c id mode data)
  /\ PageLogic.ends_with "transcript" transcript (load c id mode data)
  /\ PageLogic.ends_with "pageState" (JStr "IDLE") (load c id mode data)
  /\ PageLogic.keeps "error" (load c id mode data).
Proof.
  intros transcript topics.
  repeat split; unfold load_cached, setVideoDurationFrom, storeCurrentVideoForAuth;
    fold transcript; fold topics.
  - completes_steps.
  - adds_steps.
  - ends_with_steps.
  - ends_with_steps.
  - ends_with_steps.
  - keeps_steps.
Qed.

Lemma check_cache_hit c e url id mode w r data :
  cache_fetch e = Responded r -> ok r = true -> body r = Some data ->
  truthy_opt (field "cached" data) = true ->
  check_cache normalizeTranscript hydrateTopicsWithTranscript normalizeWhitespace Number
              c e url id mode w
  = (Return,
     snd (load c id mode data
               (with_event (Fetch "/api/check-video-cache" (JObj [("url", JStr url)])) w))).
Proof.
  intros Hc Hok Hb Ht. unfold check_cache. rewrite Hc. step_np. rewrite Hok, Hb. step_np.
  assert (Hn : data <> JNull) by (intros ->; discriminate Ht).
  assert (Hp : prop "cached" data = ret (field "cached" data))     by (destruct data; [congruence|reflexivity..]).
  rewrite Hp. step_np. rewrite Ht.
  destruct (load_cached_spec c id mode data) as (Hcomp & _).
  destruct (Hcomp (with_event (Fetch "/api/check-video-cache" (JObj [("url", JStr url)])) w))
    as [[] Ha].
  cbn -[load_cached] in *.
  destruct (load_cached _ _ _ _ _ _ _ _ _) as [res w2]. cbn in Ha. now subst res.
Qed.

(** On a cache hit the run asks for nothing but the cache: after the cache
    request it only starts background work, it shows the cached topics
    and transcript, and it ends idle and without an error. *)
Theorem cache_hit_requests_nothing_else c e url mode w id p r data :
  extractVideoId url = Some id -> detectPlatform url = Some p -> nonempty id = true ->
  cache_fetch e = Responded r -> ok r = true -> body r = Some data ->
  truthy_opt (field "cached" data) = true ->
  let w' := run c e url mode w in
  let transcript := normalizeTranscript (field "transcript" data) in
  (exists evs,
      trace w' = (trace w ++ [Cleanup None;
                              Fetch "/api/check-video-cache" (JObj [("url", JStr url)])]
                          ++ evs)%list
      /\ Forall PageLogic.is_background evs)
  /\ view w' !! "topics"
     = Some (hydrateTopicsWithTranscript (array_or_empty (field "topics" data)) transcript)
  /\ view w' !! "transcript" = Some transcript
  /\ view w' !! "error" = Some (JStr "")
  /\ view w' !! "pageState" = Some (JStr "IDLE").
Proof.
  intros Hid Hp Hne Hc Hok Hb Ht w' transcript. subst w'.
  destruct (reset_analysis_spec c id p w) as (w1 & E1 & Ht1 & _ & _ & He1 & _).
  set (w2 := with_event (Fetch "/api/check-video-cache" (JObj [("url", JStr url)])) w1).
  destruct (load_cached_spec c id mode data) as (_ & Hadd & Htop & Htr & _ & Herr).
  destruct (Hadd w2) as (evs & Hevs & Hbg).
  assert (Etry : try_block c e url mode w = (Return, snd (load c id mode data w2))).
  { unfold processVideo_try. rewrite Hid, Hp, Hne. cbn [negb].
    rewrite (bind_val _ _ _ _ _ E1).
    apply bind_return. now apply (check_cache_hit c e url id mode w1 r data). }
  unfold processVideo. rewrite Etry. cbn [view trace with_view].
  split; [|repeat split].
  - exists evs. split; [|exact Hbg]. rewrite Hevs. subst w2. cbn [trace with_event].
    rewrite Ht1. now rewrite <- !List.app_assoc.
  - repeat (rewrite lookup_insert_ne by discriminate). apply Htop.
  - repeat (rewrite lookup_insert_ne by discriminate). apply Htr.
  - repeat (rewrite lookup_insert_ne by discriminate). rewrite Herr. exact He1.
  - through.
Qed.

Abbreviation quiet := (fun ev => PageLogic.is_generation_request ev = false).

Lemma check_cache_stops c e url id mode :
  cache_miss (cache_fetch e) = false ->
  PageLogic.stops (check_cache normalizeTranscript hydrateTopicsWithTranscript
                               normalizeWhitespace Number c e url id mode).
Proof.
  intros H w a. unfold cache_miss in H.
  destruct (cache_fetch e) as [err|r] eqn:Hc.
  - unfold check_cache. rewrite Hc. cbn. discriminate.
  - destruct (ok r) eqn:Hok; [|discriminate].
    destruct (body r) as [data|] eqn:Hb.
    + destruct (truthy_opt (field "cached" data)) eqn:Ht.
      * rewrite (check_cache_hit c e url id mode w r data Hc Hok Hb Ht). discriminate.
      * destruct data; try discriminate. unfold check_cache. rewrite Hc. step_np.
        rewrite Hok, Hb. cbn. discriminate.
    + unfold check_cache. rewrite Hc. step_np. rewrite Hok, Hb. cbn. discriminate.
Qed.

Lemma limit_gate_stops c e id :
  limit_allows c (limit_fetch e) = false -> PageLogic.stops (limit_gate c e id).
Proof.
  unfold limit_allows, limit_gate, checkRateLimit, checkGenerationLimit,
    redirectToAuthForLimit, storeCurrentVideoForAuth.
  intros H w a. destruct (user c) as [u|] eqn:Hu.
  - apply negb_false_iff in H. rewrite H. cbn. discriminate.
  - destruct (limit_fetch e) as [err|[st [data|]]].
    + step. rewrite ?Hu. destruct (remaining c) as [n|]; [|discriminate].
      apply negb_false_iff in H. rewrite H. step.
      destruct (hasRedirectedForLimit w), (nonempty id); cbn; discriminate.
    + step. rewrite ?Hu.
      destruct (field "remaining" data) as [[| |n| | |]|] eqn:Hr; step; rewrite ?Hr; step;
        try (destruct (remaining c) as [n'|]; [|discriminate]);
        try discriminate H;
        apply negb_false_iff in H; rewrite H; step;
        destruct (hasRedirectedForLimit w), (nonempty id); cbn; discriminate.
    + step. rewrite ?Hu. destruct (remaining c) as [n|]; [|discriminate].
      apply negb_false_iff in H. rewrite H. step.
      destruct (hasRedirectedForLimit w), (nonempty id); cbn; discriminate.
Qed.

Lemma fetch_inputs_stops e url :
  transcript_failed (transcript_fetch e) = true ->
  PageLogic.stops (fetch_inputs normalizeTranscript Number e url).
Proof.
  intros H w a.
  destruct (fetch_inputs_failed normalizeTranscript Number e url w H) as (err & w' & E & _).
  rewrite E. discriminate.
Qed.

Lemma reset_analysis_quiet c id p : PageLogic.adds quiet (reset_analysis c id p).
Proof. unfold reset_analysis, storeCurrentVideoForAuth. adds_steps. Qed.

Lemma check_cache_quiet c e url id mode :
  PageLogic.adds quiet (check_cache normalizeTranscript hydrateTopicsWithTranscript
                                    normalizeWhitespace Number c e url id mode).
Proof.
  unfold check_cache, load_cached, setVideoDurationFrom, storeCurrentVideoForAuth.
  adds_steps.
Qed.

Lemma limit_gate_quiet c e id : PageLogic.adds quiet (limit_gate c e id).
Proof.
  unfold limit_gate, checkRateLimit, checkGenerationLimit, redirectToAuthForLimit,
    storeCurrentVideoForAuth.
  adds_steps.
Qed.

Lemma fetch_inputs_quiet e url :
  PageLogic.adds quiet (fetch_inputs normalizeTranscript Number e url).
Proof. unfold fetch_inputs, setVideoDurationFrom. adds_steps. Qed.

(** The run starts no generation request (preview, topics or summary)
    unless the cache reported a miss, the limit lets the run through and
    the transcript request succeeded. *)
Theorem generation_waits_for_every_check c e url mode w :
  cache_miss (cache_fetch e) && limit_allows c (limit_fetch e)
    && negb (transcript_failed (transcript_fetch e)) = false ->
  exists evs,
    trace (run c e url mode w) = (trace w ++ evs)%list
    /\ Forall (fun ev => PageLogic.is_generation_request ev = false) evs.
Proof.
  intros H.
  assert (Htry : PageLogic.adds quiet (try_block c e url mode)).
  { unfold processVideo_try.
    destruct (extractVideoId url) as [id|]; [|adds_steps].
    destruct (detectPlatform url) as [p|]; [|adds_steps].
    destruct (negb (nonempty id)); [adds_steps|].
    apply adds_bind; [apply reset_analysis_quiet|intros _].
    destruct (cache_miss (cache_fetch e)) eqn:Hc;
      [|apply adds_bind_stops; [apply check_cache_quiet|now apply check_cache_stops]].
    apply adds_bind; [apply check_cache_quiet|intros _].
    destruct (limit_allows c (limit_fetch e)) eqn:Hl;
      [|apply adds_bind_stops; [apply limit_gate_quiet|now apply limit_gate_stops]].
    apply adds_bind; [apply limit_gate_quiet|intros _].
    apply negb_false_iff in H.
    apply adds_bind_stops; [apply fetch_inputs_quiet|now apply fetch_inputs_stops]. }
  destruct (Htry w) as (evs & Hevs & Hq). exists evs. split; [|exact Hq].
  unfold processVideo. destruct (try_block c e url mode w) as [[[]|err|] w1]; exact Hevs.
Qed.

Lemma buildApiErrorMessage_nonempty errorData fallback :
  fallback <> "" -> buildApiErrorMessage errorData fallback <> "".
Proof.
  intros Hf. unfold buildApiErrorMessage.
  destruct errorData; try (now apply normalizeErrorMessage_nonempty);
    repeat match goal with |- context [if ?b then _ else _] => destruct b end;
    now apply normalizeErrorMessage_nonempty.
Qed.

Abbreviation gen := (generate hydrateTopicsWithTranscript normalizeWhitespace).

(** The topics arrive and the summary request fails. *)
Lemma generate_summary_failed c e id mode t info w rt td cands :
  topics_fetch e = Responded rt -> ok rt = true -> body rt = Some td -> td <> JNull ->
  with_keys normalizeWhitespace
            (match field "topicCandidates" td with Some (JArr l) => l | _ => [] end)
  = Some cands ->
  PageLogic.request_failed (takeaways_fetch e) = true ->
  let topics := hydrateTopicsWithTranscript (array_or_empty (field "topics" td)) t in
  exists msg w',
    gen c e id mode t info w = (Val tt, w')
    /\ msg <> ""
    /\ view w' !! "takeawaysError" = Some (JStr msg)
    /\ (forall err, takeaways_fetch e = Rejected err -> is_abort err = true ->
                    msg = "总结生成超时。视频可能过长。")
    /\ view w' !! "topics" = Some topics
    /\ view w' !! "selectedTopic" = Some (first_or_null topics)
    /\ view w' !! "error" = view w !! "error"
    /\ view w' !! "takeawaysContent" = view w !! "takeawaysContent"
    /\ In (Background "save-complete-analysis" "/api/save-analysis"
             (JObj [("videoId", JStr id);
                    ("videoInfo", match info with
                                  | Some i => i
                                  | None => placeholder_info id
                                  end);
                    ("transcript", t);
                    ("topics", topics);
                    ("summary", JNull);
                    ("model", JStr "gemini-2.5-flash")]))
          (trace w').
Proof.
  intros Ht Hok Hb Hnn Hk Hs topics. subst topics.
  unfold generate, PageLogic.request_failed in *. rewrite Ht.
  destruct (takeaways_fetch e) as [err|r2].
  - destruct (is_abort err) eqn:Ha; [|destruct (message err) as [|ch rest] eqn:Hm].
    all: step_np; rewrite Hok, Hb; step_np.
    all: rewrite (prop_nonnull _ _ Hnn); step_np; rewrite Hk; step_np.
    all: eexists _, _; split; [reflexivity|]; cbn.
    all: split; [|split; [through|]]; try discriminate.
    all: split; [intros ? [= <-] ?; first [reflexivity | congruence]|].
    all: repeat split; try through.
    all: repeat (apply in_or_app; first [right; left; reflexivity | left]).
  - apply negb_true_iff in Hs.
    pose proof (buildApiErrorMessage_nonempty (error_data r2) "生成总结失败，请重试。"
                  ltac:(discriminate)) as Hm.
    step_np; rewrite Hok, Hb; step_np.
    rewrite (prop_nonnull _ _ Hnn); step_np; rewrite Hk; step_np. rewrite Hs. step_np.
    destruct (buildApiErrorMessage _ _) as [|ch rest]; [congruence|]. step_np.
    eexists _, _; split; [reflexivity|]; cbn.
    split; [|split; [through|]]; try discriminate. split; [intros ? [=]|].
    repeat split; try through.
    repeat (apply in_or_app; first [right; left; reflexivity | left]).
Qed.

(** A summary request that fails does not fail the analysis: when the
    topics arrive they are shown and saved, without a summary; the page
    shows no error, and the reason the summary is missing is kept apart,
    as the error of the summary. *)
Theorem summary_failure_keeps_topics c e url mode w id p r data rt td cands :
  extractVideoId url = Some id -> detectPlatform url = Some p -> nonempty id = true ->
  cache_miss (cache_fetch e) = true ->
  limit_allows c (limit_fetch e) = true ->
  transcript_fetch e = Responded r -> ok r = true -> body r = Some data ->
  data <> JNull ->
  topics_fetch e = Responded rt -> ok rt = true -> body rt = Some td -> td <> JNull ->
  with_keys normalizeWhitespace
            (match field "topicCandidates" td with Some (JArr l) => l | _ => [] end)
  = Some cands ->
  PageLogic.request_failed (takeaways_fetch e) = true ->
  let w' := run c e url mode w in
  let t := normalizeTranscript (field "transcript" data) in
  let topics := hydrateTopicsWithTranscript (array_or_empty (field "topics" td)) t in
  view w' !! "topics" = Some topics
  /\ view w' !! "selectedTopic" = Some (first_or_null topics)
  /\ view w' !! "error" = Some (JStr "")
  /\ view w' !! "takeawaysContent" = Some JNull
  /\ (exists msg,
        msg <> "" /\ view w' !! "takeawaysError" = Some (JStr msg)
        /\ (forall err, takeaways_fetch e = Rejected err -> is_abort err = true ->
                        msg = "总结生成超时。视频可能过长。"))
  /\ (exists info,
        In (Background "save-complete-analysis" "/api/save-analysis"
              (JObj [("videoId", JStr id); ("videoInfo", info); ("transcript", t);
                     ("topics", topics); ("summary", JNull);
                     ("model", JStr "gemini-2.5-flash")]))
           (trace w')).
Proof.
  intros Hid Hp Hne Hmiss Hallow Hf Hok Hb Hnn Hrt Hokt Hbt Hnt Hk Hs w' t topics.
  subst w'.
  destruct (processVideo_try_inputs normalizeTranscript hydrateTopicsWithTranscript
              normalizeWhitespace Number c e url mode w id p Hid Hp Hne Hmiss Hallow)
    as (w2 & Etry & _ & Hv1 & Hv2 & _).
  destruct (fetch_inputs_ready normalizeTranscript Number e url w2 r data Hf Hok Hb Hnn)
    as (info & w3 & E3 & _ & _ & _ & Hv & _).
  fold t in E3.
  destruct (generate_summary_failed c e id mode t info w3 rt td cands
              Hrt Hokt Hbt Hnt Hk Hs)
    as (msg & w4 & E4 & Hmsg & Herr & Habort & Htop & Hsel & He & Hc & Hsave).
  fold topics in Htop, Hsel, Hsave.
  unfold processVideo. rewrite Etry, (bind_val _ _ _ _ _ E3). cbn [fst snd].
  rewrite E4. cbn [view trace with_view].
  repeat (rewrite lookup_insert_ne by discriminate).
  split; [exact Htop|]. split; [exact Hsel|].
  split; [now rewrite He, Hv by discriminate|].
  split; [now rewrite Hc, Hv by discriminate|].
  split; [exists msg; now repeat split|].
  eexists. exact Hsave.
Qed.

(** The redirect to the sign-in page: the flag is set, the state
    variables are left alone, and the only event is the navigation, which
    does not happen when the flag was set before. *)
Lemma redirect_spec c msg pending w :
  exists w',
    redirectToAuthForLimit c msg pending w = (Val tt, w')
    /\ view w' = view w
    /\ hasRedirectedForLimit w' = true
    /\ trace w' = (trace w ++ if hasRedirectedForLimit w then []
                              else [RouterPush "/?auth=limit"])%list
    /\ (hasRedirectedForLimit w = true -> w' = w).
Proof.
  unfold redirectToAuthForLimit, storeCurrentVideoForAuth. step.
  destruct (hasRedirectedForLimit w) eqn:Hred.
  - exists w. cbn. rewrite app_nil_r. now repeat split.
  - step. repeat (branch; step).
    all: eexists; split; [reflexivity|]; cbn; repeat split; discriminate.
Qed.


Ltac step_e :=
  unfold bind, ret, emit, setState, setItem, modify, get, when, early_return,
    throw_error, throw;
  cbn -[Qeq_bool Qle_bool prop normalizeErrorMessage buildApiErrorMessage load_cached
        error_data truthy_opt field as_string Str.trim nonempty redirectToAuthForLimit].

(** The topics request is answered with status 429. *)
Lemma generate_rate_limited c e id mode t info w b :
  topics_fetch e = Responded (Response 429 b) ->
  let errorData := error_data (Response 429 b) in
  let out := gen c e id mode t info w in
  view (snd out) !! "topics" = view w !! "topics"
  /\ In (Abort "takeaways") (trace (snd out))
  /\ (truthy_opt (field "requiresAuth" errorData) = true ->
      fst out = Return
      /\ view (snd out) !! "error" = view w !! "error"
      /\ hasRedirectedForLimit (snd out) = true
      /\ (hasRedirectedForLimit w = false ->
          exists evs, trace (snd out) = (trace w ++ evs ++ [RouterPush "/?auth=limit"])%list))
  /\ (truthy_opt (field "requiresAuth" errorData) = false ->
      (exists m, fst out = Throw (JsError "Error" m) /\ m <> "")
      /\ view (snd out) !! "isRateLimitError" = Some (JBool true)
      /\ hasRedirectedForLimit (snd out) = hasRedirectedForLimit w).
Proof.
  intros Ht errorData out. subst out.
  unfold generate. rewrite Ht.
  step_e. fold errorData.
  destruct (truthy_opt (field "requiresAuth" errorData)) eqn:Hra; step_e.
  - match goal with
    | |- context [redirectToAuthForLimit ?c0 ?m ?p ?w0] =>
        destruct (redirect_spec c0 m p w0) as (w' & E & Hv & Hred & Htr & _)
    end.
    rewrite E. cbn [fst snd]. rewrite Hv, Htr. cbn [view trace hasRedirectedForLimit].
    split; [through|]. split.
    { repeat (apply in_or_app; first [right; left; reflexivity | left]). }
    split; [|discriminate]. intros _. split; [reflexivity|]. split; [through|].
    split; [exact Hred|]. intros ->. rewrite <- !List.app_assoc. cbn [List.app].
    now eexists [_; _; _; _; _; _].
  - split; [through|]. split.
    { repeat (apply in_or_app; first [right; left; reflexivity | left]). }
    split; [discriminate|]. intros _.
    split; [|split; [through|reflexivity]].
    eexists. split; [reflexivity|].
    destruct (nonempty (match as_string (field "message" errorData) with
                        | Some m => Str.trim m | None => "" end)) eqn:H1.
    + intros H. rewrite H in H1. discriminate H1.
    + destruct (nonempty (match as_string (field "error" errorData) with
                          | Some m => Str.trim m | None => "" end)) eqn:H2.
      * intros H. rewrite H in H2. discriminate H2.
      * discriminate.
Qed.

(** A run on the miss path that passes the limit check, up to the two
    input requests: the redirect flag is as it was. *)
Lemma try_block_inputs c e url mode w id p :
  extractVideoId url = Some id -> detectPlatform url = Some p -> nonempty id = true ->
  cache_miss (cache_fetch e) = true ->
  limit_allows c (limit_fetch e) = true ->
  exists w2 evs,
    try_block c e url mode w
    = bind (fetch_inputs normalizeTranscript Number e url)
           (fun inputs => gen c e id mode (fst inputs) (snd inputs)) w2
    /\ trace w2 = (trace w ++ evs)%list
    /\ hasRedirectedForLimit w2 = hasRedirectedForLimit w
    /\ view w2 !! "error" = Some (JStr "")
    /\ view w2 !! "topics" = Some (JArr []).
Proof.
  intros Hid Hp Hne Hmiss Hallow.
  destruct (processVideo_try_miss normalizeTranscript hydrateTopicsWithTranscript
              normalizeWhitespace Number c e url mode w id p Hid Hp Hne Hmiss)
    as (w1 & E1 & Etry).
  destruct (reset_analysis_spec c id p w)
    as (w1' & E1' & Ht1 & Hr1 & _ & Hv1 & _ & _ & _ & Hv4).
  rewrite E1 in E1'. injection E1' as <-.
  destruct (limit_gate_open c e id
              (with_event (Fetch "/api/check-video-cache" (JObj [("url", JStr url)])) w1)
              Hallow) as (w2 & E2 & Ht2 & Hr2 & _ & Hv).
  exists w2. eexists. rewrite Etry, (bind_val _ _ _ _ _ E2). split; [reflexivity|].
  rewrite Ht2, Hr2, !Hv by discriminate. cbn. rewrite Ht1, Hr1.
  rewrite <- !List.app_assoc. repeat split; assumption.
Qed.

(** When the topics request is answered with status 429 the run shows no
    topics and gives up the summary. If the answer asks for a sign-in the
    visitor is sent to the sign-in page and no error is shown; otherwise
    the page reports a rate-limit error and nobody is redirected. *)
Theorem rate_limited_topics_request c e url mode w id p r data b :
  extractVideoId url = Some id -> detectPlatform url = Some p -> nonempty id = true ->
  cache_miss (cache_fetch e) = true ->
  limit_allows c (limit_fetch e) = true ->
  transcript_fetch e = Responded r -> ok r = true -> body r = Some data ->
  data <> JNull ->
  topics_fetch e = Responded (Response 429 b) ->
  let w' := run c e url mode w in
  let requiresAuth := truthy_opt (field "requiresAuth" (error_data (Response 429 b))) in
  view w' !! "topics" = Some (JArr [])
  /\ In (Abort "takeaways") (trace w')
  /\ (requiresAuth = true ->
      hasRedirectedForLimit w' = true
      /\ view w' !! "error" = Some (JStr "")
      /\ (hasRedirectedForLimit w = false ->
          exists evs, trace w' = (trace w ++ evs ++ [RouterPush "/?auth=limit"])%list))
  /\ (requiresAuth = false ->
      hasRedirectedForLimit w' = hasRedirectedForLimit w
      /\ view w' !! "isRateLimitError" = Some (JBool true)
      /\ exists m, m <> "" /\ view w' !! "error" = Some (JStr m)).
Proof.
  intros Hid Hp Hne Hmiss Hallow Hf Hok Hb Hnn Ht w' requiresAuth. subst w'.
  destruct (try_block_inputs c e url mode w id p Hid Hp Hne Hmiss Hallow)
    as (w2 & evs2 & Etry & Ht2 & Hr2 & Hv1 & Hv4).
  destruct (fetch_inputs_ready normalizeTranscript Number e url w2 r data Hf Hok Hb Hnn)
    as (info & w3 & E3 & Ht3 & Hr3 & _ & Hv & _).
  destruct (generate_rate_limited c e id mode (normalizeTranscript (field "transcript" data))
              info w3 b Ht) as (Htop & Habort & Hauth & Hother).
  unfold processVideo. rewrite Etry, (bind_val _ _ _ _ _ E3). cbn [fst snd].
  destruct (gen c e id mode _ info w3) as [out w4]. cbn [fst snd] in *.
  fold requiresAuth in Hauth, Hother.
  assert (Htr : forall w5 f, trace (with_view f w5) = trace w5) by reflexivity.
  assert (Hfl : forall w5 f, hasRedirectedForLimit (with_view f w5)
                             = hasRedirectedForLimit w5) by reflexivity.
  split; [|split; [|split]].
  - destruct out; cbn [view with_view];
      repeat (rewrite lookup_insert_ne by discriminate);
      now rewrite Htop, Hv by discriminate.
  - rewrite Htr. now destruct out.
  - intros Hra. destruct (Hauth Hra) as (-> & He & Hred & Hpush).
    rewrite Hfl, Htr. split; [exact Hred|]. split.
    + cbn [view with_view]. repeat (rewrite lookup_insert_ne by discriminate).
      now rewrite He, Hv by discriminate.
    + intros Hw. destruct Hpush as (evs & Hevs); [congruence|].
      rewrite Hevs, Ht3, Ht2. rewrite <- !List.app_assoc.
      eexists (evs2 ++ _ :: _ :: _ :: _ :: evs)%list.
      now rewrite <- !List.app_assoc.
  - intros Hra. destruct (Hother Hra) as ((m & -> & Hm) & Hrl & Hred).
    rewrite !Hfl. split; [congruence|]. cbn [view with_view message]. split.
    + now repeat (rewrite lookup_insert_ne by discriminate).
    + eexists. split; [|through].
      apply normalizeErrorMessage_nonempty. discriminate.
Qed.

Abbreviation begin := (handleThemeSelect_begin hydrateTopicsWithTranscript
                                               normalizeWhitespace).
Abbreviation resume := (handleThemeSelect_resume hydrateTopicsWithTranscript
                                                 normalizeWhitespace).

(** What [resetToDefault] leaves behind. *)
Lemma resetToDefault_spec tc preserveError w :
  exists w',
    resetToDefault normalizeWhitespace tc preserveError w = (Val tt, w')
    /\ trace w' = trace w
    /\ pendingThemeRequestsRef w' = pendingThemeRequestsRef w
    /\ nextThemeRequestIdRef w' = nextThemeRequestIdRef w
    /\ selectedThemeRef w' = None
    /\ activeThemeRequestIdRef w' = None
    /\ view w' !! "topics" = Some (t_baseTopics tc)
    /\ view w' !! "selectedTheme" = Some JNull
    /\ view w' !! "selectedTopic" = Some JNull
    /\ view w' !! "isLoadingThemeTopics" = Some (JBool false)
    /\ view w' !! "usedTopicKeys"
       = Some (jset (keys_of normalizeWhitespace (t_baseTopics tc) []))
    /\ view w' !! "themeError"
       = (if preserveError then view w !! "themeError" else Some JNull).
Proof.
  unfold resetToDefault. destruct preserveError; step;
    (eexists; split; [reflexivity|]; cbn; repeat split; through).
Qed.

(** Selecting no theme, a blank one, or the theme that is selected
    already puts the default topics back: nothing is requested, no request
    is active any more, and the theme error is cleared. *)
Theorem deselecting_a_theme_restores_the_default tc label w v :
  t_videoId tc = Some v -> nonempty v = true ->
  (label = None
   \/ exists l, label = Some l
                /\ (Str.trim l = "" \/ t_selectedTheme tc = Some (Str.trim l))) ->
  let out := begin tc label w in
  fst out = Return
  /\ trace (snd out) = trace w
  /\ pendingThemeRequestsRef (snd out) = pendingThemeRequestsRef w
  /\ selectedThemeRef (snd out) = None
  /\ activeThemeRequestIdRef (snd out) = None
  /\ view (snd out) !! "topics" = Some (t_baseTopics tc)
  /\ view (snd out) !! "selectedTheme" = Some JNull
  /\ view (snd out) !! "isLoadingThemeTopics" = Some (JBool false)
  /\ view (snd out) !! "themeError" = Some JNull.
Proof.
  intros Hv Hne Hl out. subst out.
  destruct (resetToDefault_spec tc false w)
    as (w' & E & Ht & Hp & _ & Hs & Ha & Htop & Hsel & _ & Hload & _ & Herr).
  assert (Hreset : begin tc label w = (Return, w')).
  { unfold handleThemeSelect_begin. rewrite Hv, Hne. cbn [negb].
    destruct Hl as [-> | (l & -> & Hl)]; [now rewrite (bind_val _ _ _ _ _ E)|].
    destruct (nonempty l); cbn [negb]; [|now rewrite (bind_val _ _ _ _ _ E)].
    cbv zeta.
    destruct (nonempty (Str.trim l)) eqn:Hnt; cbn [negb];
      [|now rewrite (bind_val _ _ _ _ _ E)].
    destruct Hl as [Hl | Hl]; [rewrite Hl in Hnt; discriminate Hnt|].
    rewrite Hl, String.eqb_refl. now rewrite (bind_val _ _ _ _ _ E). }
  rewrite Hreset. cbn [fst snd]. now repeat split.
Qed.

Lemma nonempty_trim l : nonempty (Str.trim l) = true -> nonempty l = true.
Proof. destruct l; [discriminate|reflexivity]. Qed.

Lemma not_selected tc T :
  t_selectedTheme tc <> Some T ->
  match t_selectedTheme tc with Some t => String.eqb t T | None => false end = false.
Proof.
  destruct (t_selectedTheme tc) as [t|]; [|reflexivity].
  intros H. destruct (String.eqb_spec t T); congruence.
Qed.

(** A theme whose request is still under way is not requested again:
    selecting it makes the pending request the active one and shows the
    loading state. *)
Theorem pending_theme_request_is_reused tc l w v r :
  t_videoId tc = Some v -> nonempty v = true ->
  let T := Str.trim l in
  nonempty T = true ->
  t_selectedTheme tc <> Some T ->
  truthy_opt (field T (t_themeTopicsMap tc)) = false ->
  pendingThemeRequestsRef w !! T = Some r ->
  let out := begin tc (Some l) w in
  fst out = Return
  /\ trace (snd out) = trace w
  /\ pendingThemeRequestsRef (snd out) = pendingThemeRequestsRef w
  /\ nextThemeRequestIdRef (snd out) = nextThemeRequestIdRef w
  /\ activeThemeRequestIdRef (snd out) = Some r
  /\ selectedThemeRef (snd out) = Some T
  /\ view (snd out) !! "selectedTheme" = Some (JStr T)
  /\ view (snd out) !! "isLoadingThemeTopics" = Some (JBool true)
  /\ view (snd out) !! "topics" = view w !! "topics".
Proof.
  intros Hv Hne T HT Hsel Hstored Hpend out. subst out.
  unfold handleThemeSelect_begin. rewrite Hv, Hne, (nonempty_trim l HT). cbn [negb].
  cbv zeta. fold T. rewrite HT, (not_selected tc T Hsel). cbn [negb].
  destruct (field T (t_themeTopicsMap tc)) as [topics|] eqn:Hf.
  - cbn [truthy_opt] in Hstored. rewrite Hstored. step. rewrite Hstored, Hpend. step.
    repeat split; through.
  - step. rewrite Hpend. step. repeat split; through.
Qed.

Ltac step_t :=
  unfold bind, ret, emit, setState, setItem, modify, get, when, early_return,
    throw_error, throw;
  cbn -[show_theme truthy needsHydration].

(** [show_theme] records nothing and touches no ref. *)
Lemma show_theme_frame T topics w :
  let w' := snd (show_theme T topics w) in
  trace w' = trace w
  /\ pendingThemeRequestsRef w' = pendingThemeRequestsRef w
  /\ nextThemeRequestIdRef w' = nextThemeRequestIdRef w
  /\ (forall k, k <> "themeCandidateMap" -> k <> "topics" -> k <> "selectedTopic" ->
                k <> "themeError" -> view w' !! k = view w !! k).
Proof.
  unfold show_theme, update_entry.
  destruct topics as [| | | |[|t0 l]|]; step;
    destruct (selectedThemeRef w) as [t|]; try destruct (String.eqb t T); step;
    repeat split; intros; now rewrite ?lookup_insert_ne by congruence.
Qed.

(** The topics stored for a theme are shown at once and without a
    request, after they have been completed from the transcript when they
    lack their bounds. *)
Theorem stored_theme_topics_need_no_request tc l w v topics :
  t_videoId tc = Some v -> nonempty v = true ->
  let T := Str.trim l in
  nonempty T = true ->
  t_selectedTheme tc <> Some T ->
  field T (t_themeTopicsMap tc) = Some topics ->
  let shown := if needsHydration (Some topics)
               then hydrateTopicsWithTranscript topics (t_transcript tc)
               else topics in
  truthy topics = true -> truthy shown = true ->
  let out := begin tc (Some l) w in
  fst out = Val None
  /\ trace (snd out) = trace w
  /\ pendingThemeRequestsRef (snd out) = pendingThemeRequestsRef w
  /\ nextThemeRequestIdRef (snd out) = nextThemeRequestIdRef w
  /\ activeThemeRequestIdRef (snd out) = None
  /\ selectedThemeRef (snd out) = Some T
  /\ view (snd out) !! "selectedTheme" = Some (JStr T)
  /\ view (snd out) !! "isLoadingThemeTopics" = Some (JBool false)
  /\ view (snd out) !! "topics" = Some shown.
Proof.
  intros Hv Hne T HT Hsel Hstored shown Htr Hsh out. subst out.
  assert (Hcur : forall w0, selectedThemeRef w0 = Some T -> selected_is w0 T = true)
    by (intros w0 H; unfold selected_is; now rewrite H, String.eqb_refl).
  unfold handleThemeSelect_begin. rewrite Hv, Hne, (nonempty_trim l HT). cbn [negb].
  cbv zeta. fold T. rewrite HT, (not_selected tc T Hsel). cbn [negb].
  rewrite Hstored, Htr. cbn [andb]. subst shown.
  destruct (needsHydration (Some topics)); unfold update_entry; step_t; rewrite ?Hsh; step_t.
  all: match goal with
       | |- context [show_theme ?T0 ?tp ?w0] =>
           destruct (show_theme_current T0 tp w0 (Hcur w0 eq_refl))
             as (w' & E & Hs' & Ha' & Htop');
           pose proof (show_theme_frame T0 tp w0) as (Ht' & Hp' & Hn' & Hk')
       end.
  all: rewrite E in *; cbn [fst snd] in *.
  all: rewrite Ht', Hp', Hn', Hs', Ha', Htop', !Hk' by discriminate; cbn.
  all: repeat split; through.
Qed.

Abbreviation try_theme := (theme_try hydrateTopicsWithTranscript normalizeWhitespace).
Abbreviation catch_theme := (theme_catch normalizeWhitespace).

Lemma theme_try_quiet tc T f :
  PageLogic.preserves trace (try_theme tc T f)
  /\ PageLogic.preserves pendingThemeRequestsRef (try_theme tc T f)
  /\ PageLogic.preserves nextThemeRequestIdRef (try_theme tc T f).
Proof. repeat split; unfold theme_try, update_entry; preserves_steps. Qed.

Lemma theme_catch_quiet tc T err :
  PageLogic.preserves trace (catch_theme tc T err)
  /\ PageLogic.preserves pendingThemeRequestsRef (catch_theme tc T err)
  /\ PageLogic.preserves nextThemeRequestIdRef (catch_theme tc T err).
Proof. repeat split; unfold theme_catch, resetToDefault; preserves_steps. Qed.

Lemma show_theme_quiet T topics :
  PageLogic.preserves trace (show_theme T topics)
  /\ PageLogic.preserves pendingThemeRequestsRef (show_theme T topics)
  /\ PageLogic.preserves nextThemeRequestIdRef (show_theme T topics).
Proof. repeat split; unfold show_theme, update_entry; preserves_steps. Qed.

Lemma theme_finally_spec T r w :
  let w' := snd (theme_finally T r w) in
  trace w' = (trace w ++ [Cleanup (Some (request_key T r))])%list
  /\ pendingThemeRequestsRef w' = delete T (pendingThemeRequestsRef w)
  /\ nextThemeRequestIdRef w' = nextThemeRequestIdRef w.
Proof.
  unfold theme_finally. step.
  match goal with |- context [if ?b then _ else _] => destruct b end; now step.
Qed.

(** However a theme request settles, the callback forgets it: the theme
    is no longer pending, the entries of the other themes stay, the only
    thing done to the outside is the clean-up of the request's controller,
    and no request number is used up. *)
Theorem settled_theme_request_is_forgotten tc T r f w :
  let w' := resume tc T r f w in
  pendingThemeRequestsRef w' = delete T (pendingThemeRequestsRef w)
  /\ trace w' = (trace w ++ [Cleanup (Some (request_key T r))])%list
  /\ nextThemeRequestIdRef w' = nextThemeRequestIdRef w.
Proof.
  intros w'. subst w'. unfold handleThemeSelect_resume.
  destruct (theme_try_quiet tc T f) as (Ht1 & Hp1 & Hn1).
  specialize (Ht1 w). specialize (Hp1 w). specialize (Hn1 w).
  destruct (try_theme tc T f w) as [r1 w1]. cbn [snd] in *.
  assert (Hcatch : forall w2 (r2 : outcome json),
             match r1 with
             | Throw error => catch_theme tc T error w1
             | _ => (r1, w1)
             end = (r2, w2) ->
             trace w2 = trace w1
             /\ pendingThemeRequestsRef w2 = pendingThemeRequestsRef w1
             /\ nextThemeRequestIdRef w2 = nextThemeRequestIdRef w1).
  { intros w2 r2 E. destruct r1 as [a|err|]; try (injection E as <- <-; now repeat split).
    destruct (theme_catch_quiet tc T err) as (Ht & Hp & Hn).
    specialize (Ht w1). specialize (Hp w1). specialize (Hn w1).
    rewrite E in *. now repeat split. }
  destruct (match r1 with Throw error => _ | _ => _ end) as [r2 w2].
  destruct (Hcatch w2 r2 eq_refl) as (Ht2 & Hp2 & Hn2).
  destruct (theme_finally_spec T r w2) as (Ht3 & Hp3 & Hn3).
  assert (Hend : forall w4,
             w4 = match r2 with
                  | Val themedTopics =>
                      snd (show_theme T (if truthy themedTopics then themedTopics
                                         else JArr [])
                                      (snd (theme_finally T r w2)))
                  | _ => snd (theme_finally T r w2)
                  end ->
             trace w4 = trace (snd (theme_finally T r w2))
             /\ pendingThemeRequestsRef w4
                = pendingThemeRequestsRef (snd (theme_finally T r w2))
             /\ nextThemeRequestIdRef w4
                = nextThemeRequestIdRef (snd (theme_finally T r w2))).
  { intros w4 ->. destruct r2 as [topics|err|]; try now repeat split.
    destruct (show_theme_quiet T (if truthy topics then topics else JArr []))
      as (Ht & Hp & Hn).
    now rewrite Ht, Hp, Hn. }
  destruct (Hend _ eq_refl) as (Ht4 & Hp4 & Hn4).
  rewrite Ht4, Hp4, Hn4, Ht3, Hp3, Hn3, Ht2, Hp2, Hn2, Ht1, Hp1, Hn1. now repeat split.
Qed.

Lemma theme_try_failed tc T f w :
  PageLogic.request_failed f = true ->
  try_theme tc T f w
  = (Throw match f with
           | Rejected err => err
           | Responded rsp =>
               JsError "Error" (buildApiErrorMessage (error_data rsp) "生成主题化主题失败")
           end, w).
Proof.
  unfold theme_try, PageLogic.request_failed. destruct f as [err|rsp]; [reflexivity|].
  intros H. apply negb_true_iff in H. step_np. now rewrite H.
Qed.

(** When the request for the selected theme fails, the default topics are
    put back and the failure is shown as the theme error; a request that
    was aborted is dropped without a word, and the theme stays
    selected. *)
Theorem failed_theme_request_restores_the_default tc T r f w :
  selected_is w T = true ->
  PageLogic.request_failed f = true ->
  let error := match f with
               | Rejected err => err
               | Responded rsp =>
                   JsError "Error"
                           (buildApiErrorMessage (error_data rsp) "生成主题化主题失败")
               end in
  let w' := resume tc T r f w in
  (is_abort error = false ->
   view w' !! "topics" = Some (t_baseTopics tc)
   /\ view w' !! "themeError" = Some (JStr (message error))
   /\ view w' !! "selectedTheme" = Some JNull
   /\ view w' !! "isLoadingThemeTopics" = Some (JBool false)
   /\ selectedThemeRef w' = None
   /\ activeThemeRequestIdRef w' = None)
  /\ (is_abort error = true ->
      view w' !! "topics" = view w !! "topics"
      /\ view w' !! "themeError" = view w !! "themeError"
      /\ view w' !! "selectedTheme" = view w !! "selectedTheme"
      /\ selectedThemeRef w' = Some T).
Proof.
  intros Hs Hf error w'. subst w'. unfold handleThemeSelect_resume.
  rewrite (theme_try_failed tc T f w Hf). fold error.
  unfold theme_catch. split; intros Ha; rewrite Ha.
  - destruct (resetToDefault_spec tc true w)
      as (w1 & E & _ & _ & _ & Hs1 & Ha1 & Htop & Hsel & _ & Hload & _).
    unfold bind, get, when. cbn -[resetToDefault selected_is]. rewrite Hs, E.
    unfold theme_finally. step. rewrite Ha1. step.
    repeat split; try assumption; try apply lookup_insert_eq;
      now rewrite lookup_insert_ne by discriminate.
  - unfold theme_finally. step.
    assert (HT : selectedThemeRef w = Some T).
    { unfold selected_is in Hs. destruct (selectedThemeRef w) as [t|]; [|discriminate].
      apply String.eqb_eq in Hs. now subst t. }
    match goal with |- context [if ?b then _ else _] => destruct b end; step;
      repeat split; try through; exact HT.
Qed.

End PageBehaviour.

Section PageBehaviourWitnesses.
Import Json Http Urls Page.

Lemma invalid_url_sends_nothing_witness :
  let w' := processVideo or_null (fun topics _ => topics) (fun s => s) (fun _ => 0%Q)
                         member (sample_env unreachable unreachable unreachable
                                            unreachable unreachable)
                         "https://example.com/watch" "smart" idle in
  trace w' = []
  /\ view w' !! "error" = Some (JStr "无效的视频URL。请提供YouTube或Bilibili链接。").
Proof.
  intros w'.
  destruct (invalid_url_sends_nothing or_null (fun topics _ => topics) (fun s => s)
              (fun _ => 0%Q) member
              (sample_env unreachable unreachable unreachable unreachable unreachable)
              "https://example.com/watch" "smart" idle
              ltac:(left; vm_compute; reflexivity)) as (H1 & H2 & _).
  exact (conj H1 H2).
Defined.

Lemma cache_hit_requests_nothing_else_witness :
  let w' := processVideo or_null (fun topics _ => topics) (fun s => s) (fun _ => 0%Q)
                         guest PageLogic.cached_env sample_url "smart" idle in
  view w' !! "topics" = Some (JArr [JStr "a topic"])
  /\ view w' !! "transcript" = Some (JArr [JStr "hello"])
  /\ view w' !! "error" = Some (JStr "").
Proof.
  intros w'.
  unshelve epose proof
    (cache_hit_requests_nothing_else
       or_null (fun topics _ => topics) (fun s => s) (fun _ => 0%Q)
       guest PageLogic.cached_env sample_url "smart" idle "BV1xx411c7mD" bilibili
       (Response 200 (Some (JObj [("cached", JBool true);
                                  ("transcript", JArr [JStr "hello"]);
                                  ("topics", JArr [JStr "a topic"])])))
       (JObj [("cached", JBool true); ("transcript", JArr [JStr "hello"]);
              ("topics", JArr [JStr "a topic"])])
       _ _ _ _ _ _ _) as H; try (vm_compute; reflexivity).
  destruct H as (_ & H1 & H2 & H3 & _).
  exact (conj H1 (conj H2 H3)).
Defined.

Lemma generation_waits_for_every_check_witness :
  let e := sample_env (answer (JObj [("remaining", JNum 0)]))
                      (answer (JObj [("transcript", JArr [JStr "hello"])]))
                      unreachable unreachable unreachable in
  exists evs,
    trace (sample_run guest e) = (trace idle ++ evs)%list
    /\ Forall (fun ev => PageLogic.is_generation_request ev = false) evs.
Proof.
  intros e.
  exact (generation_waits_for_every_check
           or_null (fun topics _ => topics) (fun s => s) (fun _ => 0%Q)
           guest e sample_url "smart" idle eq_refl).
Defined.

Lemma summary_failure_keeps_topics_witness :
  let e := sample_env unreachable (answer (JObj [("transcript", JArr [JStr "hello"])]))
                      unreachable
                      (answer (JObj [("topics", JArr [JStr "a topic"])]))
                      unreachable in
  view (sample_run member e) !! "topics" = Some (JArr [JStr "a topic"])
  /\ view (sample_run member e) !! "error" = Some (JStr "")
  /\ exists msg, msg <> ""
                 /\ view (sample_run member e) !! "takeawaysError" = Some (JStr msg).
Proof.
  intros e.
  unshelve epose proof
    (summary_failure_keeps_topics
       or_null (fun topics _ => topics) (fun s => s) (fun _ => 0%Q)
       member e sample_url "smart" idle "BV1xx411c7mD" bilibili
       (Response 200 (Some (JObj [("transcript", JArr [JStr "hello"])])))
       (JObj [("transcript", JArr [JStr "hello"])])
       (Response 200 (Some (JObj [("topics", JArr [JStr "a topic"])])))
       (JObj [("topics", JArr [JStr "a topic"])]) []
       _ _ _ _ _ _ _ _ _ _ _ _ _ _ _) as H;
    try (vm_compute; reflexivity); try discriminate.
  destruct H as (H1 & _ & H2 & _ & (msg & H3 & H4 & _) & _).
  exact (conj H1 (conj H2 (ex_intro _ msg (conj H3 H4)))).
Defined.

Lemma rate_limited_topics_request_witness :
  let e := sample_env (answer (JObj [("remaining", JNum 2)]))
                      (answer (JObj [("transcript", JArr [JStr "hello"])]))
                      unreachable
                      (Responded (Response 429 (Some (JObj [("requiresAuth", JBool true)]))))
                      unreachable in
  view (sample_run guest e) !! "topics" = Some (JArr [])
  /\ hasRedirectedForLimit (sample_run guest e) = true
  /\ view (sample_run guest e) !! "error" = Some (JStr "").
Proof.
  intros e.
  unshelve epose proof
    (rate_limited_topics_request
       or_null (fun topics _ => topics) (fun s => s) (fun _ => 0%Q)
       guest e sample_url "smart" idle "BV1xx411c7mD" bilibili
       (Response 200 (Some (JObj [("transcript", JArr [JStr "hello"])])))
       (JObj [("transcript", JArr [JStr "hello"])])
       (Some (JObj [("requiresAuth", JBool true)]))
       _ _ _ _ _ _ _ _ _ _) as H;
    try (vm_compute; reflexivity); try discriminate.
  destruct H as (H1 & _ & H2 & _). destruct (H2 eq_refl) as (H3 & H4 & _).
  exact (conj H1 (conj H3 H4)).
Defined.

Lemma deselecting_a_theme_restores_the_default_witness :
  let out := handleThemeSelect_begin (fun topics _ => topics) (fun s => s)
                                     PageLogic.sample_themes (Some " History ")
                                     PageLogic.showing_history in
  fst out = Return
  /\ trace (snd out) = []
  /\ view (snd out) !! "topics" = Some (JArr [JStr "a base topic"]).
Proof.
  intros out.
  unshelve epose proof
    (deselecting_a_theme_restores_the_default
       (fun topics _ => topics) (fun s => s) PageLogic.sample_themes (Some " History ")
       PageLogic.showing_history "BV1xx411c7mD" eq_refl eq_refl _) as H.
  { right. exists " History ". split; [reflexivity|]. right. vm_compute. reflexivity. }
  destruct H as (H1 & H2 & _ & _ & _ & H3 & _).
  exact (conj H1 (conj H2 H3)).
Defined.

Lemma pending_theme_request_is_reused_witness :
  let out := handleThemeSelect_begin (fun topics _ => topics) (fun s => s)
                                     PageLogic.sample_themes (Some "Art")
                                     PageLogic.awaiting_art in
  fst out = Return
  /\ trace (snd out) = []
  /\ activeThemeRequestIdRef (snd out) = Some 3
  /\ nextThemeRequestIdRef (snd out) = 3.
Proof.
  intros out.
  unshelve epose proof
    (pending_theme_request_is_reused
       (fun topics _ => topics) (fun s => s) PageLogic.sample_themes "Art"
       PageLogic.awaiting_art "BV1xx411c7mD" 3 eq_refl eq_refl _ _ _ _) as H;
    try (vm_compute; reflexivity); try (vm_compute; discriminate).
  destruct H as (H1 & H2 & _ & H3 & H4 & _).
  exact (conj H1 (conj H2 (conj H4 H3))).
Defined.

Lemma stored_theme_topics_need_no_request_witness :
  let out := handleThemeSelect_begin (fun topics _ => topics) (fun s => s)
                                     PageLogic.sample_themes (Some "Science")
                                     PageLogic.showing_history in
  fst out = Val None
  /\ trace (snd out) = []
  /\ view (snd out) !! "topics" = Some (JArr [PageLogic.bounded_topic]).
Proof.
  intros out.
  unshelve epose proof
    (stored_theme_topics_need_no_request
       (fun topics _ => topics) (fun s => s) PageLogic.sample_themes "Science"
       PageLogic.showing_history "BV1xx411c7mD" (JArr [PageLogic.bounded_topic])
       eq_refl eq_refl _ _ _ _ _) as H;
    try (vm_compute; reflexivity); try (vm_compute; discriminate).
  destruct H as (H1 & H2 & _ & _ & _ & _ & _ & _ & H3).
  exact (conj H1 (conj H2 H3)).
Defined.

Lemma failed_theme_request_restores_the_default_witness :
  let w' := handleThemeSelect_resume (fun topics _ => topics) (fun s => s)
                                     PageLogic.sample_themes "History" 1 unreachable
                                     PageLogic.showing_history in
  view w' !! "topics" = Some (JArr [JStr "a base topic"])
  /\ view w' !! "themeError" = Some (JStr "Failed to fetch")
  /\ selectedThemeRef w' = None.
Proof.
  intros w'.
  destruct (failed_theme_request_restores_the_default
              (fun topics _ => topics) (fun s => s) PageLogic.sample_themes "History" 1
              unreachable PageLogic.showing_history eq_refl eq_refl) as (H & _).
  destruct (H eq_refl) as (H1 & H2 & _ & _ & H3 & _).
  exact (conj H1 (conj H2 H3)).
Defined.

End PageBehaviourWitnesses.
